(** * mlat-server: the multilateration tracker (mlat/server/mlattrack.py)

    A shallow embedding of [MlatTracker._resolve] and [_cluster_timestamps]
    and the properties of the correlation / clustering engine.

    Numbers.  Python floats (timestamps, distances, variances) are
    modelled as exact rationals [Q]; comparisons are the boolean tests
    the code performs.  Python ints that count things are [nat].

    External collaborators (decoder, clock normaliser, solver, Kalman
    filter, receiver and aircraft objects, the constants module) are not
    part of this file of the repository; they enter as Section variables. *)

From Stdlib Require Import QArith Qabs Lia Lqa.
From stdpp Require Import gmap strings list.

Set Default Proof Using "Type".

(** * Part I: the embedding *)

(** ** Numeric comparisons as the code writes them *)

(** [x > y] on floats. *)
Definition Qgtb (x y : Q) : bool := negb (Qle_bool x y).
(** [x < y] on floats. *)
Definition Qltb (x y : Q) : bool := negb (Qle_bool y x).

(** ** Python exceptions and results *)

Inductive exn := KeyError | IndexError | AttributeError | TypeError.

Inductive result (A : Type) :=
| Ok (a : A)
| Raise (e : exn).
Arguments Ok {A} a.
Arguments Raise {A} e.

(** ** Stable sort, as [list.sort(key=...)]

    Python's sort is stable and ascending.  [sort_by ltb] puts each
    element in front of the first later element that is not smaller,
    which gives the (unique) stable ascending order. *)

Section Sort.
Context {A : Type} (ltb : A -> A -> bool).

Fixpoint insert_by (x : A) (l : list A) : list A :=
  match l with
  | [] => [x]
  | y :: l' => if ltb y x then y :: insert_by x l' else x :: y :: l'
  end.

Fixpoint sort_by (l : list A) : list A :=
  match l with
  | [] => []
  | x :: l' => insert_by x (sort_by l')
  end.

End Sort.

(** A list is ascending along a key of type [nat]. *)
Definition ascending {A : Type} (key : A -> nat) (l : list A) : Prop :=
  forall i j a b, i < j -> l !! i = Some a -> l !! j = Some b -> key a <= key b.

(** ** Receivers and cluster entries

    A receiver is an object compared by identity ([is]) and used as a
    dictionary key; it is modelled by its identity.  Its attributes
    ([user], [position], [distance]) are read through functions. *)

Definition receiver := nat.

(** [(receiver, timestamp, variance)] *)
Definition entry : Type := receiver * Q * Q.

Definition e_receiver (e : entry) : receiver := e.1.1.
Definition e_timestamp (e : entry) : Q := e.1.2.
Definition e_variance (e : entry) : Q := e.2.

(** A normalised component: receiver -> (variance, timestamps), a dict in
    insertion order. *)
Definition component : Type := list (receiver * (Q * list Q)).

(** A candidate cluster [(distinct_receivers, cluster)]. *)
Definition candidate : Type := nat * list entry.

(** ** [_cluster_timestamps] *)

Module Cluster.
Section Clustering.
(** [receiver.distance[other_receiver]], in metres.  The table is taken
    to hold an entry for every pair of receivers that is looked up; with
    an entry missing, line 351 raises KeyError, which has no counterpart
    here. *)
Variable distance : receiver -> receiver -> Q.
(** [constants.Cair], the propagation speed. *)
Variable Cair : Q.

(** Lines 289-294: flatten the component into a list of tuples. *)
Definition flatten (c : component) : list entry :=
  flat_map (fun '(rcv, (variance, timestamps)) =>
              map (fun timestamp => (rcv, timestamp, variance)) timestamps) c.

(** Line 297: [flat_component.sort(key=operator.itemgetter(1))]. *)
Definition sort_timestamps (l : list entry) : list entry :=
  sort_by (fun a b => Qltb (e_timestamp a) (e_timestamp b)) l.

(** Lines 300-307: the rough grouping.  [group] is the group being
    filled ([group[-1]] is its last element; the group is never empty);
    the result lists the groups from [group] on. *)
Fixpoint rough_groups (group : list entry) (flat : list entry) : list (list entry) :=
  match flat with
  | [] => [group]
  | t :: rest =>
      if Qgtb (e_timestamp t - e_timestamp (List.last group t)) 2e-3
      then group :: rough_groups [t] rest
      else rough_groups (group ++ [t]) rest
  end.

(** The propagation-delay bound [(d * 1.05 + 1e3) / constants.Cair]. *)
Definition max_delay (d : Q) : Q := ((d * 1.05 + 1e3) / Cair)%Q.

(** Lines 344-365: the strict test of one candidate against the members
    of the cluster; returns [(can_cluster, is_distinct)]. *)
Fixpoint check_candidate (rcv : receiver) (timestamp : Q)
    (cluster : list entry) (is_distinct : bool) : bool * bool :=
  match cluster with
  | [] => (true, is_distinct)
  | (other_receiver, other_timestamp, _) :: rest =>
      if decide (other_receiver = rcv) then (false, is_distinct)
      else
        let d := distance rcv other_receiver in
        if Qgtb (Qabs (other_timestamp - timestamp)) (max_delay d)
        then (false, is_distinct)
        else check_candidate rcv timestamp rest
               (if Qltb d 1e3 then false else is_distinct)
  end.

(** Lines 331-372: [for i in range(len(group) - 1, -1, -1)].  [n] is
    the number of indices still to visit, so the index visited is
    [n - 1]; [del group[i]] does not move the entries below [i].
    Returns [(group, cluster, distinct_receivers)].  The index is
    always in range, as [n <= len(group)] throughout. *)
Fixpoint scan (n : nat) (last_timestamp : Q) (group cluster : list entry)
    (distinct_receivers : nat) : list entry * list entry * nat :=
  match n with
  | O => (group, cluster, distinct_receivers)
  | S i =>
      match group !! i with
      | None => (group, cluster, distinct_receivers)
      | Some (rcv, timestamp, variance) =>
          if Qgtb (last_timestamp - timestamp) 2e-3
          then (group, cluster, distinct_receivers)
          else
            let '(can_cluster, is_distinct) :=
              check_candidate rcv timestamp cluster true in
            if can_cluster
            then scan i last_timestamp (delete i group)
                   (cluster ++ [(rcv, timestamp, variance)])
                   (if is_distinct then S distinct_receivers
                    else distinct_receivers)
            else scan i last_timestamp group cluster distinct_receivers
      end
  end.

(** Lines 323-372: one iteration of the [while]: [tail] has been popped
    off [group] as the seed; scan the rest of the group backwards. *)
Definition form_cluster (group : list entry) (tail : entry)
    : list entry * list entry * nat :=
  scan (length group) (e_timestamp tail) group [tail] 1.

(** Lines 322-376: [while len(group) >= 3].  Every iteration pops an
    entry, so [fuel = len(group)] iterations are enough (see
    [cluster_group_fuel]). *)
Fixpoint cluster_group (fuel : nat) (group : list entry) (min_receivers : nat)
    : list candidate :=
  match fuel with
  | O => []
  | S fuel' =>
      if 3 <=? length group then
        match last group with
        | None => []
        | Some tail =>
            let '(group', cluster, distinct_receivers) :=
              form_cluster (removelast group) tail in
            (if min_receivers <=? distinct_receivers
             then [(distinct_receivers, rev cluster)] else [])
            ++ cluster_group fuel' group' min_receivers
        end
      else []
  end.

(** [_cluster_timestamps(component, min_receivers)].
    [flat_component[0]] raises IndexError on an empty component. *)
Definition cluster_timestamps (c : component) (min_receivers : nat)
    : result (list candidate) :=
  match sort_timestamps (flatten c) with
  | [] => Raise IndexError
  | first :: rest =>
      Ok (flat_map (fun group => cluster_group (length group) group min_receivers)
            (rough_groups [first] rest))
  end.

End Clustering.
End Cluster.

(** ** The tracker state *)

(** An ECEF position and a 3x3 position covariance (its rows). *)
Definition ecef : Type := Q * Q * Q.
Definition ecef_cov : Type := ecef * ecef * ecef.

(** [numpy.trace(ecef_cov)] *)
Definition trace (c : ecef_cov) : Q :=
  let '((xx, _, _), (_, yy, _), (_, _, zz)) := c in (xx + yy + zz)%Q.

(** The result of [modes.message.decode]. *)
Record DecodedMessage := mkDecoded {
  address : Z;
  altitude : option Q;
  squawk : option string;
  callsign : option string
}.

(** [MessageGroup]; the bytes of a message are a string, [handle] (the
    timer handle) is left out. *)
Record MessageGroup := mkGroup {
  message : string;
  first_seen : Q;
  copies : list (receiver * Q)
}.

(** The receiver -> timestamps dict built by [_resolve], in insertion
    order. *)
Definition timestamp_map : Type := list (receiver * list Q).

Module Track.
Section Resolve.
(** The state of the Kalman filter of an aircraft ([ac.kalman]). *)
Variable kalman : Type.

(** The fields of an aircraft object that [_resolve] reads or writes.
    The fields that the code only does arithmetic on
    ([last_altitude_time], [last_result_var], [last_result_distinct],
    [last_result_time]) are numbers; the fields it tests against [None]
    are options. *)
Record Aircraft := mkAircraft {
  ac_altitude : option Q;
  ac_last_altitude_time : Q;
  ac_squawk : option string;
  ac_callsign : option string;
  ac_last_result_position : option ecef;
  ac_last_result_var : Q;
  ac_last_result_distinct : nat;
  ac_last_result_time : Q;
  ac_kalman : kalman
}.

(** [MlatTracker], with the parts of the coordinator it reaches
    ([coordinator.tracker.aircraft], [coordinator.output_handlers]);
    [pseudorange_file] tells whether the file is open. *)
Record MlatTracker := mkTracker {
  pending : gmap string MessageGroup;
  blacklist : gset string;
  aircraft : gmap Z Aircraft;
  output_handlers : nat;
  pseudorange_file : bool
}.

(** What a resolution does to the outside, in order. *)
Inductive event :=
| EvDecode (msg : string)
| EvNormalize (tm : timestamp_map)
| EvCluster (c : component) (min_receivers : nat)
| EvSolve (cluster : list entry) (alt alt_error : option Q) (seed : ecef)
| EvKalman (first : Q) (cluster : list entry) (alt alt_error : option Q)
    (pos : ecef) (cov : option ecef_cov) (distinct : nat)
| EvLog (addr : Z) (pos : ecef) (alt alt_error : option Q)
| EvOutput (handler : nat) (first : Q) (addr : Z) (pos : ecef)
    (cov : option ecef_cov) (receivers : list receiver) (distinct : nat)
    (k : kalman)
| EvPseudorange (addr : Z) (first : Q) (pos : ecef) (cov : ecef_cov)
    (distinct : nat) (cluster_state : list (ecef * Q * Q))
    (alt alt_error : option Q).

(** The event of a commit (line 233). *)
Definition is_kalman (e : event) : bool :=
  match e with
  | EvKalman _ _ _ _ _ _ _ => true
  | _ => false
  end.

(** The state after a resolution, what it did, and the exception that
    ended it, if any. *)
Record outcome := mkOutcome {
  o_state : MlatTracker;
  o_events : list event;
  o_raised : option exn
}.

Variable user : receiver -> string.
Variable position : receiver -> ecef.
Variable distance : receiver -> receiver -> Q.
(** [constants.Cair], [constants.FTOM], [config.MLAT_DELAY] *)
Variable Cair : Q.
Variable FTOM : Q.
Variable MLAT_DELAY : Q.
(** [modes.message.decode]; [None] when it gives no message. *)
Variable decode : string -> option DecodedMessage.
(** [clocknorm.normalize] for the tracker's clock tracker. *)
Variable normalize : timestamp_map -> list component.
(** [solver.solve] *)
Variable solve : list entry -> option Q -> option Q -> ecef -> option (ecef * option ecef_cov).
(** [ac.kalman.update] *)
Variable kalman_update : kalman -> Q -> list entry -> option Q -> option Q ->
  ecef -> option ecef_cov -> nat -> kalman.

Definition set_pending (st : MlatTracker) (p : gmap string MessageGroup) : MlatTracker :=
  mkTracker p (blacklist st) (aircraft st) (output_handlers st) (pseudorange_file st).

Definition set_aircraft (st : MlatTracker) (a : gmap Z Aircraft) : MlatTracker :=
  mkTracker (pending st) (blacklist st) a (output_handlers st) (pseudorange_file st).

(** Lines 113-121: update the tracker with newly seen altitudes,
    squawks, callsigns. *)
Definition refresh (ac : Aircraft) (decoded : DecodedMessage) (now : Q) : Aircraft :=
  mkAircraft
    (match altitude decoded with Some a => Some a | None => ac_altitude ac end)
    (match altitude decoded with Some _ => now | None => ac_last_altitude_time ac end)
    (match squawk decoded with Some s => Some s | None => ac_squawk ac end)
    (match callsign decoded with Some c => Some c | None => ac_callsign ac end)
    (ac_last_result_position ac) (ac_last_result_var ac)
    (ac_last_result_distinct ac) (ac_last_result_time ac) (ac_kalman ac).

(** Lines 124-133: find old result, if present.  Returns
    [(last_result_position, last_result_var, last_result_distinct, elapsed)]. *)
Definition prior_context (ac : Aircraft) (now : Q) : option ecef * Q * nat * Q :=
  match ac_last_result_position ac with
  | None => (None, 1e9%Q, 0, 120%Q)
  | Some p =>
      if Qgtb (now - ac_last_result_time ac) 120
      then (None, 1e9%Q, 0, 120%Q)
      else (Some p, ac_last_result_var ac, ac_last_result_distinct ac,
            (now - ac_last_result_time ac)%Q)
  end.

(** Lines 136-147: find altitude.  Returns
    [(altitude, altitude_error, min_receivers)]. *)
Definition altitude_model (ac : Aircraft) (now : Q) : option Q * option Q * nat :=
  match ac_altitude ac with
  | None => (None, None, 4)
  | Some a =>
      let altitude_error := ((250 + (now - ac_last_altitude_time ac) * 70) * FTOM)%Q in
      (Some (a * FTOM)%Q, Some altitude_error,
       if Qltb altitude_error 1000 then 3 else 4)
  end.

(** [timestamp_map.setdefault(receiver, []).append(timestamp)] *)
Fixpoint setdefault_append (rcv : receiver) (timestamp : Q) (tm : timestamp_map)
    : timestamp_map :=
  match tm with
  | [] => [(rcv, [timestamp])]
  | (r, ts) :: tm' =>
      if decide (r = rcv) then (r, ts ++ [timestamp]) :: tm'
      else (r, ts) :: setdefault_append rcv timestamp tm'
  end.

(** Lines 150-153: construct a map of receiver -> list of timestamps. *)
Definition build_timestamp_map (bl : gset string) (cps : list (receiver * Q))
    : timestamp_map :=
  fold_left (fun tm '(rcv, timestamp) =>
               if bool_decide (user rcv ∈ bl) then tm
               else setdefault_append rcv timestamp tm) cps [].

(** Lines 160-164: basic ratelimit before we do more work. *)
Definition ratelimited (elapsed : Q) (n last_result_distinct : nat) : bool :=
  (Qltb elapsed 15 && (n <? last_result_distinct))
  || (Qltb elapsed 2 && (n =? last_result_distinct)).

(** Lines 173-176: cluster every component that is large enough.
    Returns the clusters (or the exception of [_cluster_timestamps]) and
    the calls made. *)
Fixpoint gather_clusters (components : list component) (min_receivers : nat)
    : result (list candidate) * list event :=
  match components with
  | [] => (Ok [], [])
  | c :: rest =>
      if min_receivers <=? length c then
        match Cluster.cluster_timestamps distance Cair c min_receivers with
        | Raise e => (Raise e, [EvCluster c min_receivers])
        | Ok cl =>
            let '(r, ev) := gather_clusters rest min_receivers in
            (match r with Ok cls => Ok (cl ++ cls) | Raise e => Raise e end,
             EvCluster c min_receivers :: ev)
        end
      else gather_clusters rest min_receivers
  end.

(** Line 183 and the [pop()]s of line 185: the clusters in the order in
    which the loop takes them. *)
Definition pop_order (clusters : list candidate) : list candidate :=
  rev (sort_by (fun a b => a.1 <? b.1) clusters).

(** What the acceptance loop leaves behind on success:
    [(ecef, ecef_cov, var_est, distinct, cluster)]. *)
Definition accepted : Type := ecef * option ecef_cov * Q * nat * list entry.

(** Line 197: [cluster.sort(key=operator.itemgetter(1))] *)
Definition sort_cluster (cluster : list entry) : list entry :=
  sort_by (fun a b => Qltb (e_timestamp a) (e_timestamp b)) cluster.

(** Line 199: the position seed,
    [last_result_position if last_result_position else cluster[0][0].position]. *)
Definition seed_position (last_result_position : option ecef) (cluster : list entry)
    : result ecef :=
  match last_result_position with
  | Some p => Ok p
  | None =>
      match cluster with
      | [] => Raise IndexError
      | first :: _ => Ok (position (e_receiver first))
      end
  end.

(** Lines 191-195: the two tests that end the loop. *)
Definition stops (elapsed : Q) (distinct last_result_distinct : nat) : bool :=
  (Qltb elapsed 10 && (distinct <? last_result_distinct))
  || (Qltb elapsed (MLAT_DELAY - 0.5) && (distinct =? last_result_distinct)).

(** Lines 203-207: estimate the error. *)
Definition var_estimate (cov : option ecef_cov) : Q :=
  match cov with
  | Some c => trace c
  | None => 100e6
  end.

(** Lines 184-222: [while clusters and not result].  [stack] lists the
    clusters in pop order. *)
Fixpoint accept_loop (last_result_position : option ecef) (last_result_var : Q)
    (last_result_distinct : nat) (elapsed : Q) (alt alt_error : option Q)
    (stack : list candidate) : result (option accepted) * list event :=
  match stack with
  | [] => (Ok None, [])
  | (distinct, cluster) :: rest =>
      if stops elapsed distinct last_result_distinct then (Ok None, [])
      else
        let cluster := sort_cluster cluster in
        match seed_position last_result_position cluster with
        | Raise e => (Raise e, [])
        | Ok seed =>
            let continue :=
              let '(r, ev) := accept_loop last_result_position last_result_var
                                last_result_distinct elapsed alt alt_error rest in
              (r, EvSolve cluster alt alt_error seed :: ev) in
            match solve cluster alt alt_error seed with
            | None => continue
            | Some (pos, cov) =>
                let var_est := var_estimate cov in
                if Qgtb var_est 100e6 then continue
                else if Qltb elapsed 2 && Qgtb var_est (last_result_var * 1.1)
                then continue
                else (Ok (Some (pos, cov, var_est, distinct, cluster)),
                      [EvSolve cluster alt alt_error seed])
            end
        end
  end.

(** Lines 228-231: record the accepted result; line 233 updates the
    Kalman filter. *)
Definition set_last_result (ac : Aircraft) (pos : ecef) (var_est : Q)
    (distinct : nat) (now : Q) (k : kalman) : Aircraft :=
  mkAircraft (ac_altitude ac) (ac_last_altitude_time ac) (ac_squawk ac)
    (ac_callsign ac) (Some pos) var_est distinct now k.

(** Lines 252-259: the per-receiver part of a pseudorange record;
    rounding is left out. *)
Definition cluster_state (cluster : list entry) : list (ecef * Q * Q) :=
  match cluster with
  | [] => []
  | first :: _ =>
      map (fun '(rcv, timestamp, variance) =>
             (position rcv, (timestamp - e_timestamp first) * 1e6, variance * 1e12)%Q)
        cluster
  end.

(** Lines 227-283: commit.  [ac] is the aircraft after the refresh. *)
Definition commit (st : MlatTracker) (now : Q) (group : MessageGroup)
    (decoded : DecodedMessage) (ac : Aircraft) (alt alt_error : option Q)
    (min_receivers : nat) (a : accepted) : outcome :=
  let '(pos, cov, var_est, distinct, cluster) := a in
  let k := kalman_update (ac_kalman ac) (first_seen group) cluster alt alt_error
             pos cov distinct in
  let ac := set_last_result ac pos var_est distinct now k in
  let st := set_aircraft st (<[address decoded := ac]> (aircraft st)) in
  let ev :=
    [EvKalman (first_seen group) cluster alt alt_error pos cov distinct]
    ++ (if 3 <? min_receivers then [EvLog (address decoded) pos alt alt_error] else [])
    ++ map (fun h => EvOutput h (first_seen group) (address decoded) pos cov
                       (map e_receiver cluster) distinct k)
         (seq 0 (output_handlers st)) in
  if pseudorange_file st then
    match cluster, cov with
    | [], _ => mkOutcome st ev (Some IndexError)
    | _, None => mkOutcome st ev (Some TypeError)
    | _, Some c =>
        mkOutcome st
          (ev ++ [EvPseudorange (address decoded) (first_seen group) pos c distinct
                    (cluster_state cluster) alt alt_error])
          None
    end
  else mkOutcome st ev None.

(** [MlatTracker._resolve(group)], run at monotonic time [now]. *)
Definition resolve (st : MlatTracker) (now : Q) (group : MessageGroup) : outcome :=
  match pending st !! message group with
  | None => mkOutcome st [] (Some KeyError)
  | Some _ =>
  let st := set_pending st (delete (message group) (pending st)) in
  if length (copies group) <? 3 then mkOutcome st [] None else
  let ev := [EvDecode (message group)] in
  match decode (message group) with
  | None => mkOutcome st ev (Some AttributeError)
  | Some decoded =>
  match aircraft st !! address decoded with
  | None => mkOutcome st ev None
  | Some ac =>
  let ac := refresh ac decoded now in
  let st := set_aircraft st (<[address decoded := ac]> (aircraft st)) in
  let '(last_result_position, last_result_var, last_result_distinct, elapsed) :=
    prior_context ac now in
  let '(alt, alt_error, min_receivers) := altitude_model ac now in
  let tm := build_timestamp_map (blacklist st) (copies group) in
  if length tm <? min_receivers then mkOutcome st ev None else
  if ratelimited elapsed (length tm) last_result_distinct
  then mkOutcome st ev None else
  let components := normalize tm in
  let ev := ev ++ [EvNormalize tm] in
  let '(r, ev') := gather_clusters components min_receivers in
  let ev := ev ++ ev' in
  match r with
  | Raise e => mkOutcome st ev (Some e)
  | Ok [] => mkOutcome st ev None
  | Ok clusters =>
      let '(r, ev') :=
        accept_loop last_result_position last_result_var last_result_distinct
          elapsed alt alt_error (pop_order clusters) in
      let ev := ev ++ ev' in
      match r with
      | Raise e => mkOutcome st ev (Some e)
      | Ok None => mkOutcome st ev None
      | Ok (Some a) =>
          let o := commit st now group decoded ac alt alt_error min_receivers a in
          mkOutcome (o_state o) (ev ++ o_events o) (o_raised o)
      end
  end
  end
  end
  end.

End Resolve.
End Track.

(** ** Predicates of the specification *)

Module Spec.
Section Predicates.
Variable distance : receiver -> receiver -> Q.
Variable Cair : Q.

(** Two members of a cluster are compatible: they come from different
    receivers and their timestamps differ by no more than the
    propagation delay allowed for the distance [a.distance[b]]. *)
Definition feasible (a b : entry) : Prop :=
  e_receiver a <> e_receiver b /\
  (Qabs (e_timestamp a - e_timestamp b)
   <= (distance (e_receiver a) (e_receiver b) * 1.05 + 1e3) / Cair)%Q.

(** Every member is compatible with every member after it. *)
Fixpoint pairwise_feasible (cluster : list entry) : Prop :=
  match cluster with
  | [] => True
  | a :: rest => Forall (feasible a) rest /\ pairwise_feasible rest
  end.

(** [a] is at least 1 km away from every receiver of [others]. *)
Definition far_from_all (a : entry) (others : list entry) : bool :=
  forallb (fun b => negb (Qltb (distance (e_receiver a) (e_receiver b)) 1e3)) others.

(** The distinct-receiver count of a kept cluster, whose members are
    listed in reverse order of inclusion (the seed last): a member counts
    when it is at least 1 km away from every member included before it. *)
Fixpoint count_distinct (cluster : list entry) : nat :=
  match cluster with
  | [] => 0
  | a :: rest =>
      (if far_from_all a rest then 1 else 0) + count_distinct rest
  end.

(** The backward scan as the specification words it: the cut-off is
    taken from the most recently accepted member, so the reference moves
    to the timestamp of every candidate that is accepted. *)
Fixpoint scan_advancing (n : nat) (last_timestamp : Q) (group cluster : list entry)
    (distinct_receivers : nat) : list entry * list entry * nat :=
  match n with
  | O => (group, cluster, distinct_receivers)
  | S i =>
      match group !! i with
      | None => (group, cluster, distinct_receivers)
      | Some (rcv, timestamp, variance) =>
          if Qgtb (last_timestamp - timestamp) 2e-3
          then (group, cluster, distinct_receivers)
          else
            let '(can_cluster, is_distinct) :=
              Cluster.check_candidate distance Cair rcv timestamp cluster true in
            if can_cluster
            then scan_advancing i timestamp (delete i group)
                   (cluster ++ [(rcv, timestamp, variance)])
                   (if is_distinct then S distinct_receivers
                    else distinct_receivers)
            else scan_advancing i last_timestamp group cluster distinct_receivers
      end
  end.

Definition form_cluster_advancing (group : list entry) (tail : entry)
    : list entry * list entry * nat :=
  scan_advancing (length group) (e_timestamp tail) group [tail] 1.

End Predicates.

(** The receiver quorum as the specification words it: 3 exactly when
    the altitude error, [250 + 70 * seconds] feet, is under 1000 feet
    (both sides converted to the length unit of positions), 4 otherwise. *)
Definition quorum_in_feet (FTOM : Q) (seconds : Q) : nat :=
  if Qltb ((250 + seconds * 70) * FTOM) (1000 * FTOM) then 3 else 4.

End Spec.

(** ** Sample data *)

Module Sample.

(** Receivers 3 and 4 share a site (500 m apart); all other pairs are
    1000 km apart. *)
Definition distance (a b : receiver) : Q :=
  if decide (a = b) then 0
  else if bool_decide ((a = 3 /\ b = 4) \/ (a = 4 /\ b = 3)) then 500
  else 1e6.

Definition Cair : Q := (299792458 / 1.0003)%Q.
Definition FTOM : Q := 0.3048.
Definition MLAT_DELAY : Q := 2.5.

Definition user (r : receiver) : string :=
  if decide (r = 9) then "blocked" else "operator".

Definition position (r : receiver) : ecef :=
  ((inject_Z (Z.of_nat r) * 1e6)%Q, 0%Q, 0%Q).

(** Three receivers hear a message at 0, 1.5 and 3 ms. *)
Definition e0 : entry := (0, 0%Q, 1e-12%Q).
Definition e1 : entry := (1, 1.5e-3%Q, 1e-12%Q).
Definition e2 : entry := (2, 3e-3%Q, 1e-12%Q).

(** Four receivers hear a message within 0.3 ms; 3 and 4 share a site. *)
Definition component4 : component :=
  [ (1, (1e-12%Q, [0.1e-3%Q])); (2, (1e-12%Q, [0.2e-3%Q]));
    (3, (1e-12%Q, [0.3e-3%Q])); (4, (1e-12%Q, [0.3e-3%Q])) ].

Definition cluster4 : list entry :=
  [ (1, 0.1e-3%Q, 1e-12%Q); (2, 0.2e-3%Q, 1e-12%Q);
    (3, 0.3e-3%Q, 1e-12%Q); (4, 0.3e-3%Q, 1e-12%Q) ].

Definition cluster3 : list entry :=
  [ (0, 0.1e-3%Q, 1e-12%Q); (1, 0.2e-3%Q, 1e-12%Q); (2, 0.3e-3%Q, 1e-12%Q) ].

Definition decoded : DecodedMessage :=
  mkDecoded 4321 (Some 30000%Q) None (Some "TEST123").

Definition decode (msg : string) : option DecodedMessage :=
  if decide (msg = "8d") then Some decoded else None.

(** A clock normaliser for receivers that are already synchronised. *)
Definition normalize (tm : timestamp_map) : list component :=
  [map (fun '(r, ts) => (r, (1e-12%Q, ts))) tm].

Definition solve_none (cluster : list entry) (alt alt_error : option Q) (seed : ecef)
    : option (ecef * option ecef_cov) := None.

Definition solve_nocov (cluster : list entry) (alt alt_error : option Q) (seed : ecef)
    : option (ecef * option ecef_cov) := Some ((1%Q, 2%Q, 3%Q), None).

(** The Kalman state is the number of updates it has seen. *)
Definition kalman_update (k : nat) (first : Q) (cluster : list entry)
    (alt alt_error : option Q) (pos : ecef) (cov : option ecef_cov) (distinct : nat)
    : nat := S k.

Definition ac0 : Track.Aircraft nat :=
  Track.mkAircraft nat (Some 29000%Q) 90%Q (Some "7000") None None 0%Q 0 0%Q 0.

Definition group2 : MessageGroup :=
  mkGroup "8d" 1000%Q [(0, 0.1e-3%Q); (1, 0.2e-3%Q)].

Definition group4 : MessageGroup :=
  mkGroup "8d" 1000%Q [(1, 0.1e-3%Q); (2, 0.2e-3%Q); (3, 0.3e-3%Q); (4, 0.3e-3%Q)].

(** An aircraft with a result of distinct count 5 accepted at time 95. *)
Definition ac_recent : Track.Aircraft nat :=
  Track.mkAircraft nat (Some 29000%Q) 90%Q (Some "7000") None
    (Some (1%Q, 2%Q, 3%Q)) 2500%Q 5 95%Q 7.

Definition tracker_with (ac : Track.Aircraft nat) (g : MessageGroup)
    : Track.MlatTracker nat :=
  Track.mkTracker nat {[ message g := g ]} {[ "blocked" ]} {[ 4321%Z := ac ]} 1 false.

Definition tracker (g : MessageGroup) : Track.MlatTracker nat := tracker_with ac0 g.

(** [_resolve] with the sample collaborators. *)
Definition resolve (solve : list entry -> option Q -> option Q -> ecef ->
                            option (ecef * option ecef_cov)) :=
  Track.resolve nat user position distance Cair FTOM MLAT_DELAY decode normalize
    solve kalman_update.

Definition accept_loop (solve : list entry -> option Q -> option Q -> ecef ->
                                option (ecef * option ecef_cov)) :=
  Track.accept_loop nat position MLAT_DELAY solve.

End Sample.

(** ** Order of timestamps *)

Module Chrono.

(** [a] is not later than [b]. *)
Definition not_after (a b : entry) : Prop := (e_timestamp a <= e_timestamp b)%Q.

(** The entries are in ascending order of timestamp. *)
Fixpoint chronological (l : list entry) : Prop :=
  match l with
  | [] => True
  | a :: rest => Forall (not_after a) rest /\ chronological rest
  end.

End Chrono.

(** ** Gaps between consecutive entries *)

Module Gap.

(** Consecutive entries of [g] are at most 2 ms apart. *)
Definition close (g : list entry) : Prop :=
  forall k a b, g !! k = Some a -> g !! S k = Some b ->
    (e_timestamp b - e_timestamp a <= 2e-3)%Q.

(** Each group starts more than 2 ms after the end of the group before it. *)
Definition apart (groups : list (list entry)) : Prop :=
  forall k g1 g2 a b,
    groups !! k = Some g1 -> groups !! S k = Some g2 ->
    last g1 = Some a -> head g2 = Some b ->
    (2e-3 < e_timestamp b - e_timestamp a)%Q.

End Gap.

(** ** Kinds of events *)

Module Trace.
Section Kinds.
Variable kalman : Type.

(** The call of an output handler (line 246). *)
Definition is_output (e : Track.event kalman) : bool :=
  match e with
  | Track.EvOutput _ _ _ _ _ _ _ _ _ => true
  | _ => false
  end.

End Kinds.
End Trace.

(** ** The tracker in the event loop *)

Module Loop.
Section Loop.
Variable kalman : Type.
Variable user : receiver -> string.
Variable position : receiver -> ecef.
Variable distance : receiver -> receiver -> Q.
Variable Cair : Q.
Variable FTOM : Q.
Variable MLAT_DELAY : Q.
Variable decode : string -> option DecodedMessage.
Variable normalize : timestamp_map -> list component.
Variable solve : list entry -> option Q -> option Q -> ecef -> option (ecef * option ecef_cov).
Variable kalman_update : kalman -> Q -> list entry -> option Q -> option Q ->
  ecef -> option ecef_cov -> nat -> kalman.

(** A [MessageGroup] object is shared between the table, which finds it
    by its message, and the timer that will resolve it; [copies.append]
    changes it in place.  An object is known by its index among the
    objects created so far. *)
Abbreviation ref := nat (only parsing).

(** The tracker with what it shares with the event loop.  [groups] holds
    the [MessageGroup] objects, [pending] is [self.pending], [timers] are
    the arguments of the [call_later] handles that have not run yet.
    Nothing in this file uses [group.handle], so no handle is cancelled. *)
Record System := mkSystem {
  groups : list MessageGroup;
  pending : gmap string ref;
  timers : list ref;
  blacklist : gset string;
  aircraft : gmap Z (Track.Aircraft kalman);
  output_handlers : nat;
  pseudorange_file : bool
}.

(** Lines 49-61: [MlatTracker.__init__] with the blacklist that
    [read_blacklist] found and the pseudorange file open or not. *)
Definition init (bl : gset string) (ac : gmap Z (Track.Aircraft kalman))
    (handlers : nat) (file : bool) : System :=
  mkSystem [] ∅ [] bl ac handlers file.

(** Line 93: [group.copies.append((receiver, timestamp))]. *)
Definition append_copy (rcv : receiver) (timestamp : Q) (group : MessageGroup)
    : MessageGroup :=
  mkGroup (message group) (first_seen group) (copies group ++ [(rcv, timestamp)]).

(** Lines 83-93: [receiver_mlat(receiver, timestamp, message)], called
    when [time.time()] is [wall]. *)
Definition receiver_mlat (s : System) (wall : Q) (rcv : receiver) (timestamp : Q)
    (msg : string) : System :=
  let '(s, group) :=
    match pending s !! msg with
    | Some group => (s, group)
    | None =>
        let group := length (groups s) in
        (mkSystem (groups s ++ [mkGroup msg wall []]) (<[msg := group]> (pending s))
           (timers s ++ [group]) (blacklist s) (aircraft s) (output_handlers s)
           (pseudorange_file s),
         group)
    end in
  mkSystem (alter (append_copy rcv timestamp) group (groups s)) (pending s)
    (timers s) (blacklist s) (aircraft s) (output_handlers s) (pseudorange_file s).

(** The tracker as [_resolve] sees it: the table with the objects in
    place of their references. *)
Definition tracker (s : System) : Track.MlatTracker kalman :=
  Track.mkTracker kalman (omap (fun group => groups s !! group) (pending s))
    (blacklist s) (aircraft s) (output_handlers s) (pseudorange_file s).

(** The event loop runs the [i]-th outstanding handle at time [now]:
    [self._resolve(group)].  The keys that [_resolve] took out of the
    table are gone, the objects stay as they are.  The loop logs an
    exception of the callback and goes on, so the handle is spent in
    every case.  [None]: there is no such handle. *)
Definition fire (s : System) (now : Q) (i : nat)
    : option (System * Track.outcome kalman) :=
  match timers s !! i with
  | None => None
  | Some group =>
      match groups s !! group with
      | None => None
      | Some g =>
          let o := Track.resolve kalman user position distance Cair FTOM MLAT_DELAY
                     decode normalize solve kalman_update (tracker s) now g in
          let st := Track.o_state kalman o in
          Some (mkSystem (groups s)
                  (filter (fun kv => is_Some (Track.pending kalman st !! kv.1))
                     (pending s))
                  (delete i (timers s)) (Track.blacklist kalman st)
                  (Track.aircraft kalman st) (Track.output_handlers kalman st)
                  (Track.pseudorange_file kalman st),
                o)
      end
  end.

(** What happens to the tracker: a message arrives, a timer runs, or
    code outside this class changes what the tracker only reads (the
    SIGHUP handlers, the coordinator's aircraft and output handlers). *)
Inductive action :=
  | Receive (wall : Q) (rcv : receiver) (timestamp : Q) (msg : string)
  | Timer (now : Q) (i : nat)
  | Outside (bl : gset string) (ac : gmap Z (Track.Aircraft kalman))
      (handlers : nat) (file : bool).

Definition step (s : System) (a : action) : System :=
  match a with
  | Receive wall rcv timestamp msg => receiver_mlat s wall rcv timestamp msg
  | Timer now i =>
      match fire s now i with
      | Some (s', _) => s'
      | None => s
      end
  | Outside bl ac handlers file =>
      mkSystem (groups s) (pending s) (timers s) bl ac handlers file
  end.

Definition run (s : System) (acts : list action) : System := fold_left step acts s.

End Loop.
End Loop.

(** ** The blacklist file *)

Module Blacklist.
Section Read.
(** [str.isspace] for one character; characters are those of
    [string], as for the user names of the receivers. *)
Variable isspace : Ascii.ascii -> bool.

(** The line feed, the only line end that the text layer hands over. *)
Definition newline : Ascii.ascii := Ascii.ascii_of_nat 10.

(** [f.readline()] on the text that is left: up to and including the
    first line feed. *)
Fixpoint readline (text : list Ascii.ascii) : list Ascii.ascii :=
  match text with
  | [] => []
  | c :: rest => if Ascii.eqb c newline then [c] else c :: readline rest
  end.

(** [str.lstrip()] and [str.rstrip()]. *)
Fixpoint lstrip (s : list Ascii.ascii) : list Ascii.ascii :=
  match s with
  | [] => []
  | c :: rest => if isspace c then lstrip rest else s
  end.

Definition rstrip (s : list Ascii.ascii) : list Ascii.ascii := rev (lstrip (rev s)).

(** [str.strip()] *)
Definition strip (s : list Ascii.ascii) : list Ascii.ascii := rstrip (lstrip s).

(** Lines 63-74: [read_blacklist], the new value of [self.blacklist].
    [file] is the text of [mlat-blacklist.txt], [None] when [open]
    raises FileNotFoundError. *)
Definition read_blacklist (file : option (list Ascii.ascii)) : gset string :=
  match file with
  | None => ∅
  | Some text =>
      let user := strip (readline text) in
      match user with
      | [] => ∅
      | _ :: _ => {[ String.string_of_list_ascii user ]}
      end
  end.

End Read.
End Blacklist.

(** ** More sample data *)

Module Sample2.

(** The sample tracker with the pseudorange file open. *)
Definition tracker_logging (g : MessageGroup) : Track.MlatTracker nat :=
  Track.mkTracker nat {[ message g := g ]} {[ "blocked" ]}
    {[ 4321%Z := Sample.ac0 ]} 1 true.

(** A solver that also gives a covariance, of trace 300. *)
Definition solve_cov (cluster : list entry) (alt alt_error : option Q) (seed : ecef)
    : option (ecef * option ecef_cov) :=
  Some ((1%Q, 2%Q, 3%Q),
        Some ((100%Q, 0%Q, 0%Q), (0%Q, 100%Q, 0%Q), (0%Q, 0%Q, 100%Q))).

(** The copies of [Sample.group4] arrive, with a copy of another message
    in between. *)
Definition arrivals : list (Loop.action nat) :=
  [ Loop.Receive nat 1000%Q 1 0.1e-3%Q "8d";
    Loop.Receive nat 1000%Q 2 0.2e-3%Q "8d";
    Loop.Receive nat 1000.5%Q 5 7%Q "5d";
    Loop.Receive nat 1001%Q 3 0.3e-3%Q "8d";
    Loop.Receive nat 1001%Q 4 0.3e-3%Q "8d" ].

(** The tracker in the event loop, with the sample collaborators. *)
Definition run (acts : list (Loop.action nat)) : Loop.System nat :=
  Loop.run nat Sample.user Sample.position Sample.distance Sample.Cair Sample.FTOM
    Sample.MLAT_DELAY Sample.decode Sample.normalize Sample.solve_nocov
    Sample.kalman_update
    (Loop.init nat {[ "blocked" ]} {[ 4321%Z := Sample.ac0 ]} 1 false) acts.

(** White space: tab to carriage return, the separators 28-31, the
    space, and the two blanks of Latin-1. *)
Definition isspace (c : Ascii.ascii) : bool :=
  bool_decide (Ascii.nat_of_ascii c ∈ [9; 10; 11; 12; 13; 28; 29; 30; 31; 32; 133; 160]).

(** A blacklist file of two lines. *)
Definition blacklist_text : list Ascii.ascii :=
  String.list_ascii_of_string " alice " ++ Blacklist.newline
    :: String.list_ascii_of_string "bob".

End Sample2.

(** * Part II: properties *)

(** ** Comparisons *)

Lemma Qgtb_true x y : Qgtb x y = true <-> (y < x)%Q.
Proof.
  unfold Qgtb. rewrite negb_true_iff. split.
  - intros H. apply Qnot_le_lt. intros Hle.
    apply Qle_bool_iff in Hle. congruence.
  - intros H. destruct (Qle_bool x y) eqn:E; [|reflexivity].
    apply Qle_bool_iff in E. exfalso. eapply Qlt_not_le; eauto.
Qed.

Lemma Qgtb_false x y : Qgtb x y = false <-> (x <= y)%Q.
Proof. unfold Qgtb. rewrite negb_false_iff. apply Qle_bool_iff. Qed.

Lemma Qltb_true x y : Qltb x y = true <-> (x < y)%Q.
Proof. apply Qgtb_true. Qed.

Lemma Qltb_false x y : Qltb x y = false <-> (y <= x)%Q.
Proof. apply Qgtb_false. Qed.

(** ** The stable sort *)

Section SortFacts.
Context {A : Type} (ltb : A -> A -> bool).

Lemma insert_by_perm x l : insert_by ltb x l ≡ₚ x :: l.
Proof.
  induction l as [|y l IH]; simpl; [done|].
  destruct (ltb y x); [|done].
  rewrite IH. apply Permutation_swap.
Qed.

Lemma sort_by_perm l : sort_by ltb l ≡ₚ l.
Proof.
  induction l as [|x l IH]; simpl; [done|].
  rewrite insert_by_perm. by rewrite IH.
Qed.

Lemma sort_by_length l : length (sort_by ltb l) = length l.
Proof. apply Permutation_length, sort_by_perm. Qed.

End SortFacts.

(** Sorting on a key of type [nat] gives an ascending list. *)
Section SortNat.
Context {A : Type} (key : A -> nat).
Local Abbreviation ascending := (ascending key).

Lemma ascending_cons x l :
  Forall (fun y => key x <= key y) l -> ascending l -> ascending (x :: l).
Proof.
  intros Hx Hl i j a b Hij Ha Hb.
  destruct j as [|j]; [lia|]. simpl in Hb.
  destruct i as [|i]; simpl in Ha.
  - injection Ha as <-. rewrite Forall_forall in Hx.
    apply Hx. eapply list_elem_of_lookup_2; eauto.
  - apply (Hl i j); auto with lia.
Qed.

Lemma ascending_tail x l : ascending (x :: l) -> ascending l.
Proof. intros H i j a b Hij Ha Hb. apply (H (S i) (S j)); auto with lia. Qed.

Lemma ascending_head x l : ascending (x :: l) -> Forall (fun y => key x <= key y) l.
Proof.
  intros H. apply Forall_forall. intros y Hy.
  apply list_elem_of_lookup_1 in Hy as [j Hj].
  apply (H 0 (S j)); auto with lia.
Qed.

Lemma insert_by_ascending x l :
  ascending l -> ascending (insert_by (fun a b => key a <? key b) x l).
Proof.
  induction l as [|y l IH]; intros Hl; simpl.
  - apply ascending_cons; [constructor|]. intros i j a b _ Ha. by destruct i.
  - destruct (key y <? key x) eqn:E.
    + apply Nat.ltb_lt in E. apply ascending_cons.
      * rewrite insert_by_perm. constructor; [lia|]. by apply ascending_head.
      * apply IH. by eapply ascending_tail.
    + apply Nat.ltb_ge in E. apply ascending_cons; [|done].
      constructor; [done|].
      eapply Forall_impl; [by apply ascending_head|]. simpl. lia.
Qed.

Lemma sort_by_ascending l : ascending (sort_by (fun a b => key a <? key b) l).
Proof.
  induction l as [|x l IH]; simpl.
  - intros i j a b _ Ha. by destruct i.
  - by apply insert_by_ascending.
Qed.

End SortNat.

(** ** The clustering algorithm *)

Section ListFacts.
Context {A : Type}.

Lemma lookup_app_plus (l1 l2 : list A) i : (l1 ++ l2) !! (length l1 + i) = l2 !! i.
Proof. induction l1; simpl; auto. Qed.

Lemma delete_app_plus (l1 l2 : list A) i :
  delete (length l1 + i) (l1 ++ l2) = l1 ++ delete i l2.
Proof. induction l1; simpl; [done|]. by f_equal. Qed.

Lemma length_delete_le (l : list A) i : length (delete i l) <= length l.
Proof.
  revert i. induction l as [|x l IH]; intros [|i]; simpl; auto with lia.
  specialize (IH i). lia.
Qed.

Lemma length_removelast (l : list A) : length (removelast l) = pred (length l).
Proof.
  induction l as [|x [|y l] IH]; simpl in *; auto.
Qed.

End ListFacts.

Section ClusterFacts.
Variable distance : receiver -> receiver -> Q.
Variable Cair : Q.

Local Abbreviation check_candidate := (Cluster.check_candidate distance Cair).
Local Abbreviation scan := (Cluster.scan distance Cair).
Local Abbreviation form_cluster := (Cluster.form_cluster distance Cair).
Local Abbreviation cluster_group := (Cluster.cluster_group distance Cair).
Local Abbreviation cluster_timestamps := (Cluster.cluster_timestamps distance Cair).
Local Abbreviation feasible := (Spec.feasible distance Cair).
Local Abbreviation pairwise_feasible := (Spec.pairwise_feasible distance Cair).
Local Abbreviation far_from_all := (Spec.far_from_all distance).
Local Abbreviation count_distinct := (Spec.count_distinct distance).

(** A candidate that passes the strict test is compatible with every
    member of the cluster, and is distinct exactly when no member is
    within 1 km. *)
Lemma check_candidate_true rcv ts var cluster d0 isd :
  check_candidate rcv ts cluster d0 = (true, isd) ->
  Forall (feasible (rcv, ts, var)) cluster /\
  isd = d0 && far_from_all (rcv, ts, var) cluster.
Proof.
  revert d0. induction cluster as [|[[r t] v] cluster IH]; intros d0.
  - intros [= <-]. split; [constructor|]. by rewrite andb_true_r.
  - cbn [Cluster.check_candidate].
    destruct (decide (r = rcv)) as [|Hne]; [discriminate|].
    destruct (Qgtb _ _) eqn:Hgt; [discriminate|].
    intros H. apply IH in H as [Hall ->]. split.
    + constructor; [|done]. split; [intros Heq; apply Hne; by symmetry|].
      change (Qabs (ts - t) <= Cluster.max_delay Cair (distance rcv r))%Q.
      rewrite Qabs_Qminus. by apply Qgtb_false in Hgt.
    + unfold Spec.far_from_all. cbn [forallb].
      change (e_receiver (rcv, ts, var)) with rcv.
      change (e_receiver (r, t, v)) with r.
      destruct (Qltb (distance rcv r) 1e3), d0; reflexivity.
Qed.

(** Whatever holds of the seed cluster and is kept by the inclusion of
    a candidate that passed the strict test holds of the scanned
    cluster. *)
Lemma scan_invariant (P : list entry -> nat -> Prop) :
  (forall cluster d e isd,
      P cluster d ->
      check_candidate (e_receiver e) (e_timestamp e) cluster true = (true, isd) ->
      P (cluster ++ [e]) (if isd then S d else d)) ->
  forall n last g c d g' c' d',
    scan n last g c d = (g', c', d') -> P c d -> P c' d'.
Proof.
  intros Hstep. induction n as [|i IH]; intros last g c d g' c' d'; simpl.
  - by intros [= <- <- <-].
  - destruct (g !! i) as [[[r t] v]|]; [|by intros [= <- <- <-]].
    destruct (Qgtb (last - t) 2e-3); [by intros [= <- <- <-]|].
    destruct (check_candidate r t c true) as [[|] isd] eqn:Hc.
    + intros Hs HP. eapply IH; [exact Hs|].
      by apply (Hstep c d (r, t, v) isd).
    + apply IH.
Qed.

Lemma scan_length n last g c d g' c' d' :
  scan n last g c d = (g', c', d') -> length g' <= length g.
Proof.
  revert g c d. induction n as [|i IH]; intros g c d; simpl.
  - by intros [= <- <- <-].
  - destruct (g !! i) as [[[r t] v]|]; [|by intros [= <- <- <-]].
    destruct (Qgtb (last - t) 2e-3); [by intros [= <- <- <-]|].
    destruct (check_candidate r t c true) as [[|] isd].
    + intros Hs. apply IH in Hs. pose proof (length_delete_le g i). lia.
    + apply IH.
Qed.

(** Every kept cluster is the reversed outcome of one seed's scan. *)
Lemma cluster_group_In fuel g min d m :
  In (d, m) (cluster_group fuel g min) ->
  exists g0 tail g' c, form_cluster g0 tail = (g', c, d) /\ m = rev c /\ min <= d.
Proof.
  revert g. induction fuel as [|fuel IH]; intros g;
    cbn [Cluster.cluster_group]; [intros []|].
  destruct (3 <=? length g); [|intros []].
  destruct (last g) as [tail|]; [|intros []].
  destruct (form_cluster (removelast g) tail) as [[g' c] d'] eqn:Hf.
  rewrite in_app_iff. intros [Hin|Hin].
  - destruct (min <=? d') eqn:Hmin; [|destruct Hin].
    destruct Hin as [[= <- <-]|[]]. apply Nat.leb_le in Hmin.
    by exists (removelast g), tail, g', c.
  - by apply IH in Hin.
Qed.

Lemma cluster_timestamps_In c min cl d m :
  cluster_timestamps c min = Ok cl -> In (d, m) cl ->
  exists g0 tail g' c', form_cluster g0 tail = (g', c', d) /\ m = rev c' /\ min <= d.
Proof.
  unfold Cluster.cluster_timestamps.
  destruct (Cluster.sort_timestamps _) as [|first rest]; [done|].
  intros [= <-] Hin. apply in_flat_map in Hin as (g & _ & Hin).
  by apply cluster_group_In in Hin.
Qed.

(** The loop of [cluster_group] needs no more than [len(group)] rounds:
    any larger amount of fuel gives the same clusters. *)
Lemma cluster_group_fuel_irrelevant min fuel1 : forall fuel2 g,
  length g <= fuel1 -> length g <= fuel2 ->
  cluster_group fuel1 g min = cluster_group fuel2 g min.
Proof.
  induction fuel1 as [|fuel1 IH]; intros fuel2 g H1 H2.
  - destruct fuel2 as [|fuel2]; cbn [Cluster.cluster_group]; [done|].
    by replace (length g) with 0 by lia.
  - destruct fuel2 as [|fuel2]; cbn [Cluster.cluster_group].
    { by replace (length g) with 0 by lia. }
    destruct (3 <=? length g); [|done].
    destruct (last g) as [tail|]; [|done].
    destruct (form_cluster (removelast g) tail) as [[g' c] d'] eqn:Hf.
    f_equal. apply scan_length in Hf. rewrite length_removelast in Hf.
    apply IH; lia.
Qed.

Lemma cluster_group_fuel fuel g min :
  length g <= fuel -> cluster_group fuel g min = cluster_group (length g) g min.
Proof. intros H. by apply cluster_group_fuel_irrelevant. Qed.

Lemma pairwise_feasible_lookup m :
  pairwise_feasible m ->
  forall i j a b, i < j -> m !! i = Some a -> m !! j = Some b -> feasible a b.
Proof.
  induction m as [|x m IH]; intros Hm i j a b Hij Ha Hb; [by destruct i|].
  destruct Hm as [Hx Hm]. destruct j as [|j]; [lia|]. simpl in Hb.
  destruct i as [|i]; simpl in Ha.
  - injection Ha as <-. rewrite Forall_forall in Hx.
    apply Hx. eapply list_elem_of_lookup_2; eauto.
  - apply (IH Hm i j); auto with lia.
Qed.

Lemma pairwise_feasible_NoDup m :
  pairwise_feasible m -> NoDup (map e_receiver m).
Proof.
  induction m as [|x m IH]; intros Hm; simpl; [constructor|].
  destruct Hm as [Hx Hm]. apply NoDup_cons. split; [|by apply IH].
  intros Hin. apply list_elem_of_In, in_map_iff in Hin as (y & Heq & Hy).
  rewrite Forall_forall in Hx. apply list_elem_of_In in Hy.
  destruct (Hx y Hy) as [Hne _]. by apply Hne.
Qed.

(** The members of a scanned cluster, the last included first, are
    pairwise compatible. *)
Lemma form_cluster_pairwise g tail g' c d :
  form_cluster g tail = (g', c, d) -> pairwise_feasible (rev c).
Proof.
  intros Hf.
  eapply (scan_invariant (fun c _ => pairwise_feasible (rev c))); [|exact Hf|].
  - intros cluster d0 [[r t] v] isd HP Hc.
    rewrite rev_unit. split; [|done].
    apply Forall_rev. by apply (check_candidate_true r t v) in Hc as [? _].
  - simpl. split; [constructor|done].
Qed.

Lemma far_from_all_rev a l : far_from_all a (rev l) = far_from_all a l.
Proof.
  unfold Spec.far_from_all. apply eq_true_iff_eq.
  rewrite !forallb_forall. split; intros H x Hx; apply H;
    [by rewrite <- in_rev | by rewrite in_rev].
Qed.

(** The count kept by the scan is the distinct-receiver count of the
    members, and never exceeds their number. *)
Lemma form_cluster_count g tail g' c d :
  form_cluster g tail = (g', c, d) ->
  d = count_distinct (rev c) /\ d <= length c.
Proof.
  intros Hf.
  eapply (scan_invariant
            (fun c d => d = count_distinct (rev c) /\ d <= length c));
    [|exact Hf|].
  - intros cluster d0 [[r t] v] isd [-> Hle] Hc.
    apply (check_candidate_true r t v) in Hc as [_ ->].
    rewrite rev_unit, length_app. cbn [Spec.count_distinct andb].
    rewrite far_from_all_rev.
    destruct (far_from_all (r, t, v) cluster); simpl; lia.
  - simpl. auto.
Qed.

(** C1.  Every cluster kept by [_cluster_timestamps] has at most one
    member per receiver, and any two of its members satisfy the
    propagation-delay bound
    [|t1 - t2| <= (distance * 1.05 + 1000) / Cair]; the distance is the
    one the code reads, from the table of the member that comes first
    in the cluster (third part: with a symmetric distance table the
    order of the two members does not matter). *)
Theorem cluster_members_feasible c min cl d members :
  cluster_timestamps c min = Ok cl -> In (d, members) cl ->
  NoDup (map e_receiver members) /\
  (forall i j a b, i < j -> members !! i = Some a -> members !! j = Some b ->
     e_receiver a <> e_receiver b /\
     (Qabs (e_timestamp a - e_timestamp b)
      <= (distance (e_receiver a) (e_receiver b) * 1.05 + 1e3) / Cair)%Q) /\
  ((forall x y, (distance x y == distance y x)%Q) ->
   forall i j a b, i <> j -> members !! i = Some a -> members !! j = Some b ->
     e_receiver a <> e_receiver b /\
     (Qabs (e_timestamp a - e_timestamp b)
      <= (distance (e_receiver a) (e_receiver b) * 1.05 + 1e3) / Cair)%Q).
Proof.
  intros Hc Hin.
  destruct (cluster_timestamps_In _ _ _ _ _ Hc Hin)
    as (g0 & tail & g' & c' & Hf & -> & _).
  apply form_cluster_pairwise in Hf.
  split; [by apply pairwise_feasible_NoDup|].
  split; [by apply pairwise_feasible_lookup|].
  intros Hsym i j a b Hij Ha Hb.
  destruct (Nat.lt_ge_cases i j) as [Hlt|Hge].
  - by apply (pairwise_feasible_lookup _ Hf i j).
  - assert (j < i) as Hlt by lia.
    destruct (pairwise_feasible_lookup _ Hf j i b a Hlt Hb Ha) as [Hne Hle].
    split; [by intros Heq; apply Hne|].
    rewrite Qabs_Qminus. by rewrite (Hsym (e_receiver a) (e_receiver b)).
Qed.

(** C8.  For every cluster kept by [_cluster_timestamps] the distinct
    count is at most the number of members, and it is the number of
    members that were at least 1 km away from every receiver included
    before them (the members are listed in reverse order of inclusion):
    a member within 1 km of a receiver included before it adds nothing. *)
Theorem cluster_distinct_count c min cl d members :
  cluster_timestamps c min = Ok cl -> In (d, members) cl ->
  d <= length members /\
  d = count_distinct members /\
  (forall pre a post b,
     members = pre ++ a :: post -> In b post ->
     (distance (e_receiver a) (e_receiver b) < 1e3)%Q ->
     count_distinct (a :: post) = count_distinct post).
Proof.
  intros Hc Hin.
  destruct (cluster_timestamps_In _ _ _ _ _ Hc Hin)
    as (g0 & tail & g' & c' & Hf & -> & _).
  apply form_cluster_count in Hf as [Hd Hle].
  split; [by rewrite length_rev|]. split; [done|].
  intros pre a post b _ Hb Hlt. cbn [Spec.count_distinct].
  replace (far_from_all a post) with false; [done|].
  symmetry. apply not_true_is_false. intros Hfar.
  unfold Spec.far_from_all in Hfar. rewrite forallb_forall in Hfar.
  specialize (Hfar b Hb). apply negb_true_iff, Qltb_false in Hfar.
  by apply Qle_not_lt in Hfar.
Qed.

(** The scan never looks below an entry that is more than 2 ms before
    the cut-off reference, whatever has been accepted above it. *)
Lemma scan_stops pre e last : forall k post c d,
  Qgtb (last - e_timestamp e) 2e-3 = true ->
  k <= length post ->
  scan (length (pre ++ [e]) + k) last ((pre ++ [e]) ++ post) c d =
  let '(post', c', d') := scan k last post c d in ((pre ++ [e]) ++ post', c', d').
Proof.
  induction k as [|k IH]; intros post c d Hout Hk.
  - rewrite Nat.add_0_r, length_app, Nat.add_comm. cbn [length plus Cluster.scan].
    match goal with
    | |- context [@lookup ?K ?V ?M ?I ?i ?l] =>
        assert (@lookup K V M I i l = Some e) as ->
          by (rewrite <- app_assoc; by apply list_lookup_middle)
    end.
    destruct e as [[r t] v]. change (e_timestamp (r, t, v)) with t in Hout.
    by rewrite Hout.
  - rewrite Nat.add_succ_r. cbn [Cluster.scan]. rewrite lookup_app_plus.
    unfold entry in *.
    destruct (post !! k) as [[[r t] v]|] eqn:Hl; [|done].
    destruct (Qgtb (last - t) 2e-3); [done|].
    destruct (check_candidate r t c true) as [[|] isd].
    + rewrite delete_app_plus. apply IH; [done|].
      rewrite length_delete by eauto. lia.
    + apply IH; [done|lia].
Qed.

(** The scan does not stop while the candidates are within 2 ms of the
    cut-off reference: it works through them and goes on below. *)
Lemma scan_in_range pre last : forall k post c d,
  Forall (fun x => Qgtb (last - e_timestamp x) 2e-3 = false) post ->
  k <= length post ->
  scan (length pre + k) last (pre ++ post) c d =
  let '(post', c', d') := scan k last post c d in
  scan (length pre) last (pre ++ post') c' d'.
Proof.
  induction k as [|k IH]; intros post c d Hin Hk.
  - by rewrite Nat.add_0_r.
  - rewrite Nat.add_succ_r. cbn [Cluster.scan]. rewrite lookup_app_plus.
    unfold entry in *.
    destruct (post !! k) as [[[r t] v]|] eqn:Hl.
    2:{ apply lookup_ge_None_1 in Hl. lia. }
    rewrite (Forall_lookup_1 _ _ _ _ Hin Hl : Qgtb (last - t) 2e-3 = false).
    destruct (check_candidate r t c true) as [[|] isd].
    + rewrite delete_app_plus. apply IH; [by apply Forall_delete|].
      rewrite length_delete by eauto. lia.
    + apply IH; [done|lia].
Qed.

(** C2 (amended).  The backward scan of one seed stops at the first
    candidate that is more than 2 ms earlier than the seed itself: the
    entries from that candidate down stay in the group untouched, and
    the cluster is the one formed from the entries above it (first
    part); it does not stop at candidates within 2 ms of the seed, which
    are worked through before the scan goes on below them (second
    part).  The cut-off reference is the seed's timestamp and does not
    move when candidates are accepted. *)
Theorem scan_stops_at_seed_cutoff pre e post tail :
  ((2e-3 < e_timestamp tail - e_timestamp e)%Q ->
   form_cluster (pre ++ e :: post) tail =
   let '(post', cluster, distinct) := form_cluster post tail in
   (pre ++ e :: post', cluster, distinct)) /\
  (Forall (fun x => (e_timestamp tail - e_timestamp x <= 2e-3)%Q) (e :: post) ->
   form_cluster (pre ++ e :: post) tail =
   let '(post', cluster, distinct) := form_cluster (e :: post) tail in
   scan (length pre) (e_timestamp tail) (pre ++ post') cluster distinct).
Proof.
  split.
  - intros Hout. apply Qgtb_true in Hout.
    unfold Cluster.form_cluster.
    pose proof (scan_stops pre e (e_timestamp tail) (length post) post [tail] 1
                  Hout (Nat.le_refl _)) as H.
    rewrite <- !app_assoc in H. cbn [app] in H.
    rewrite length_app in *. cbn [length] in *.
    replace (length pre + 1 + length post) with (length pre + S (length post)) in H by lia.
    rewrite H. destruct (scan _ _ post _ _) as [[post' c'] d'].
    by rewrite <- app_assoc.
  - intros Hin. unfold Cluster.form_cluster. rewrite length_app.
    apply scan_in_range; [|done].
    eapply Forall_impl; [exact Hin|]. intros x Hx. by apply Qgtb_false.
Qed.

End ClusterFacts.

(** ** The resolution pipeline *)

Section TrackFacts.
Variable kalman : Type.
Variable user : receiver -> string.
Variable position : receiver -> ecef.
Variable distance : receiver -> receiver -> Q.
Variable Cair : Q.
Variable FTOM : Q.
Variable MLAT_DELAY : Q.
Variable decode : string -> option DecodedMessage.
Variable normalize : timestamp_map -> list component.
Variable solve : list entry -> option Q -> option Q -> ecef -> option (ecef * option ecef_cov).
Variable kalman_update : kalman -> Q -> list entry -> option Q -> option Q ->
  ecef -> option ecef_cov -> nat -> kalman.

Local Abbreviation Aircraft := (Track.Aircraft kalman).
Local Abbreviation MlatTracker := (Track.MlatTracker kalman).
Local Abbreviation resolve :=
  (Track.resolve kalman user position distance Cair FTOM MLAT_DELAY decode
     normalize solve kalman_update).
Local Abbreviation commit := (Track.commit kalman position kalman_update).
Local Abbreviation accept_loop := (Track.accept_loop kalman position MLAT_DELAY solve).
Local Abbreviation seed_position := (Track.seed_position position).
Local Abbreviation stops := (Track.stops MLAT_DELAY).
Local Abbreviation altitude_model := (Track.altitude_model kalman FTOM).
Local Abbreviation prior_context := (Track.prior_context kalman).
Local Abbreviation refresh := (Track.refresh kalman).
Local Abbreviation build_timestamp_map := (Track.build_timestamp_map user).
Local Abbreviation set_pending := (Track.set_pending kalman).
Local Abbreviation set_aircraft := (Track.set_aircraft kalman).
Local Abbreviation set_last_result := (Track.set_last_result kalman).
Local Abbreviation mkOutcome := (Track.mkOutcome kalman).
Local Abbreviation EvDecode := (Track.EvDecode kalman).
Local Abbreviation EvNormalize := (Track.EvNormalize kalman).
Local Abbreviation EvSolve := (Track.EvSolve kalman).

(** The tracker once the group has left the table and the aircraft has
    been refreshed from the decoded message. *)
Local Abbreviation refreshed st now group decoded ac :=
  (set_aircraft (set_pending st (delete (message group) (Track.pending kalman st)))
     (<[address decoded := refresh ac decoded now]> (Track.aircraft kalman st))).

(** C7.  A group with fewer than 3 copies resolves to nothing: no
    event at all (no decoder call, no output), no exception, and the
    only change of state is that the group has left the table. *)
Theorem resolve_few_copies (st : MlatTracker) now group g0 :
  Track.pending kalman st !! message group = Some g0 ->
  length (copies group) < 3 ->
  resolve st now group =
  mkOutcome (set_pending st (delete (message group) (Track.pending kalman st))) [] None.
Proof.
  intros Hp Hlen. unfold Track.resolve. rewrite Hp.
  apply Nat.ltb_lt in Hlen. by rewrite Hlen.
Qed.

(** C6.  The prior context is the sentinel [(None, 1e9, 0, 120)] when
    the aircraft has no accepted result or the last one is more than
    120 s old, and the stored position, variance and distinct count with
    the true elapsed time otherwise. *)
Theorem prior_context_cases (ac : Aircraft) now :
  (Track.ac_last_result_position kalman ac = None \/
   (120 < now - Track.ac_last_result_time kalman ac)%Q ->
   prior_context ac now = (None, 1e9%Q, 0, 120%Q)) /\
  (forall p,
     Track.ac_last_result_position kalman ac = Some p ->
     (now - Track.ac_last_result_time kalman ac <= 120)%Q ->
     prior_context ac now =
     (Some p, Track.ac_last_result_var kalman ac,
      Track.ac_last_result_distinct kalman ac,
      (now - Track.ac_last_result_time kalman ac)%Q)).
Proof.
  unfold Track.prior_context. split.
  - intros [->|Hold]; [done|].
    apply Qgtb_true in Hold. rewrite Hold. by destruct (Track.ac_last_result_position _ _).
  - intros p -> Hle. apply Qgtb_false in Hle. by rewrite Hle.
Qed.

(** C5 (amended).  Without an altitude the quorum is 4 and the solver
    gets no altitude; with an altitude the error is
    [(250 + 70 * seconds) * FTOM] and the quorum is 3 exactly when that
    converted error is under 1000 (in the length unit of positions),
    4 otherwise. *)
Theorem altitude_model_cases (ac : Aircraft) now :
  (Track.ac_altitude kalman ac = None ->
   altitude_model ac now = (None, None, 4)) /\
  (forall a,
     Track.ac_altitude kalman ac = Some a ->
     let altitude_error :=
       ((250 + (now - Track.ac_last_altitude_time kalman ac) * 70) * FTOM)%Q in
     ((altitude_error < 1000)%Q ->
      altitude_model ac now = (Some (a * FTOM)%Q, Some altitude_error, 3)) /\
     ((1000 <= altitude_error)%Q ->
      altitude_model ac now = (Some (a * FTOM)%Q, Some altitude_error, 4))).
Proof.
  unfold Track.altitude_model. split.
  - by intros ->.
  - intros a Ha. rewrite Ha. cbv zeta. split; intros H.
    + apply Qltb_true in H. by rewrite H.
    + apply Qltb_false in H. by rewrite H.
Qed.

(** The rate limit of lines 160-164, as a proposition. *)
Lemma ratelimited_true elapsed n last_distinct :
  Track.ratelimited elapsed n last_distinct = true <->
  ((elapsed < 15)%Q /\ n < last_distinct) \/ ((elapsed < 2)%Q /\ n = last_distinct).
Proof.
  unfold Track.ratelimited.
  rewrite orb_true_iff, !andb_true_iff, !Qltb_true, Nat.ltb_lt, Nat.eqb_eq.
  reflexivity.
Qed.

Lemma stops_true elapsed d last_distinct :
  stops elapsed d last_distinct = true <->
  ((elapsed < 10)%Q /\ d < last_distinct) \/
  ((elapsed < MLAT_DELAY - 0.5)%Q /\ d = last_distinct).
Proof.
  unfold Track.stops.
  rewrite orb_true_iff, !andb_true_iff, !Qltb_true, Nat.ltb_lt, Nat.eqb_eq.
  reflexivity.
Qed.

Lemma rev_reverse {A} (l : list A) : rev l = reverse l.
Proof.
  induction l as [|x l IH]; [done|]. simpl. by rewrite reverse_cons, IH.
Qed.

(** The loop takes the clusters by descending distinct count. *)
Lemma pop_order_descending clusters i j (a b : candidate) :
  i < j ->
  Track.pop_order clusters !! i = Some a ->
  Track.pop_order clusters !! j = Some b ->
  b.1 <= a.1.
Proof.
  unfold Track.pop_order. rewrite rev_reverse.
  intros Hij Ha Hb.
  apply reverse_lookup_Some in Ha as [Ha Hi].
  apply reverse_lookup_Some in Hb as [Hb Hj].
  match type of Hi with
  | _ < ?n => assert (n - S j < n - S i) as Hlt by lia
  end.
  exact (sort_by_ascending fst clusters _ _ _ _ Hlt Hb Ha).
Qed.

Lemma pop_order_perm clusters : Track.pop_order clusters ≡ₚ clusters.
Proof.
  unfold Track.pop_order. rewrite <- Permutation_rev. apply sort_by_perm.
Qed.

(** C3.  The acceptance loop takes the candidate clusters by
    descending distinct-receiver count.  When the cluster it takes has a
    lower count than the prior result within 10 s, or the same count
    within [MLAT_DELAY - 0.5] s, the loop ends at once: nothing is
    accepted and the solver is called on none of the remaining clusters.
    When the solver gives no estimate, the loop goes on with the
    remaining clusters. *)
Theorem acceptance_order_and_stop :
  (forall clusters,
     Track.pop_order clusters ≡ₚ clusters /\
     forall i j (a b : candidate), i < j ->
       Track.pop_order clusters !! i = Some a ->
       Track.pop_order clusters !! j = Some b -> b.1 <= a.1) /\
  (forall lrp lrv lrd elapsed alt alt_error d c rest,
     ((elapsed < 10)%Q /\ d < lrd) \/
     ((elapsed < MLAT_DELAY - 0.5)%Q /\ d = lrd) ->
     accept_loop lrp lrv lrd elapsed alt alt_error ((d, c) :: rest) = (Ok None, [])) /\
  (forall lrp lrv lrd elapsed alt alt_error d c rest seed,
     ~ (((elapsed < 10)%Q /\ d < lrd) \/
        ((elapsed < MLAT_DELAY - 0.5)%Q /\ d = lrd)) ->
     seed_position lrp (Track.sort_cluster c) = Ok seed ->
     solve (Track.sort_cluster c) alt alt_error seed = None ->
     accept_loop lrp lrv lrd elapsed alt alt_error ((d, c) :: rest) =
     ((accept_loop lrp lrv lrd elapsed alt alt_error rest).1,
      EvSolve (Track.sort_cluster c) alt alt_error seed
        :: (accept_loop lrp lrv lrd elapsed alt alt_error rest).2)).
Proof.
  split; [|split].
  - intros clusters. split; [apply pop_order_perm|].
    intros i j a b. apply pop_order_descending.
  - intros lrp lrv lrd elapsed alt alt_error d c rest Hstop.
    apply stops_true in Hstop. cbn [Track.accept_loop]. by rewrite Hstop.
  - intros lrp lrv lrd elapsed alt alt_error d c rest seed Hgo Hseed Hsolve.
    cbn [Track.accept_loop].
    destruct (stops elapsed d lrd) eqn:Hs; [by apply stops_true in Hs|].
    rewrite Hseed, Hsolve.
    by destruct (accept_loop lrp lrv lrd elapsed alt alt_error rest).
Qed.

(** C10.  A position without covariance gets the variance estimate
    100e6 exactly; the test [var_est > 100e6] does not reject it; the
    loop accepts it unless the prior result is less than 2 s old and
    100e6 exceeds 1.1 times its variance (then the loop goes on with the
    remaining clusters); and committing it records the position and the
    variance 100e6 for the aircraft. *)
Theorem nocov_result_accepted lrp lrv lrd elapsed alt alt_error d c rest seed pos :
  stops elapsed d lrd = false ->
  seed_position lrp (Track.sort_cluster c) = Ok seed ->
  solve (Track.sort_cluster c) alt alt_error seed = Some (pos, None) ->
  Track.var_estimate None = 100e6%Q /\
  Qgtb (Track.var_estimate None) 100e6 = false /\
  (~ ((elapsed < 2)%Q /\ (lrv * 1.1 < 100e6)%Q) ->
   accept_loop lrp lrv lrd elapsed alt alt_error ((d, c) :: rest) =
   (Ok (Some (pos, None, 100e6%Q, d, Track.sort_cluster c)),
    [EvSolve (Track.sort_cluster c) alt alt_error seed])) /\
  ((elapsed < 2)%Q /\ (lrv * 1.1 < 100e6)%Q ->
   accept_loop lrp lrv lrd elapsed alt alt_error ((d, c) :: rest) =
   ((accept_loop lrp lrv lrd elapsed alt alt_error rest).1,
    EvSolve (Track.sort_cluster c) alt alt_error seed
      :: (accept_loop lrp lrv lrd elapsed alt alt_error rest).2)) /\
  (forall (st : MlatTracker) now group decoded (ac : Aircraft) min_receivers,
     let o := commit st now group decoded ac alt alt_error min_receivers
                (pos, None, 100e6%Q, d, Track.sort_cluster c) in
     In (Track.EvKalman kalman (first_seen group) (Track.sort_cluster c)
           alt alt_error pos None d) (Track.o_events kalman o) /\
     exists ac',
       Track.aircraft kalman (Track.o_state kalman o) !! address decoded = Some ac' /\
       Track.ac_last_result_position kalman ac' = Some pos /\
       Track.ac_last_result_var kalman ac' = 100e6%Q /\
       Track.ac_last_result_distinct kalman ac' = d /\
       Track.ac_last_result_time kalman ac' = now /\
       Track.ac_kalman kalman ac' =
         kalman_update (Track.ac_kalman kalman ac) (first_seen group)
           (Track.sort_cluster c) alt alt_error pos None d /\
       Track.ac_altitude kalman ac' = Track.ac_altitude kalman ac /\
       Track.ac_last_altitude_time kalman ac' = Track.ac_last_altitude_time kalman ac /\
       Track.ac_squawk kalman ac' = Track.ac_squawk kalman ac /\
       Track.ac_callsign kalman ac' = Track.ac_callsign kalman ac).
Proof.
  intros Hs Hseed Hsolve.
  assert (Qgtb 100e6 100e6 = false) as Hself by reflexivity.
  split; [done|]. split; [done|].
  split; [|split].
  - intros Hok. cbn [Track.accept_loop]. rewrite Hs, Hseed, Hsolve.
    cbn [Track.var_estimate]. rewrite Hself.
    destruct (Qltb elapsed 2 && Qgtb 100e6 (lrv * 1.1)) eqn:E; [|done].
    exfalso. apply Hok. apply andb_true_iff in E as [E1 E2].
    by rewrite Qltb_true in E1; rewrite Qgtb_true in E2.
  - intros [H1 H2]. cbn [Track.accept_loop]. rewrite Hs, Hseed, Hsolve.
    cbn [Track.var_estimate]. rewrite Hself.
    apply Qltb_true in H1. apply Qgtb_true in H2. rewrite H1, H2.
    by destruct (accept_loop lrp lrv lrd elapsed alt alt_error rest).
  - intros st now group decoded ac min_receivers. cbv zeta.
    assert (forall (before : MlatTracker) (table : gmap Z Aircraft),
              exists ac',
                <[address decoded :=
                    set_last_result ac pos 100e6 d now
                      (kalman_update (Track.ac_kalman kalman ac) (first_seen group)
                         (Track.sort_cluster c) alt alt_error pos None d)]> table
                  !! address decoded = Some ac' /\
                Track.ac_last_result_position kalman ac' = Some pos /\
                Track.ac_last_result_var kalman ac' = 100e6%Q /\
                Track.ac_last_result_distinct kalman ac' = d /\
                Track.ac_last_result_time kalman ac' = now /\
                Track.ac_kalman kalman ac' =
                  kalman_update (Track.ac_kalman kalman ac) (first_seen group)
                    (Track.sort_cluster c) alt alt_error pos None d /\
                Track.ac_altitude kalman ac' = Track.ac_altitude kalman ac /\
                Track.ac_last_altitude_time kalman ac'
                = Track.ac_last_altitude_time kalman ac /\
                Track.ac_squawk kalman ac' = Track.ac_squawk kalman ac /\
                Track.ac_callsign kalman ac' = Track.ac_callsign kalman ac) as Hstored.
    { intros _ table. eexists. split; [apply lookup_insert_eq|].
      unfold Track.set_last_result. cbn. by repeat split. }
    unfold Track.commit.
    destruct (Track.pseudorange_file kalman _);
      [|split; [by left|apply (Hstored st)]].
    destruct (Track.sort_cluster c); (split; [by left|apply (Hstored st)]).
Qed.

(** Clustering and the acceptance loop never commit anything. *)
Lemma gather_clusters_events components min :
  existsb (Track.is_kalman kalman)
    (Track.gather_clusters kalman distance Cair components min).2 = false.
Proof.
  induction components as [|c rest IH]; [done|]. cbn [Track.gather_clusters].
  destruct (min <=? length c); [|done].
  destruct (Cluster.cluster_timestamps distance Cair c min); [|done].
  destruct (Track.gather_clusters kalman distance Cair rest min) as [r ev].
  by destruct r.
Qed.

Lemma accept_loop_events lrp lrv lrd elapsed alt alt_error stack :
  existsb (Track.is_kalman kalman)
    (accept_loop lrp lrv lrd elapsed alt alt_error stack).2 = false.
Proof.
  induction stack as [|[d c] rest IH]; [done|]. cbn [Track.accept_loop].
  destruct (stops elapsed d lrd); [done|].
  destruct (seed_position lrp (Track.sort_cluster c)) as [seed|]; [|done].
  destruct (accept_loop lrp lrv lrd elapsed alt alt_error rest) as [r ev].
  destruct (solve _ _ _ _) as [[pos cov]|]; [|done].
  destruct (Qgtb _ _); [done|]. by destruct (_ && _).
Qed.

Lemma commit_state (st : MlatTracker) now group decoded (ac : Aircraft)
    alt alt_error min_receivers pos cov var_est d cl :
  Track.o_state kalman
    (commit st now group decoded ac alt alt_error min_receivers
       (pos, cov, var_est, d, cl)) =
  set_aircraft st
    (<[address decoded :=
         set_last_result ac pos var_est d now
           (kalman_update (Track.ac_kalman kalman ac) (first_seen group) cl
              alt alt_error pos cov d)]> (Track.aircraft kalman st)).
Proof.
  unfold Track.commit.
  destruct (Track.pseudorange_file kalman _); [|done].
  destruct cl; [done|]. by destruct cov.
Qed.

Lemma commit_events (st : MlatTracker) now group decoded (ac : Aircraft)
    alt alt_error min_receivers a :
  existsb (Track.is_kalman kalman)
    (Track.o_events kalman
       (commit st now group decoded ac alt alt_error min_receivers a)) = true.
Proof.
  destruct a as [[[[pos cov] var_est] d] cl]. unfold Track.commit.
  destruct (Track.pseudorange_file kalman _); [|done].
  destruct cl; [done|]. by destruct cov.
Qed.

(** Unfold [resolve] up to the point where the aircraft is refreshed. *)
Ltac resolve_to_refresh Hp Hlen Hd Ha :=
  unfold Track.resolve; rewrite Hp;
  apply Nat.ltb_ge in Hlen; rewrite Hlen; rewrite Hd;
  cbn [Track.aircraft Track.blacklist Track.pending Track.set_pending
       Track.set_aircraft];
  rewrite Ha; cbv zeta;
  cbn [Track.aircraft Track.blacklist Track.pending Track.set_pending
       Track.set_aircraft].

(** C4.  Once the blacklist filter and the minimum-receiver check have
    passed, the resolution ends at the rate limit, with nothing done
    beyond the decoding and the refresh (no normalisation, clustering,
    solver call or output), exactly when the prior result is less than
    15 s old and the map has fewer receivers than its distinct count,
    or less than 2 s old and the map has as many.  Otherwise the
    resolution goes on to normalise the timestamps.  A map with more
    receivers than the prior distinct count is never limited. *)
Theorem resolve_ratelimit (st : MlatTracker) now group g0 decoded (ac : Aircraft) :
  Track.pending kalman st !! message group = Some g0 ->
  3 <= length (copies group) ->
  decode (message group) = Some decoded ->
  Track.aircraft kalman st !! address decoded = Some ac ->
  let ac1 := refresh ac decoded now in
  let tm := build_timestamp_map (Track.blacklist kalman st) (copies group) in
  let elapsed := (prior_context ac1 now).2 in
  let last_distinct := (prior_context ac1 now).1.2 in
  let min_receivers := (altitude_model ac1 now).2 in
  min_receivers <= length tm ->
  let limited :=
    ((elapsed < 15)%Q /\ length tm < last_distinct) \/
    ((elapsed < 2)%Q /\ length tm = last_distinct) in
  (limited <->
   resolve st now group =
   mkOutcome (refreshed st now group decoded ac) [EvDecode (message group)] None) /\
  (~ limited ->
   exists ev, Track.o_events kalman (resolve st now group) =
              EvDecode (message group) :: EvNormalize tm :: ev) /\
  (last_distinct < length tm -> ~ limited).
Proof.
  intros Hp Hlen Hd Ha. cbv zeta.
  resolve_to_refresh Hp Hlen Hd Ha.
  destruct (prior_context (refresh ac decoded now) now)
    as [[[lrp lrv] lrd] elapsed].
  destruct (altitude_model (refresh ac decoded now) now)
    as [[alt alt_error] min_receivers].
  cbn [fst snd]. intros Hmin. apply Nat.ltb_ge in Hmin. rewrite Hmin.
  rewrite <- ratelimited_true.
  set (tm := build_timestamp_map (Track.blacklist kalman st) (copies group)).
  destruct (Track.ratelimited elapsed (length tm) lrd) eqn:Hr.
  - split; [done|]. split; [by intros []|].
    intros Hmore _. apply ratelimited_true in Hr. lia.
  - match goal with
    | |- (_ <-> ?B = _) /\ _ =>
        assert (exists ev, Track.o_events kalman B =
                           EvDecode (message group) :: EvNormalize tm :: ev)
          as [ev Hev]
    end.
    { destruct (Track.gather_clusters kalman distance Cair (normalize tm) min_receivers)
        as [[[|cl cls]|e] ev']; cbn [Track.o_events app]; eauto.
      destruct (accept_loop _ _ _ _ _ _ _) as [[[a|]|e] ev''];
        cbn [Track.o_events app]; eauto. }
    split; [|split].
    + split; [done|]. intros Heq. rewrite Heq in Hev. discriminate Hev.
    + intros _. eauto.
    + by intros _ ?.
Qed.

(** C9.  Once the message is decoded and its aircraft is known, the
    altitude (with its update time), squawk and callsign carried by the
    message overwrite those of the aircraft and nothing else of it
    changes; whatever happens afterwards, the resolution ends either
    without commit, in the refreshed state exactly (also when it ends
    with an exception), or with a commit, which changes only the
    last-result fields and the Kalman state of the refreshed aircraft. *)
Theorem refresh_persists (st : MlatTracker) now group g0 decoded (ac : Aircraft) :
  Track.pending kalman st !! message group = Some g0 ->
  3 <= length (copies group) ->
  decode (message group) = Some decoded ->
  Track.aircraft kalman st !! address decoded = Some ac ->
  let o := resolve st now group in
  let ac1 := refresh ac decoded now in
  (Track.ac_altitude kalman ac1 =
     match altitude decoded with Some a => Some a | None => Track.ac_altitude kalman ac end /\
   Track.ac_last_altitude_time kalman ac1 =
     match altitude decoded with
     | Some _ => now | None => Track.ac_last_altitude_time kalman ac end /\
   Track.ac_squawk kalman ac1 =
     match squawk decoded with Some x => Some x | None => Track.ac_squawk kalman ac end /\
   Track.ac_callsign kalman ac1 =
     match callsign decoded with Some x => Some x | None => Track.ac_callsign kalman ac end /\
   Track.ac_last_result_position kalman ac1 = Track.ac_last_result_position kalman ac /\
   Track.ac_last_result_var kalman ac1 = Track.ac_last_result_var kalman ac /\
   Track.ac_last_result_distinct kalman ac1 = Track.ac_last_result_distinct kalman ac /\
   Track.ac_last_result_time kalman ac1 = Track.ac_last_result_time kalman ac /\
   Track.ac_kalman kalman ac1 = Track.ac_kalman kalman ac) /\
  ((existsb (Track.is_kalman kalman) (Track.o_events kalman o) = false /\
    Track.o_state kalman o = refreshed st now group decoded ac) \/
   (existsb (Track.is_kalman kalman) (Track.o_events kalman o) = true /\
    exists pos var_est distinct k,
      Track.o_state kalman o =
      set_aircraft (refreshed st now group decoded ac)
        (<[address decoded := set_last_result ac1 pos var_est distinct now k]>
           (Track.aircraft kalman (refreshed st now group decoded ac))))) /\
  (exists ac',
     Track.aircraft kalman (Track.o_state kalman o) !! address decoded = Some ac' /\
     Track.ac_altitude kalman ac' = Track.ac_altitude kalman ac1 /\
     Track.ac_last_altitude_time kalman ac' = Track.ac_last_altitude_time kalman ac1 /\
     Track.ac_squawk kalman ac' = Track.ac_squawk kalman ac1 /\
     Track.ac_callsign kalman ac' = Track.ac_callsign kalman ac1).
Proof.
  intros Hp Hlen Hd Ha. cbv zeta.
  split; [by repeat split|].
  assert ((existsb (Track.is_kalman kalman)
             (Track.o_events kalman (resolve st now group)) = false /\
           Track.o_state kalman (resolve st now group) =
           refreshed st now group decoded ac) \/
          (existsb (Track.is_kalman kalman)
             (Track.o_events kalman (resolve st now group)) = true /\
           exists pos var_est distinct k,
             Track.o_state kalman (resolve st now group) =
             set_aircraft (refreshed st now group decoded ac)
               (<[address decoded :=
                    set_last_result (refresh ac decoded now) pos var_est distinct now k]>
                  (Track.aircraft kalman (refreshed st now group decoded ac)))))
    as Hcases.
  { resolve_to_refresh Hp Hlen Hd Ha.
    destruct (prior_context (refresh ac decoded now) now)
      as [[[lrp lrv] lrd] elapsed].
    destruct (altitude_model (refresh ac decoded now) now)
      as [[alt alt_error] min_receivers].
    set (tm := build_timestamp_map (Track.blacklist kalman st) (copies group)).
    destruct (length tm <? min_receivers); [by left|].
    destruct (Track.ratelimited elapsed (length tm) lrd); [by left|].
    pose proof (gather_clusters_events (normalize tm) min_receivers) as Hg.
    destruct (Track.gather_clusters kalman distance Cair (normalize tm) min_receivers)
      as [r ev']. cbn [snd] in Hg.
    destruct r as [[|cl cls]|e];
      try (left; cbn [Track.o_events Track.o_state]; split; [|done];
           rewrite existsb_app, Hg; done).
    pose proof (accept_loop_events lrp lrv lrd elapsed alt alt_error
                  (Track.pop_order (cl :: cls))) as Hl.
    destruct (accept_loop lrp lrv lrd elapsed alt alt_error
                (Track.pop_order (cl :: cls))) as [r ev''].
    cbn [snd] in Hl.
    destruct r as [[a|]|e];
      try (left; cbn [Track.o_events Track.o_state]; split; [|done];
           rewrite !existsb_app, Hg, Hl; done).
    right. cbn [Track.o_events Track.o_state]. split.
    - rewrite !existsb_app, commit_events. by rewrite !orb_true_r.
    - destruct a as [[[[pos cov] var_est] d] cl']. rewrite commit_state.
      by eexists _, _, _, _. }
  split; [exact Hcases|].
  destruct Hcases as [[_ ->]|[_ (pos & var_est & distinct & k & ->)]].
  - exists (refresh ac decoded now).
    cbn [Track.aircraft Track.set_aircraft]. by rewrite lookup_insert_eq.
  - eexists. cbn [Track.aircraft Track.set_aircraft].
    rewrite lookup_insert_eq. by repeat split.
Qed.

End TrackFacts.

(** * Part III: the properties on the sample data *)

Lemma cluster_members_feasible_witness :
  NoDup (map e_receiver Sample.cluster4) /\
  Spec.feasible Sample.distance Sample.Cair
    (1, 0.1e-3%Q, 1e-12%Q) (4, 0.3e-3%Q, 1e-12%Q).
Proof.
  destruct (cluster_members_feasible Sample.distance Sample.Cair
              Sample.component4 3 [(3, Sample.cluster4)] 3 Sample.cluster4)
    as (Hnodup & Hpairs & _).
  - vm_compute. reflexivity.
  - left. reflexivity.
  - split; [exact Hnodup|].
    exact (Hpairs 0 3 _ _ ltac:(lia) eq_refl eq_refl).
Defined.

Lemma cluster_distinct_count_witness :
  3 <= length Sample.cluster4 /\
  3 = Spec.count_distinct Sample.distance Sample.cluster4.
Proof.
  destruct (cluster_distinct_count Sample.distance Sample.Cair
              Sample.component4 3 [(3, Sample.cluster4)] 3 Sample.cluster4)
    as (Hle & Hcount & _).
  - vm_compute. reflexivity.
  - left. reflexivity.
  - split; assumption.
Defined.

Lemma scan_stops_at_seed_cutoff_witness :
  Cluster.form_cluster Sample.distance Sample.Cair
    ([] ++ Sample.e0 :: [Sample.e1]) Sample.e2 =
  let '(post', cluster, distinct) :=
    Cluster.form_cluster Sample.distance Sample.Cair [Sample.e1] Sample.e2 in
  ([] ++ Sample.e0 :: post', cluster, distinct).
Proof.
  apply (proj1 (scan_stops_at_seed_cutoff Sample.distance Sample.Cair
                  [] Sample.e0 [Sample.e1] Sample.e2)).
  vm_compute. reflexivity.
Defined.

(** C2, as stated, fails: with receivers 1000 km apart and copies at
    0, 1.5 and 3 ms, the code stops at the copy at 0 ms (3 ms before the
    seed) and leaves it in the group, while a cut-off taken from the
    member accepted last (1.5 ms) would go on and accept it. *)
Lemma scan_cutoff_does_not_advance :
  Cluster.form_cluster Sample.distance Sample.Cair [Sample.e0; Sample.e1] Sample.e2
  = ([Sample.e0], [Sample.e2; Sample.e1], 2) /\
  Spec.form_cluster_advancing Sample.distance Sample.Cair [Sample.e0; Sample.e1] Sample.e2
  = ([], [Sample.e2; Sample.e1; Sample.e0], 3).
Proof. split; vm_compute; reflexivity. Qed.

(** C5, as stated, fails: 20 s after the altitude was seen the error is
    1650 ft, not under 1000 ft, yet the code relaxes the quorum to 3,
    because it compares the converted error, 502.92 m, with 1000. *)
Lemma quorum_threshold_not_in_feet :
  (Track.altitude_model nat Sample.FTOM Sample.ac0 110).2 = 3 /\
  Spec.quorum_in_feet Sample.FTOM (110 - 90) = 4.
Proof. split; vm_compute; reflexivity. Qed.

Lemma resolve_few_copies_witness :
  Sample.resolve Sample.solve_nocov (Sample.tracker Sample.group2) 100 Sample.group2 =
  Track.mkOutcome nat
    (Track.set_pending nat (Sample.tracker Sample.group2)
       (delete (message Sample.group2)
          (Track.pending nat (Sample.tracker Sample.group2))))
    [] None.
Proof.
  apply resolve_few_copies with (g0 := Sample.group2).
  - apply lookup_singleton_eq.
  - simpl. lia.
Defined.

Lemma prior_context_cases_witness :
  Track.prior_context nat Sample.ac0 100 = (None, 1e9%Q, 0, 120%Q) /\
  Track.prior_context nat Sample.ac_recent 100 =
  (Some (1%Q, 2%Q, 3%Q), 2500%Q, 5, (100 - 95)%Q).
Proof.
  split.
  - apply (proj1 (prior_context_cases nat Sample.ac0 100)). by left.
  - apply (proj2 (prior_context_cases nat Sample.ac_recent 100)); [done|].
    vm_compute. discriminate.
Defined.

Lemma altitude_model_cases_witness :
  Track.altitude_model nat Sample.FTOM Sample.ac0 110 =
  (Some (29000 * Sample.FTOM)%Q,
   Some ((250 + (110 - 90) * 70) * Sample.FTOM)%Q, 3).
Proof.
  apply (proj2 (altitude_model_cases nat Sample.FTOM Sample.ac0 110) 29000%Q);
    [done|].
  vm_compute. reflexivity.
Defined.

Lemma acceptance_order_and_stop_witness :
  Sample.accept_loop Sample.solve_nocov (Some (1%Q, 2%Q, 3%Q)) 2500 5 5 None None
    [(4, Sample.cluster4); (3, Sample.cluster3)] = (Ok None, []) /\
  Sample.accept_loop Sample.solve_none None 1e9 0 120 None None
    [(4, Sample.cluster4); (3, Sample.cluster3)] =
  (Ok None,
   [Track.EvSolve nat Sample.cluster4 None None (Sample.position 1);
    Track.EvSolve nat Sample.cluster3 None None (Sample.position 0)]).
Proof.
  unfold Sample.accept_loop. split.
  - apply (proj1 (proj2 (acceptance_order_and_stop nat Sample.position
                           Sample.MLAT_DELAY Sample.solve_nocov))).
    left. split; [vm_compute; reflexivity|lia].
  - rewrite (proj2 (proj2 (acceptance_order_and_stop nat Sample.position
                             Sample.MLAT_DELAY Sample.solve_none))
               None 1e9%Q 0 120%Q None None 4 Sample.cluster4
               [(3, Sample.cluster3)] (Sample.position 1)).
    + vm_compute. reflexivity.
    + intros [[H _]|[H _]]; vm_compute in H; discriminate H.
    + vm_compute. reflexivity.
    + reflexivity.
Defined.

Lemma resolve_ratelimit_witness :
  Sample.resolve Sample.solve_nocov
    (Sample.tracker_with Sample.ac_recent Sample.group4) 100 Sample.group4 =
  Track.mkOutcome nat
    (Track.set_aircraft nat
       (Track.set_pending nat (Sample.tracker_with Sample.ac_recent Sample.group4)
          (delete "8d"
             (Track.pending nat (Sample.tracker_with Sample.ac_recent Sample.group4))))
       (<[4321%Z := Track.refresh nat Sample.ac_recent Sample.decoded 100]>
          (Track.aircraft nat (Sample.tracker_with Sample.ac_recent Sample.group4))))
    [Track.EvDecode nat "8d"] None.
Proof.
  pose proof (resolve_ratelimit nat Sample.user Sample.position Sample.distance
                Sample.Cair Sample.FTOM Sample.MLAT_DELAY Sample.decode
                Sample.normalize Sample.solve_nocov Sample.kalman_update
                (Sample.tracker_with Sample.ac_recent Sample.group4) 100
                Sample.group4 Sample.group4 Sample.decoded Sample.ac_recent) as H.
  cbv zeta in H.
  destruct H as ([Hlimited _] & _ & _).
  - apply lookup_singleton_eq.
  - simpl. lia.
  - reflexivity.
  - apply lookup_singleton_eq.
  - vm_compute. lia.
  - apply Hlimited. left. split; [vm_compute; reflexivity|vm_compute; lia].
Defined.

Lemma refresh_persists_witness :
  exists ac',
    Track.aircraft nat
      (Track.o_state nat
         (Sample.resolve Sample.solve_nocov (Sample.tracker Sample.group4) 100
            Sample.group4)) !! 4321%Z = Some ac' /\
    Track.ac_altitude nat ac' = Some 30000%Q /\
    Track.ac_last_altitude_time nat ac' = 100%Q /\
    Track.ac_squawk nat ac' = Some "7000" /\
    Track.ac_callsign nat ac' = Some "TEST123".
Proof.
  pose proof (refresh_persists nat Sample.user Sample.position Sample.distance
                Sample.Cair Sample.FTOM Sample.MLAT_DELAY Sample.decode
                Sample.normalize Sample.solve_nocov Sample.kalman_update
                (Sample.tracker Sample.group4) 100
                Sample.group4 Sample.group4 Sample.decoded Sample.ac0) as H.
  cbv zeta in H.
  destruct H as (_ & _ & H).
  - apply lookup_singleton_eq.
  - simpl. lia.
  - reflexivity.
  - apply lookup_singleton_eq.
  - exact H.
Defined.

Lemma nocov_result_accepted_witness :
  Sample.accept_loop Sample.solve_nocov None 1e9 0 120 None None
    [(3, Sample.cluster3)] =
  (Ok (Some ((1%Q, 2%Q, 3%Q), None, 100e6%Q, 3, Track.sort_cluster Sample.cluster3)),
   [Track.EvSolve nat (Track.sort_cluster Sample.cluster3) None None
      (Sample.position 0)]).
Proof.
  destruct (nocov_result_accepted nat Sample.position Sample.MLAT_DELAY
              Sample.solve_nocov Sample.kalman_update
              None 1e9%Q 0 120%Q None None 3 Sample.cluster3 []
              (Sample.position 0) (1%Q, 2%Q, 3%Q))
    as (_ & _ & Haccept & _).
  - vm_compute. reflexivity.
  - vm_compute. reflexivity.
  - reflexivity.
  - apply Haccept. intros [H _]. vm_compute in H. discriminate H.
Defined.

(** A whole resolution on the sample data: four copies, an aircraft
    without prior result, a solver that gives a position without
    covariance.  The cluster of four (distinct count 3, receivers 3 and 4
    sharing a site) is solved once, and the result is committed with the
    variance 100e6 and handed to the output handler. *)
Example resolve_nocov_commits :
  let o := Sample.resolve Sample.solve_nocov (Sample.tracker Sample.group4) 100
             Sample.group4 in
  Track.o_raised nat o = None /\
  Track.o_events nat o =
  [ Track.EvDecode nat "8d";
    Track.EvNormalize nat
      [(1, [0.1e-3%Q]); (2, [0.2e-3%Q]); (3, [0.3e-3%Q]); (4, [0.3e-3%Q])];
    Track.EvCluster nat Sample.component4 3;
    Track.EvSolve nat Sample.cluster4 (Some (30000 * Sample.FTOM)%Q)
      (Some ((250 + (100 - 100) * 70) * Sample.FTOM)%Q) (Sample.position 1);
    Track.EvKalman nat 1000 Sample.cluster4 (Some (30000 * Sample.FTOM)%Q)
      (Some ((250 + (100 - 100) * 70) * Sample.FTOM)%Q) (1%Q, 2%Q, 3%Q) None 3;
    Track.EvOutput nat 0 1000 4321 (1%Q, 2%Q, 3%Q) None [1; 2; 3; 4] 3 1 ] /\
  Track.ac_last_result_var nat
    <$> (Track.aircraft nat (Track.o_state nat o) !! 4321%Z) = Some 100e6%Q.
Proof. vm_compute. repeat split. Qed.

(** * Part IV: further properties of the code *)

(** ** Order of timestamps *)

Section ChronoFacts.
Import Chrono.

Lemma not_after_trans a b c : not_after a b -> not_after b c -> not_after a c.
Proof. apply Qle_trans. Qed.

Lemma chronological_app l1 l2 :
  chronological (l1 ++ l2) <->
  chronological l1 /\ chronological l2 /\
  Forall (fun a => Forall (not_after a) l2) l1.
Proof.
  induction l1 as [|x l1 IH]; simpl.
  - split; [intros H; repeat split; auto | by intros (_ & H & _)].
  - rewrite Forall_app, IH, Forall_cons. tauto.
Qed.

Lemma chronological_lookup l i j a b :
  chronological l -> i < j -> l !! i = Some a -> l !! j = Some b -> not_after a b.
Proof.
  revert i j. induction l as [|x l IH]; intros i j Hl Hij Ha Hb; [by destruct i|].
  destruct Hl as [Hx Hl]. destruct j as [|j]; [lia|]. simpl in Hb.
  destruct i as [|i]; simpl in Ha.
  - injection Ha as <-. rewrite Forall_forall in Hx.
    apply Hx. eapply list_elem_of_lookup_2; eauto.
  - apply (IH i j); auto with lia.
Qed.

Lemma chronological_delete l i : chronological l -> chronological (delete i l).
Proof.
  revert i. induction l as [|x l IH]; intros i Hl; [by destruct i|].
  destruct Hl as [Hx Hl]. destruct i as [|i]; simpl; [done|].
  split; [by apply Forall_delete | by apply IH].
Qed.

Lemma take_delete_same {A} (l : list A) i : take i (delete i l) = take i l.
Proof.
  revert i. induction l as [|x l IH]; intros [|i]; simpl; try done.
  by rewrite IH.
Qed.

(** The stable sort by timestamp gives a chronological list, and leaves
    a chronological list as it is. *)
Lemma insert_chronological x l :
  chronological l ->
  chronological (insert_by (fun a b => Qltb (e_timestamp a) (e_timestamp b)) x l).
Proof.
  induction l as [|y l IH]; intros Hl; simpl; [by split|].
  destruct Hl as [Hy Hl].
  destruct (Qltb (e_timestamp y) (e_timestamp x)) eqn:E.
  - apply Qltb_true in E. split; [|by apply IH].
    rewrite insert_by_perm. constructor; [by apply Qlt_le_weak|done].
  - apply Qltb_false in E. split; [|by split].
    constructor; [done|].
    eapply Forall_impl; [exact Hy|]. intros z Hz. by eapply not_after_trans.
Qed.

Lemma sort_chronological l :
  chronological (sort_by (fun a b => Qltb (e_timestamp a) (e_timestamp b)) l).
Proof. induction l as [|x l IH]; simpl; [done|]. by apply insert_chronological. Qed.

Lemma sort_chronological_id l :
  chronological l ->
  sort_by (fun a b => Qltb (e_timestamp a) (e_timestamp b)) l = l.
Proof.
  induction l as [|x l IH]; intros Hl; simpl; [done|].
  destruct Hl as [Hx Hl]. rewrite IH by done.
  destruct l as [|y l]; simpl; [done|].
  apply Forall_cons in Hx as [Hxy _].
  apply Qltb_false in Hxy. by rewrite Hxy.
Qed.

End ChronoFacts.

(** ** More on the clustering algorithm *)

Section ClusterMore.
Import Chrono.
Variable distance : receiver -> receiver -> Q.
Variable Cair : Q.

Local Abbreviation check_candidate := (Cluster.check_candidate distance Cair).
Local Abbreviation scan := (Cluster.scan distance Cair).
Local Abbreviation form_cluster := (Cluster.form_cluster distance Cair).
Local Abbreviation cluster_group := (Cluster.cluster_group distance Cair).
Local Abbreviation cluster_timestamps := (Cluster.cluster_timestamps distance Cair).

(** Induction over the scan that also sees the cut-off test and the
    group: [P] is kept when a candidate within 2 ms of the reference
    passes the strict test and moves from the group to the cluster, and
    when the scan passes below an index. *)
Lemma scan_rule (P : nat -> list entry -> list entry -> nat -> Prop) last :
  (forall i g c d r t v isd,
      P (S i) g c d -> g !! i = Some (r, t, v) ->
      Qgtb (last - t) 2e-3 = false ->
      check_candidate r t c true = (true, isd) ->
      P i (delete i g) (c ++ [(r, t, v)]) (if isd then S d else d)) ->
  (forall i g c d, P (S i) g c d -> P i g c d) ->
  forall n g c d g' c' d',
    scan n last g c d = (g', c', d') -> P n g c d -> P 0 g' c' d'.
Proof.
  intros Hacc Hskip.
  assert (forall n g c d, P n g c d -> P 0 g c d) as Hzero.
  { induction n as [|n IH]; intros g c d HP; [done|]. by apply IH, Hskip. }
  induction n as [|i IH]; intros g c d g' c' d'; cbn [Cluster.scan].
  - by intros [= <- <- <-].
  - unfold entry in *.
    destruct (g !! i) as [[[r t] v]|] eqn:Hl;
      [|intros [= <- <- <-]; apply Hzero].
    destruct (Qgtb (last - t) 2e-3) eqn:Hcut;
      [intros [= <- <- <-]; apply Hzero|].
    destruct (check_candidate r t c true) as [[|] isd] eqn:Hc.
    + intros Hs HP. eapply IH; [exact Hs|]. by eapply Hacc.
    + intros Hs HP. eapply IH; [exact Hs|]. by apply Hskip.
Qed.

(** The scan only moves entries from the group to the cluster. *)
Lemma scan_perm n last g c d g' c' d' :
  scan n last g c d = (g', c', d') -> g' ++ c' ≡ₚ g ++ c.
Proof.
  intros Hs.
  apply (scan_rule (fun _ g1 c1 _ => g1 ++ c1 ≡ₚ g ++ c) last) in Hs; [done| | |done].
  - intros i g1 c1 d1 r t v isd HP Hl _ _.
    assert (g1 ++ c1 ≡ₚ ((r, t, v) :: delete i g1) ++ c1) as H1
      by (by rewrite <- (delete_Permutation g1 i _ Hl)).
    rewrite <- HP, H1, app_assoc. simpl. symmetry. apply Permutation_cons_append.
  - done.
Qed.

(** Scanning a chronological group below its seed gives a cluster in
    descending order and leaves the group chronological. *)
Lemma scan_chronological n last g c d g' c' d' :
  scan n last g c d = (g', c', d') ->
  chronological g -> chronological (rev c) ->
  Forall (fun x => Forall (not_after x) c) (take n g) ->
  chronological g' /\ chronological (rev c').
Proof.
  intros Hs Hg Hc Hle.
  apply (scan_rule
           (fun n g c _ => chronological g /\ chronological (rev c) /\
                           Forall (fun x => Forall (not_after x) c) (take n g))
           last) in Hs; [tauto| | |done].
  - intros i g1 c1 d1 r t v isd (Hg1 & Hc1 & Hle1) Hl _ _.
    unfold entry in *.
    rewrite (take_S_r _ _ _ Hl), Forall_app, Forall_singleton in Hle1.
    destruct Hle1 as [Hbelow He].
    split; [by apply chronological_delete|]. split.
    + rewrite rev_unit. split; [by apply Forall_rev|done].
    + rewrite take_delete_same. apply Forall_forall. intros x Hx.
      rewrite Forall_app, Forall_singleton. split.
      * rewrite Forall_forall in Hbelow. by apply Hbelow.
      * apply list_elem_of_lookup_1 in Hx as [j Hj].
        pose proof (lookup_lt_Some _ _ _ Hj) as Hlt.
        rewrite length_take in Hlt.
        rewrite lookup_take_lt in Hj by lia.
        eapply (chronological_lookup g1 j i); eauto with lia.
  - intros i g1 c1 d1 (Hg1 & Hc1 & Hle1). split; [done|]. split; [done|].
    unfold entry in *.
    destruct (g1 !! i) as [x|] eqn:Hl.
    + rewrite (take_S_r _ _ _ Hl), Forall_app in Hle1. tauto.
    + apply lookup_ge_None_1 in Hl.
      rewrite take_ge in Hle1 by lia. by rewrite take_ge by lia.
Qed.

(** Every member of the scanned cluster is within 2 ms of the cut-off
    reference, and the seed stays the first member included. *)
Lemma scan_span n last g c d g' c' d' :
  scan n last g c d = (g', c', d') ->
  c <> [] ->
  Forall (fun m => (last - e_timestamp m <= 2e-3)%Q) c ->
  Forall (fun m => (last - e_timestamp m <= 2e-3)%Q) c' /\ head c' = head c.
Proof.
  intros Hs Hne Hc.
  apply (scan_rule
           (fun _ _ c1 _ => Forall (fun m => (last - e_timestamp m <= 2e-3)%Q) c1 /\
                            head c1 = head c /\ c1 <> [])
           last) in Hs; [tauto| | |done].
  - intros i g1 c1 d1 r t v isd (Hc1 & Hh & Hne1) _ Hcut _.
    split; [|split].
    + rewrite Forall_app, Forall_singleton. split; [done|]. by apply Qgtb_false.
    + by destruct c1.
    + by destruct c1.
  - done.
Qed.

(** *** The rough grouping *)

Lemma rough_groups_concat group flat :
  concat (Cluster.rough_groups group flat) = group ++ flat.
Proof.
  revert group. induction flat as [|t rest IH]; intros group; simpl.
  - by rewrite !app_nil_r.
  - destruct (Qgtb _ _); simpl; rewrite IH; [done|].
    by rewrite <- app_assoc.
Qed.

Lemma rough_groups_nonempty group flat :
  group <> [] -> Forall (fun g => g <> []) (Cluster.rough_groups group flat).
Proof.
  revert group. induction flat as [|t rest IH]; intros group Hne; simpl.
  - by constructor.
  - destruct (Qgtb _ _).
    + constructor; [done|]. by apply IH.
    + apply IH. by destruct group.
Qed.

Lemma rough_groups_chronological group flat :
  chronological (group ++ flat) ->
  Forall chronological (Cluster.rough_groups group flat).
Proof.
  revert group. induction flat as [|t rest IH]; intros group Hc; simpl.
  - constructor; [|done]. by rewrite app_nil_r in Hc.
  - destruct (Qgtb _ _).
    + apply chronological_app in Hc as (Hg & Hr & _).
      constructor; [done|]. by apply IH.
    + apply IH. by rewrite <- app_assoc.
Qed.

Lemma last_default_Some {A} (l : list A) d x : last l = Some x -> List.last l d = x.
Proof.
  intros H. apply last_Some in H as [l' ->]. apply last_last.
Qed.

Lemma close_snoc g a t :
  Gap.close g -> last g = Some a ->
  (e_timestamp t - e_timestamp a <= 2e-3)%Q -> Gap.close (g ++ [t]).
Proof.
  intros Hg Ha Hgap k x y Hx Hy.
  apply last_Some in Ha as [g' ->].
  destruct (decide (S k < length (g' ++ [a]))) as [Hlt|Hge].
  - rewrite lookup_app_l in Hx by lia. rewrite lookup_app_l in Hy by done.
    by apply (Hg k).
  - pose proof (lookup_lt_Some _ _ _ Hy) as Hlen.
    rewrite !length_app in *. simpl in *.
    assert (k = length g') as -> by lia.
    rewrite <- app_assoc in Hx, Hy. simpl in Hx, Hy.
    rewrite list_lookup_middle in Hx by done. injection Hx as <-.
    change (a :: [t]) with ([a] ++ [t]) in Hy. rewrite app_assoc in Hy.
    rewrite (list_lookup_middle (g' ++ [a]) [] t) in Hy
      by (rewrite length_app; simpl; lia).
    by injection Hy as <-.
Qed.

Lemma rough_groups_close group flat :
  group <> [] -> Gap.close group ->
  Forall Gap.close (Cluster.rough_groups group flat).
Proof.
  revert group. induction flat as [|t rest IH]; intros group Hne Hc; simpl.
  - by constructor.
  - destruct (last group) as [a|] eqn:Ha; [|by destruct group using rev_ind;
        [|rewrite last_snoc in Ha]].
    rewrite (last_default_Some _ t a Ha).
    destruct (Qgtb _ _) eqn:E.
    + constructor; [done|]. apply IH; [done|].
      intros k x y Hx Hy. by destruct k.
    + apply IH; [by destruct group|].
      apply Qgtb_false in E. by eapply close_snoc.
Qed.

Lemma rough_groups_head group flat g :
  group <> [] -> head (Cluster.rough_groups group flat) = Some g ->
  head g = head group.
Proof.
  revert group. induction flat as [|t rest IH]; intros group Hne; simpl.
  - by intros [= <-].
  - destruct (Qgtb _ _); [by intros [= <-]|].
    intros H. apply IH in H; [|by destruct group]. rewrite H. by destruct group.
Qed.

Lemma rough_groups_apart group flat :
  group <> [] -> Gap.apart (Cluster.rough_groups group flat).
Proof.
  revert group. induction flat as [|t rest IH]; intros group Hne; simpl.
  - intros k g1 g2 a b Hg1 Hg2. by destruct k.
  - destruct (last group) as [a0|] eqn:Ha0; [|by destruct group using rev_ind;
        [|rewrite last_snoc in Ha0]].
    rewrite (last_default_Some _ t a0 Ha0).
    destruct (Qgtb _ _) eqn:E.
    + intros k g1 g2 a b Hg1 Hg2 Ha Hb. destruct k as [|k].
      * simpl in Hg1, Hg2. injection Hg1 as <-.
        assert (head g2 = head [t]) as Hh.
        { apply (rough_groups_head [t] rest); [done|].
          by destruct (Cluster.rough_groups [t] rest). }
        rewrite Hb in Hh. injection Hh as ->.
        rewrite Ha0 in Ha. injection Ha as <-. by apply Qgtb_true.
      * by apply (IH [t] ltac:(done) k g1 g2).
    + apply IH. by destruct group.
Qed.

(** X1.  The rough grouping cuts the sorted entries into consecutive,
    non-empty groups: within a group consecutive entries are at most
    2 ms apart, and each group starts more than 2 ms after the end of
    the one before. *)
Theorem rough_groups_partition first rest :
  concat (Cluster.rough_groups [first] rest) = first :: rest /\
  Forall (fun g => g <> []) (Cluster.rough_groups [first] rest) /\
  Forall Gap.close (Cluster.rough_groups [first] rest) /\
  Gap.apart (Cluster.rough_groups [first] rest).
Proof.
  split; [apply rough_groups_concat|].
  split; [by apply rough_groups_nonempty|].
  split; [|by apply rough_groups_apart].
  apply rough_groups_close; [done|]. intros k a b Ha Hb. by destruct k.
Qed.

(** *** The clusters of a group *)

Lemma last_removelast {A} (g : list A) x :
  last g = Some x -> g = removelast g ++ [x].
Proof. intros H. apply last_Some in H as [l ->]. by rewrite removelast_last. Qed.

Lemma cluster_group_short fuel g min :
  length g < 3 -> cluster_group fuel g min = [].
Proof.
  intros H. destruct fuel; [done|]. cbn [Cluster.cluster_group].
  by replace (3 <=? length g) with false by (symmetry; apply Nat.leb_gt; lia).
Qed.

(** No entry of the group is used twice. *)
Lemma cluster_group_submseteq fuel : forall g min,
  concat (map snd (cluster_group fuel g min)) ⊆+ g.
Proof.
  induction fuel as [|fuel IH]; intros g min; cbn [Cluster.cluster_group].
  - apply submseteq_nil_l.
  - destruct (3 <=? length g); [|apply submseteq_nil_l].
    destruct (last g) as [tail|] eqn:Hlast; [|apply submseteq_nil_l].
    destruct (form_cluster (removelast g) tail) as [[g' c] d] eqn:Hf.
    apply scan_perm in Hf. rewrite <- (last_removelast g tail Hlast) in Hf.
    rewrite <- Hf, map_app, concat_app.
    destruct (min <=? d); simpl.
    + rewrite app_nil_r, (Permutation_app_comm g' c).
      apply submseteq_app; [|apply IH].
      apply Permutation_submseteq. symmetry. apply Permutation_rev.
    + by apply submseteq_inserts_r.
Qed.

(** The clusters of a chronological group are chronological. *)
Lemma cluster_group_chronological fuel : forall g min d m,
  chronological g -> In (d, m) (cluster_group fuel g min) -> chronological m.
Proof.
  induction fuel as [|fuel IH]; intros g min d m Hg;
    cbn [Cluster.cluster_group]; [intros []|].
  destruct (3 <=? length g); [|intros []].
  destruct (last g) as [tail|] eqn:Hlast; [|intros []].
  destruct (form_cluster (removelast g) tail) as [[g' c] d'] eqn:Hf.
  rewrite (last_removelast g tail Hlast) in Hg.
  apply chronological_app in Hg as (Hinit & _ & Hle).
  apply scan_chronological in Hf as [Hg' Hc']; [|done|by split|].
  - rewrite in_app_iff. intros [Hin|Hin].
    + destruct (min <=? d'); [|destruct Hin].
      by destruct Hin as [[= <- <-]|[]].
    + by apply (IH g' min d m).
  - by rewrite firstn_all.
Qed.

Lemma head_last_rev {A} (c : list A) x : head c = Some x -> last (rev c) = Some x.
Proof. destruct c as [|y c]; [done|]. intros [= ->]. simpl. apply last_snoc. Qed.

(** *** What [_cluster_timestamps] returns *)

Lemma sort_timestamps_perm l : Cluster.sort_timestamps l ≡ₚ l.
Proof. apply sort_by_perm. Qed.

(** X2.  The clusters returned by [_cluster_timestamps] use each
    timestamp of the component at most once: taken together, their
    members are a sub-multiset of the flattened component. *)
Theorem clusters_disjoint c min cl :
  cluster_timestamps c min = Ok cl ->
  concat (map snd cl) ⊆+ Cluster.flatten c.
Proof.
  unfold Cluster.cluster_timestamps.
  destruct (Cluster.sort_timestamps (Cluster.flatten c)) as [|first rest] eqn:Hs;
    [done|].
  intros [= <-]. rewrite <- (sort_timestamps_perm (Cluster.flatten c)), Hs.
  change (first :: rest) with ([first] ++ rest).
  rewrite <- (rough_groups_concat [first] rest).
  induction (Cluster.rough_groups [first] rest) as [|g groups IH]; simpl; [done|].
  rewrite map_app, concat_app.
  apply submseteq_app; [apply cluster_group_submseteq|apply IH].
Qed.

Lemma cluster_timestamps_chronological c min cl d m :
  cluster_timestamps c min = Ok cl -> In (d, m) cl -> chronological m.
Proof.
  unfold Cluster.cluster_timestamps.
  destruct (Cluster.sort_timestamps (Cluster.flatten c)) as [|first rest] eqn:Hs;
    [done|].
  intros [= <-] Hin. apply in_flat_map in Hin as (g & Hg & Hin).
  eapply cluster_group_chronological; [|exact Hin].
  pose proof (rough_groups_chronological [first] rest) as Hall.
  rewrite Forall_forall in Hall. apply Hall; [|by apply list_elem_of_In].
  change (chronological (first :: rest)). rewrite <- Hs. apply sort_chronological.
Qed.

(** X3.  Every cluster returned by [_cluster_timestamps] is in ascending
    order of timestamp, so that the sort of line 197 of [_resolve]
    leaves it as it is. *)
Theorem clusters_chronological c min cl d m :
  cluster_timestamps c min = Ok cl -> In (d, m) cl ->
  chronological m /\ Track.sort_cluster m = m.
Proof.
  intros Hc Hin.
  pose proof (cluster_timestamps_chronological c min cl d m Hc Hin) as Hm.
  split; [done|]. by apply sort_chronological_id.
Qed.

Lemma chronological_last l s :
  chronological l -> last l = Some s -> Forall (fun x => not_after x s) l.
Proof.
  intros Hl Hs. apply last_Some in Hs as [l' ->].
  apply chronological_app in Hl as (_ & _ & Hle).
  rewrite Forall_app, Forall_singleton. split; [|apply Qle_refl].
  eapply Forall_impl; [exact Hle|]. intros x Hx. by rewrite Forall_singleton in Hx.
Qed.

(** The seed of a kept cluster is its last member, and every member
    lies within 2 ms before it. *)
Lemma cluster_timestamps_span c min cl d m :
  cluster_timestamps c min = Ok cl -> In (d, m) cl ->
  exists seed, last m = Some seed /\
    Forall (fun x => (0 <= e_timestamp seed - e_timestamp x <= 2e-3)%Q) m.
Proof.
  intros Hc Hin.
  pose proof (cluster_timestamps_chronological c min cl d m Hc Hin) as Hm.
  destruct (cluster_timestamps_In _ _ _ _ _ _ _ Hc Hin)
    as (g0 & tail & g' & c' & Hf & -> & Hmin).
  unfold Cluster.form_cluster in Hf. apply scan_span in Hf as [Hspan Hhead];
    [|done|].
  - exists tail. split; [by apply head_last_rev|].
    pose proof (chronological_last _ tail Hm (head_last_rev _ _ Hhead)) as Hbefore.
    apply Forall_forall. intros x Hx.
    rewrite Forall_forall in Hbefore, Hspan. split.
    + specialize (Hbefore x Hx). unfold not_after in Hbefore.
      by apply (Qle_minus_iff (e_timestamp x)).
    + apply Hspan. apply list_elem_of_In. apply in_rev. by apply list_elem_of_In.
  - constructor; [|done]. unfold Qminus. by rewrite Qplus_opp_r.
Qed.

(** X4.  Every cluster returned by [_cluster_timestamps] has at least
    [min_receivers] distinct receivers, hence at least that many
    members; its last member is the seed, the latest of them, and all
    members lie within 2 ms before the seed. *)
Theorem clusters_quorum_and_span c min cl d m :
  cluster_timestamps c min = Ok cl -> In (d, m) cl ->
  min <= d /\ min <= length m /\ 1 <= d /\
  exists seed, last m = Some seed /\
    Forall (fun x => (0 <= e_timestamp seed - e_timestamp x <= 2e-3)%Q) m.
Proof.
  intros Hc Hin.
  destruct (cluster_timestamps_In _ _ _ _ _ _ _ Hc Hin)
    as (g0 & tail & g' & c' & Hf & Hm & Hmin).
  pose proof (form_cluster_count _ _ _ _ _ _ _ Hf) as [_ Hlen].
  assert (1 <= d) as Hone.
  { unfold Cluster.form_cluster in Hf.
    apply (scan_rule (fun _ _ _ d1 => 1 <= d1)) in Hf; [done| | |done].
    - intros i g c1 d1 r t v [|] H _ _ _; lia.
    - done. }
  split; [done|]. split; [rewrite Hm, length_rev; lia|]. split; [done|].
  by apply (cluster_timestamps_span c min cl d).
Qed.

Lemma flatten_nil (c : component) :
  Cluster.flatten c = [] <-> forall r v ts, In (r, (v, ts)) c -> ts = [].
Proof.
  induction c as [|[r [v ts]] c IH]; simpl.
  - split; [by intros _ ? ? ? []|done].
  - change (map (fun timestamp => (r, timestamp, v)) ts ++ Cluster.flatten c = []
            <-> (forall r0 v0 ts0,
                    (r, (v, ts)) = (r0, (v0, ts0)) \/ In (r0, (v0, ts0)) c -> ts0 = [])).
    split.
    + intros H. apply app_eq_nil in H as [H1 H2].
      apply map_eq_nil in H1. intros r0 v0 ts0 [[= <- <- <-]|Hin]; [done|].
      by apply (proj1 IH H2 r0 v0).
    + intros H. rewrite (H r v ts) by by left. simpl. apply IH.
      intros r0 v0 ts0 Hin. apply (H r0 v0). by right.
Qed.

Lemma in_concat_length {A} (g : list A) groups :
  In g groups -> length g <= length (concat groups).
Proof.
  induction groups as [|g0 groups IH]; [done|]. simpl. rewrite length_app.
  intros [->|Hin]; [lia|]. specialize (IH Hin). lia.
Qed.

Lemma flat_map_short min (groups : list (list entry)) :
  (forall g, In g groups -> length g < 3) ->
  flat_map (fun g => cluster_group (length g) g min) groups = [].
Proof.
  induction groups as [|g groups IH]; intros Hshort; [done|].
  simpl. rewrite cluster_group_short by (apply Hshort; by left).
  simpl. apply IH. intros g1 Hg1. apply Hshort. by right.
Qed.

(** X5.  The lookup [flat_component[0]] of line 300 raises IndexError
    exactly when the component holds no timestamp at all (every
    receiver has an empty list); with one or two timestamps
    [_cluster_timestamps] returns no cluster, whatever [min_receivers]
    is. *)
Theorem cluster_timestamps_small c min :
  (cluster_timestamps c min = Raise IndexError <->
   forall r v ts, In (r, (v, ts)) c -> ts = []) /\
  (0 < length (Cluster.flatten c) < 3 -> cluster_timestamps c min = Ok []).
Proof.
  rewrite <- flatten_nil. unfold Cluster.cluster_timestamps.
  pose proof (sort_timestamps_perm (Cluster.flatten c)) as Hperm.
  destruct (Cluster.sort_timestamps (Cluster.flatten c)) as [|first rest] eqn:Hs.
  - apply Permutation_nil in Hperm. rewrite Hperm.
    split; [done|]. simpl. lia.
  - split.
    + split; [done|]. intros Hnil. rewrite Hnil in Hperm.
      symmetry in Hperm. by apply Permutation_nil_cons in Hperm.
    + intros [_ Hlen]. f_equal. apply Permutation_length in Hperm.
      pose proof (rough_groups_concat [first] rest) as Hcat.
      assert (forall g, In g (Cluster.rough_groups [first] rest) -> length g < 3)
        as Hshort.
      { intros g Hg. apply in_concat_length in Hg. rewrite Hcat in Hg.
        simpl in *. lia. }
      by apply flat_map_short.
Qed.

(** The members of a kept cluster are entries of the component. *)
Lemma cluster_timestamps_members c min cl d m x :
  cluster_timestamps c min = Ok cl -> In (d, m) cl -> In x m ->
  In x (Cluster.flatten c).
Proof.
  unfold Cluster.cluster_timestamps.
  destruct (Cluster.sort_timestamps (Cluster.flatten c)) as [|first rest] eqn:Hs;
    [done|].
  intros [= <-] Hin Hx. apply in_flat_map in Hin as (g & Hg & Hin).
  apply list_elem_of_In. rewrite <- (sort_timestamps_perm (Cluster.flatten c)), Hs.
  change (first :: rest) with ([first] ++ rest).
  rewrite <- (rough_groups_concat [first] rest).
  apply list_elem_of_In, in_concat. exists g. split; [done|].
  apply list_elem_of_In.
  eapply elem_of_submseteq; [|apply cluster_group_submseteq].
  apply list_elem_of_In, in_concat. exists m. split; [|exact Hx].
  apply in_map_iff. by exists (d, m).
Qed.

Lemma flatten_In (c : component) x :
  In x (Cluster.flatten c) ->
  exists ts, In (e_receiver x, (e_variance x, ts)) c /\ In (e_timestamp x) ts.
Proof.
  unfold Cluster.flatten. intros H.
  apply in_flat_map in H as ([r [v ts]] & Hc & Hx).
  apply in_map_iff in Hx as (t0 & <- & Ht). by exists ts.
Qed.

End ClusterMore.

(** ** The timestamp map *)

Section TimestampMap.
Variable user : receiver -> string.

Local Abbreviation build_timestamp_map := (Track.build_timestamp_map user).

Lemma setdefault_append_keys rcv t (tm : timestamp_map) :
  (Track.setdefault_append rcv t tm).*1
  = if decide (rcv ∈ tm.*1) then tm.*1 else tm.*1 ++ [rcv].
Proof.
  induction tm as [|[r ts] tm IH]; cbn [Track.setdefault_append fmap list_fmap fst].
  - rewrite decide_False; [done|]. apply not_elem_of_nil.
  - destruct (decide (r = rcv)) as [->|Hne].
    + rewrite decide_True; [done|]. apply elem_of_cons. by left.
    + cbn [fmap list_fmap fst]. change (list_fmap _ _ fst ?l) with (l.*1).
      rewrite IH. destruct (decide (rcv ∈ tm.*1)) as [Hin|Hout].
      * rewrite decide_True; [done|]. apply elem_of_cons. by right.
      * rewrite decide_False; [done|].
        intros H. apply elem_of_cons in H as [?|?]; [by subst|done].
Qed.

Lemma setdefault_append_elem rcv t (tm : timestamp_map) r ts :
  NoDup tm.*1 ->
  (r, ts) ∈ Track.setdefault_append rcv t tm <->
  (r <> rcv /\ (r, ts) ∈ tm) \/
  (r = rcv /\ ((exists ts0, (rcv, ts0) ∈ tm /\ ts = ts0 ++ [t]) \/
               ((rcv ∉ tm.*1) /\ ts = [t]))).
Proof.
  induction tm as [|[r0 ts0] tm IH]; cbn [Track.setdefault_append]; intros Hnd.
  - rewrite list_elem_of_singleton. split.
    + intros [= -> ->]. right. split; [done|]. right. split; [|done].
      apply not_elem_of_nil.
    + intros [[_ H]|[-> [(ts1 & H & _)|[_ ->]]]]; [|by apply elem_of_nil in H|done].
      by apply elem_of_nil in H.
  - cbn [fmap list_fmap fst] in Hnd. apply NoDup_cons in Hnd as [Hout Hnd].
    specialize (IH Hnd).
    assert (forall x, (r0, x) ∈ tm -> False) as Hno.
    { intros x Hx. apply Hout. apply list_elem_of_fmap. by exists (r0, x). }
    destruct (decide (r0 = rcv)) as [->|Hne].
    + rewrite !elem_of_cons. split.
      * intros [[= -> ->]|Hin].
        -- right. split; [done|]. left. exists ts0. split; [|done].
           apply elem_of_cons. by left.
        -- left. split; [|by right]. intros ->. by apply (Hno ts).
      * intros [[Hr [[= ? ?]|Hin]]|[-> [(ts1 & Hin & ->)|[Hk _]]]].
        -- done.
        -- by right.
        -- apply elem_of_cons in Hin as [[= ->]|Hin]; [by left|].
           by destruct (Hno ts1).
        -- exfalso. apply Hk. cbn [fmap list_fmap fst]. apply elem_of_cons. by left.
    + rewrite !elem_of_cons, IH. split.
      * intros [[= -> ->]|[[Hr Hin]|[-> [(ts1 & Hin & ->)|[Hk ->]]]]].
        -- left. split; [done|]. by left.
        -- left. split; [done|]. by right.
        -- right. split; [done|]. left. exists ts1. split; [|done].
           apply elem_of_cons. by right.
        -- right. split; [done|]. right. split; [|done].
           cbn [fmap list_fmap fst]. intros H.
           apply elem_of_cons in H as [?|?]; [by subst|done].
      * intros [[Hr [[= -> ->]|Hin]]|[-> [(ts1 & Hin & ->)|[Hk ->]]]].
        -- by left.
        -- right. left. by split.
        -- apply elem_of_cons in Hin as [[= ? _]|Hin]; [done|].
           right. right. split; [done|]. left. by exists ts1.
        -- right. right. split; [done|]. right. split; [|done].
           intros Hin. apply Hk. cbn [fmap list_fmap fst]. apply elem_of_cons.
           by right.
Qed.

Lemma setdefault_append_length rcv t (tm : timestamp_map) :
  length (Track.setdefault_append rcv t tm) <= S (length tm).
Proof.
  induction tm as [|[r ts] tm IH]; cbn [Track.setdefault_append length]; [lia|].
  destruct (decide (r = rcv)); cbn [length]; lia.
Qed.

Lemma build_timestamp_map_snoc bl cps rcv t :
  build_timestamp_map bl (cps ++ [(rcv, t)])
  = if bool_decide (user rcv ∈ bl) then build_timestamp_map bl cps
    else Track.setdefault_append rcv t (build_timestamp_map bl cps).
Proof. unfold Track.build_timestamp_map. by rewrite fold_left_app. Qed.

(** The receivers of the map are not blacklisted and sent a copy. *)
Lemma build_timestamp_map_keys (bl : gset string) (cps : list (receiver * Q)) r :
  r ∈ (build_timestamp_map bl cps).*1 ->
  (user r ∉ bl) /\ exists t, In (r, t) cps.
Proof.
  induction cps as [|[rcv t] cps IH] using rev_ind.
  - intros H. by apply elem_of_nil in H.
  - rewrite build_timestamp_map_snoc.
    assert (r ∈ (build_timestamp_map bl cps).*1 ->
            (user r ∉ bl) /\ exists t0, In (r, t0) (cps ++ [(rcv, t)])) as Hold.
    { intros H. destruct (IH H) as (Hu & t0 & Ht0). split; [done|].
      exists t0. apply in_app_iff. by left. }
    destruct (bool_decide (user rcv ∈ bl)) eqn:Hbl; [done|].
    apply bool_decide_eq_false in Hbl. rewrite setdefault_append_keys.
    destruct (decide (rcv ∈ _)); [done|].
    intros H. apply elem_of_app in H as [H|H]; [by apply Hold|].
    apply list_elem_of_singleton in H. subst r. split; [done|].
    exists t. apply in_app_iff. right. by left.
Qed.

(** X11.  The timestamp map has one entry per receiver that is not
    blacklisted and sent a copy; the entry lists that receiver's
    timestamps in order of arrival. *)
Theorem timestamp_map_contents (bl : gset string) (cps : list (receiver * Q)) :
  NoDup (build_timestamp_map bl cps).*1 /\
  (forall r ts,
      (r, ts) ∈ build_timestamp_map bl cps <->
      (user r ∉ bl) /\ ts <> [] /\ ts = (filter (fun c => c.1 = r) cps).*2) /\
  length (build_timestamp_map bl cps) <= length cps.
Proof.
  induction cps as [|[rcv t] cps (Hnd & Hin & Hlen)] using rev_ind.
  - split; [constructor|]. split; [|done].
    intros r ts. split; [by intros ?%elem_of_nil|]. by intros (_ & ? & ->).
  - rewrite build_timestamp_map_snoc, length_app. cbn [length].
    assert (forall r, (filter (fun c : receiver * Q => c.1 = r) (cps ++ [(rcv, t)])).*2
                      = (filter (fun c : receiver * Q => c.1 = r) cps).*2
                          ++ (if decide (rcv = r) then [t] else [])) as Hf.
    { intros r. rewrite filter_app, fmap_app. f_equal.
      rewrite filter_cons, filter_nil. cbn [fst]. by destruct (decide (rcv = r)). }
    destruct (bool_decide (user rcv ∈ bl)) eqn:Hbl.
    + apply bool_decide_eq_true in Hbl.
      split; [done|]. split; [|lia].
      intros r ts. rewrite Hin, Hf.
      destruct (decide (rcv = r)) as [->|]; [|by rewrite app_nil_r].
      split; by intros [? _].
    + apply bool_decide_eq_false in Hbl.
      split; [|split].
      * rewrite setdefault_append_keys.
        destruct (decide (rcv ∈ _)) as [|Hout]; [done|].
        apply NoDup_app. split; [done|]. split; [|apply NoDup_singleton].
        intros x Hx Hx'. apply list_elem_of_singleton in Hx'. by subst.
      * intros r ts. rewrite setdefault_append_elem by done. rewrite Hf.
        split.
        -- intros [[Hr Hi]|[-> [(ts0 & Hi & ->)|[Hk ->]]]].
           ++ apply Hin in Hi as (? & ? & ?). rewrite decide_False by done.
              by rewrite app_nil_r.
           ++ apply Hin in Hi as (_ & _ & <-). rewrite decide_True by done.
              split; [done|]. split; [|done]. by destruct ts0.
           ++ rewrite decide_True by done. split; [done|]. split; [done|].
              destruct ((filter (fun c : receiver * Q => c.1 = rcv) cps).*2)
                as [|x l] eqn:Hl; [done|].
              exfalso. apply Hk. apply list_elem_of_fmap.
              exists (rcv, x :: l). split; [done|]. apply Hin. by rewrite Hl.
        -- intros (Hu & Hne & ->).
           destruct (decide (rcv = r)) as [->|Hr].
           ++ right. split; [done|].
              destruct ((filter (fun c : receiver * Q => c.1 = r) cps).*2)
                as [|x l] eqn:Hl.
              ** right. split; [|done].
                 intros Hk. apply list_elem_of_fmap in Hk as ((r' & ts') & Hr & Hi).
                 cbn [fst] in Hr. subst r'.
                 apply Hin in Hi as (_ & Hn & He). rewrite Hl in He. done.
              ** left. exists (x :: l). split; [|done]. apply Hin. by rewrite Hl.
           ++ left. split; [done|]. apply Hin. rewrite app_nil_r in *. done.
      * pose proof (setdefault_append_length rcv t (build_timestamp_map bl cps)). lia.
Qed.

End TimestampMap.

(** ** More on the resolution pipeline *)

Section TrackMore.
Variable kalman : Type.
Variable user : receiver -> string.
Variable position : receiver -> ecef.
Variable distance : receiver -> receiver -> Q.
Variable Cair : Q.
Variable FTOM : Q.
Variable MLAT_DELAY : Q.
Variable decode : string -> option DecodedMessage.
Variable normalize : timestamp_map -> list component.
Variable solve : list entry -> option Q -> option Q -> ecef -> option (ecef * option ecef_cov).
Variable kalman_update : kalman -> Q -> list entry -> option Q -> option Q ->
  ecef -> option ecef_cov -> nat -> kalman.

Local Abbreviation Aircraft := (Track.Aircraft kalman).
Local Abbreviation MlatTracker := (Track.MlatTracker kalman).
Local Abbreviation outcome := (Track.outcome kalman).
Local Abbreviation resolve :=
  (Track.resolve kalman user position distance Cair FTOM MLAT_DELAY decode
     normalize solve kalman_update).
Local Abbreviation commit := (Track.commit kalman position kalman_update).
Local Abbreviation accept_loop := (Track.accept_loop kalman position MLAT_DELAY solve).
Local Abbreviation gather_clusters := (Track.gather_clusters kalman distance Cair).
Local Abbreviation seed_position := (Track.seed_position position).
Local Abbreviation stops := (Track.stops MLAT_DELAY).
Local Abbreviation altitude_model := (Track.altitude_model kalman FTOM).
Local Abbreviation prior_context := (Track.prior_context kalman).
Local Abbreviation refresh := (Track.refresh kalman).
Local Abbreviation build_timestamp_map := (Track.build_timestamp_map user).
Local Abbreviation set_pending := (Track.set_pending kalman).
Local Abbreviation set_aircraft := (Track.set_aircraft kalman).
Local Abbreviation set_last_result := (Track.set_last_result kalman).
Local Abbreviation mkOutcome := (Track.mkOutcome kalman).
Local Abbreviation EvDecode := (Track.EvDecode kalman).
Local Abbreviation EvNormalize := (Track.EvNormalize kalman).
Local Abbreviation EvCluster := (Track.EvCluster kalman).
Local Abbreviation EvSolve := (Track.EvSolve kalman).
Local Abbreviation EvOutput := (Track.EvOutput kalman).
Local Abbreviation EvKalman := (Track.EvKalman kalman).
Local Abbreviation pending := (Track.pending kalman).
Local Abbreviation aircraft := (Track.aircraft kalman).
Local Abbreviation blacklist := (Track.blacklist kalman).
Local Abbreviation o_state := (Track.o_state kalman).
Local Abbreviation o_events := (Track.o_events kalman).
Local Abbreviation o_raised := (Track.o_raised kalman).

(** The tracker once the group has left the table. *)
Local Abbreviation departed st group :=
  (set_pending st (delete (message group) (pending st))).

(** The tracker once the aircraft has been refreshed as well. *)
Local Abbreviation refreshed st now group decoded ac :=
  (set_aircraft (departed st group)
     (<[address decoded := refresh ac decoded now]> (aircraft st))).

(** What [_resolve] works with once the aircraft [ac] is refreshed. *)
Local Abbreviation ac1 now decoded ac := (refresh ac decoded now).
Local Abbreviation lrp now decoded ac := (prior_context (ac1 now decoded ac) now).1.1.1.
Local Abbreviation lrv now decoded ac := (prior_context (ac1 now decoded ac) now).1.1.2.
Local Abbreviation lrd now decoded ac := (prior_context (ac1 now decoded ac) now).1.2.
Local Abbreviation elapsed now decoded ac := (prior_context (ac1 now decoded ac) now).2.
Local Abbreviation alt now decoded ac := (altitude_model (ac1 now decoded ac) now).1.1.
Local Abbreviation alt_error now decoded ac := (altitude_model (ac1 now decoded ac) now).1.2.
Local Abbreviation min_receivers now decoded ac :=
  (altitude_model (ac1 now decoded ac) now).2.
Local Abbreviation tm st group := (build_timestamp_map (blacklist st) (copies group)).
Local Abbreviation ev0 st group :=
  ([EvDecode (message group)] ++ [EvNormalize (tm st group)]).
Local Abbreviation gathered st now group decoded ac :=
  (gather_clusters (normalize (tm st group)) (min_receivers now decoded ac)).
Local Abbreviation looped now decoded ac clusters :=
  (accept_loop (lrp now decoded ac) (lrv now decoded ac) (lrd now decoded ac)
     (elapsed now decoded ac) (alt now decoded ac) (alt_error now decoded ac)
     (Track.pop_order clusters)).
Local Abbreviation committing st now group decoded ac a :=
  (commit (refreshed st now group decoded ac) now group decoded (ac1 now decoded ac)
     (alt now decoded ac) (alt_error now decoded ac) (min_receivers now decoded ac) a).

(** The aircraft is found and the group passes the minimum-receiver
    check and the rate limit. *)
Local Abbreviation eligible st now group decoded ac :=
  (3 <= length (copies group) /\
   decode (message group) = Some decoded /\
   aircraft st !! address decoded = Some ac /\
   min_receivers now decoded ac <= length (tm st group) /\
   Track.ratelimited (elapsed now decoded ac) (length (tm st group))
     (lrd now decoded ac) = false).

(** The ways in which a resolution can end: to prove something of every
    outcome of [_resolve], prove it of each exit. *)
Lemma resolve_exits (P : outcome -> Prop) (st : MlatTracker) now group :
  (pending st !! message group = None ->
   P (mkOutcome st [] (Some KeyError))) ->
  (forall g0, pending st !! message group = Some g0 ->
     length (copies group) < 3 ->
     P (mkOutcome (departed st group) [] None)) ->
  (forall g0, pending st !! message group = Some g0 ->
     3 <= length (copies group) ->
     decode (message group) = None ->
     P (mkOutcome (departed st group) [EvDecode (message group)]
          (Some AttributeError))) ->
  (forall g0 decoded, pending st !! message group = Some g0 ->
     3 <= length (copies group) ->
     decode (message group) = Some decoded ->
     aircraft st !! address decoded = None ->
     P (mkOutcome (departed st group) [EvDecode (message group)] None)) ->
  (forall g0 decoded ac, pending st !! message group = Some g0 ->
     3 <= length (copies group) ->
     decode (message group) = Some decoded ->
     aircraft st !! address decoded = Some ac ->
     length (tm st group) < min_receivers now decoded ac \/
     Track.ratelimited (elapsed now decoded ac) (length (tm st group))
       (lrd now decoded ac) = true ->
     P (mkOutcome (refreshed st now group decoded ac)
          [EvDecode (message group)] None)) ->
  (forall g0 decoded ac e ev1, pending st !! message group = Some g0 ->
     eligible st now group decoded ac ->
     gathered st now group decoded ac = (Raise e, ev1) ->
     P (mkOutcome (refreshed st now group decoded ac)
          (ev0 st group ++ ev1) (Some e))) ->
  (forall g0 decoded ac ev1, pending st !! message group = Some g0 ->
     eligible st now group decoded ac ->
     gathered st now group decoded ac = (Ok [], ev1) ->
     P (mkOutcome (refreshed st now group decoded ac)
          (ev0 st group ++ ev1) None)) ->
  (forall g0 decoded ac clusters ev1 e ev2,
     pending st !! message group = Some g0 ->
     eligible st now group decoded ac ->
     gathered st now group decoded ac = (Ok clusters, ev1) ->
     clusters <> [] ->
     looped now decoded ac clusters = (Raise e, ev2) ->
     P (mkOutcome (refreshed st now group decoded ac)
          ((ev0 st group ++ ev1) ++ ev2) (Some e))) ->
  (forall g0 decoded ac clusters ev1 ev2,
     pending st !! message group = Some g0 ->
     eligible st now group decoded ac ->
     gathered st now group decoded ac = (Ok clusters, ev1) ->
     clusters <> [] ->
     looped now decoded ac clusters = (Ok None, ev2) ->
     P (mkOutcome (refreshed st now group decoded ac)
          ((ev0 st group ++ ev1) ++ ev2) None)) ->
  (forall g0 decoded ac clusters ev1 a ev2,
     pending st !! message group = Some g0 ->
     eligible st now group decoded ac ->
     gathered st now group decoded ac = (Ok clusters, ev1) ->
     clusters <> [] ->
     looped now decoded ac clusters = (Ok (Some a), ev2) ->
     P (mkOutcome (o_state (committing st now group decoded ac a))
          (((ev0 st group ++ ev1) ++ ev2)
             ++ o_events (committing st now group decoded ac a))
          (o_raised (committing st now group decoded ac a)))) ->
  P (resolve st now group).
Proof.
  intros H1 H2 H3 H4 H5 H6 H7 H8 H9 H10. unfold Track.resolve.
  destruct (pending st !! message group) as [g0|] eqn:Hp; [|by apply H1].
  destruct (length (copies group) <? 3) eqn:Hlen.
  { apply Nat.ltb_lt in Hlen. by apply (H2 g0). }
  apply Nat.ltb_ge in Hlen.
  destruct (decode (message group)) as [decoded|] eqn:Hd; [|by apply (H3 g0)].
  cbn [Track.aircraft Track.blacklist Track.pending Track.set_pending
       Track.set_aircraft].
  destruct (aircraft st !! address decoded) as [ac|] eqn:Ha;
    [|by apply (H4 g0 decoded)].
  cbv zeta.
  cbn [Track.aircraft Track.blacklist Track.pending Track.set_pending
       Track.set_aircraft].
  specialize (H5 g0 decoded ac eq_refl Hlen eq_refl Ha).
  specialize (H6 g0 decoded ac). specialize (H7 g0 decoded ac).
  specialize (H8 g0 decoded ac). specialize (H9 g0 decoded ac).
  specialize (H10 g0 decoded ac).
  destruct (prior_context (refresh ac decoded now) now)
    as [[[lrp0 lrv0] lrd0] elapsed0].
  destruct (altitude_model (refresh ac decoded now) now)
    as [[alt0 alt_error0] min0].
  cbn [fst snd] in *.
  destruct (length (tm st group) <? min0) eqn:Hmin.
  { apply Nat.ltb_lt in Hmin. apply H5. by left. }
  apply Nat.ltb_ge in Hmin.
  destruct (Track.ratelimited elapsed0 (length (tm st group)) lrd0) eqn:Hr.
  { apply H5. by right. }
  assert (3 <= length (copies group) /\ Some decoded = Some decoded /\
          aircraft st !! address decoded = Some ac /\
          min0 <= length (tm st group) /\ false = false) as Hadm by done.
  destruct (gather_clusters (normalize (tm st group)) min0) as [r ev1].
  destruct r as [[|cl cls]|e];
    [by apply (H7 ev1)| |by apply (H6 e ev1)].
  destruct (accept_loop lrp0 lrv0 lrd0 elapsed0 alt0 alt_error0
              (Track.pop_order (cl :: cls))) as [r2 ev2] eqn:Hloop.
  destruct r2 as [[a|]|e].
  - by apply (H10 (cl :: cls) ev1 a ev2).
  - by apply (H9 (cl :: cls) ev1 ev2).
  - by apply (H8 (cl :: cls) ev1 e ev2).
Qed.

(** *** Where clusters and events come from *)

Lemma sort_cluster_perm c : Track.sort_cluster c ≡ₚ c.
Proof. apply sort_by_perm. Qed.

Lemma min_receivers_3_or_4 (ac : Aircraft) now :
  (altitude_model ac now).2 = 3 \/ (altitude_model ac now).2 = 4.
Proof.
  unfold Track.altitude_model. destruct (Track.ac_altitude kalman ac); [|by right].
  destruct (Qltb _ _); [by left|by right].
Qed.

Lemma gather_clusters_Ok components min cls ev :
  gather_clusters components min = (Ok cls, ev) ->
  forall dm, In dm cls ->
    exists c cl, In c components /\ min <= length c /\
                 Cluster.cluster_timestamps distance Cair c min = Ok cl /\ In dm cl.
Proof.
  revert cls ev. induction components as [|c rest IH]; intros cls ev;
    cbn [Track.gather_clusters].
  - by intros [= <- <-] dm [].
  - destruct (min <=? length c) eqn:Hmin.
    + destruct (Cluster.cluster_timestamps distance Cair c min) as [cl|e] eqn:Hc;
        [|done].
      destruct (gather_clusters rest min) as [[cls'|e] ev'] eqn:Hg; [|done].
      intros [= <- <-] dm Hin. apply in_app_iff in Hin as [Hin|Hin].
      * exists c, cl. apply Nat.leb_le in Hmin. repeat split; auto. by left.
      * destruct (IH cls' ev' eq_refl dm Hin) as (c' & cl' & Hc' & H').
        exists c', cl'. split; [by right|done].
    + intros Hg dm Hin. destruct (IH cls ev Hg dm Hin) as (c' & cl' & Hc' & H').
      exists c', cl'. split; [by right|done].
Qed.

Lemma cluster_timestamps_Raise c min e :
  Cluster.cluster_timestamps distance Cair c min = Raise e ->
  e = IndexError /\ forall r v ts, In (r, (v, ts)) c -> ts = [].
Proof.
  intros H. rewrite <- flatten_nil. revert H. unfold Cluster.cluster_timestamps.
  pose proof (sort_timestamps_perm (Cluster.flatten c)) as Hperm.
  destruct (Cluster.sort_timestamps (Cluster.flatten c)); [|done].
  intros [= <-]. split; [done|]. by apply Permutation_nil in Hperm.
Qed.

Lemma gather_clusters_Raise components min e ev :
  gather_clusters components min = (Raise e, ev) ->
  e = IndexError /\
  exists c, In c components /\ min <= length c /\
            forall r v ts, In (r, (v, ts)) c -> ts = [].
Proof.
  revert ev. induction components as [|c rest IH]; intros ev;
    cbn [Track.gather_clusters]; [done|].
  destruct (min <=? length c) eqn:Hmin.
  - apply Nat.leb_le in Hmin.
    destruct (Cluster.cluster_timestamps distance Cair c min) as [cl|e'] eqn:Hc.
    + destruct (gather_clusters rest min) as [[cls'|e'] ev'] eqn:Hg; [done|].
      intros [= <- <-]. destruct (IH ev' eq_refl) as (-> & c' & Hc' & H').
      split; [done|]. exists c'. split; [by right|done].
    + intros [= <- <-]. apply cluster_timestamps_Raise in Hc as [-> Hc].
      split; [done|]. exists c. split; [by left|done].
  - intros Hg. destruct (IH ev Hg) as (-> & c' & Hc' & H').
    split; [done|]. exists c'. split; [by right|done].
Qed.

Lemma gather_clusters_trace components min :
  Forall (fun e => exists c m, e = EvCluster c m) (gather_clusters components min).2.
Proof.
  induction components as [|c rest IH]; cbn [Track.gather_clusters]; [by constructor|].
  destruct (min <=? length c); [|done].
  destruct (Cluster.cluster_timestamps distance Cair c min).
  - destruct (gather_clusters rest min) as [r ev]. constructor; [by eauto|done].
  - constructor; [by eauto|constructor].
Qed.

Lemma accept_loop_trace lrp lrv lrd elapsed alt alt_error stack :
  Forall (fun e => exists cl a b s, e = EvSolve cl a b s)
    (accept_loop lrp lrv lrd elapsed alt alt_error stack).2.
Proof.
  induction stack as [|[d c] rest IH]; cbn [Track.accept_loop]; [by constructor|].
  destruct (stops elapsed d lrd); [by constructor|].
  destruct (seed_position lrp (Track.sort_cluster c)) as [seed|]; [|by constructor].
  destruct (accept_loop lrp lrv lrd elapsed alt alt_error rest) as [r ev].
  assert (Forall (fun e => exists cl a b s, e = EvSolve cl a b s)
            (EvSolve (Track.sort_cluster c) alt alt_error seed :: ev)) as Hgo
    by (constructor; [by eauto|done]).
  destruct (solve _ _ _ _) as [[pos cov]|]; [|done].
  destruct (Qgtb _ _); [done|]. destruct (_ && _); [done|].
  constructor; [by eauto|constructor].
Qed.

(** The accepted result is the solver's answer for one of the clusters
    of the stack, sorted by timestamp. *)
Lemma accept_loop_origin lrp lrv lrd elapsed alt alt_error stack
    pos cov var_est d cl ev :
  accept_loop lrp lrv lrd elapsed alt alt_error stack
  = (Ok (Some (pos, cov, var_est, d, cl)), ev) ->
  exists c seed,
    In (d, c) stack /\ cl = Track.sort_cluster c /\
    seed_position lrp cl = Ok seed /\
    solve cl alt alt_error seed = Some (pos, cov) /\
    var_est = Track.var_estimate cov.
Proof.
  revert ev. induction stack as [|[d0 c0] rest IH]; intros ev;
    cbn [Track.accept_loop]; [done|].
  destruct (stops elapsed d0 lrd); [done|].
  destruct (seed_position lrp (Track.sort_cluster c0)) as [seed|] eqn:Hseed; [|done].
  destruct (accept_loop lrp lrv lrd elapsed alt alt_error rest) as [r ev'] eqn:Hrest.
  assert ((r, EvSolve (Track.sort_cluster c0) alt alt_error seed :: ev')
          = (Ok (Some (pos, cov, var_est, d, cl)), ev) ->
          exists c seed0,
            In (d, c) ((d0, c0) :: rest) /\ cl = Track.sort_cluster c /\
            seed_position lrp cl = Ok seed0 /\
            solve cl alt alt_error seed0 = Some (pos, cov) /\
            var_est = Track.var_estimate cov) as Hgo.
  { intros [= -> <-]. destruct (IH ev' eq_refl) as (c & s & Hin & H').
    exists c, s. split; [by right|done]. }
  destruct (solve _ _ _ _) as [[pos0 cov0]|] eqn:Hsolve; [|done].
  destruct (Qgtb _ _); [done|]. destruct (_ && _); [done|].
  intros [= <- <- <- <- <- <-]. exists c0, seed. split; [by left|done].
Qed.

(** With non-empty clusters the loop raises nothing. *)
Lemma accept_loop_no_raise lrp lrv lrd elapsed alt alt_error stack e ev :
  (forall d c, In (d, c) stack -> c <> []) ->
  accept_loop lrp lrv lrd elapsed alt alt_error stack <> (Raise e, ev).
Proof.
  revert ev. induction stack as [|[d0 c0] rest IH]; intros ev Hne;
    cbn [Track.accept_loop]; [done|].
  destruct (stops elapsed d0 lrd); [done|].
  assert (c0 <> []) as Hc0 by (apply (Hne d0); by left).
  assert (Track.sort_cluster c0 <> []) as Hs.
  { intros Hnil. apply Hc0. apply Permutation_nil.
    rewrite <- Hnil. apply sort_cluster_perm. }
  unfold Track.seed_position at 1.
  destruct (accept_loop lrp lrv lrd elapsed alt alt_error rest) as [r ev'] eqn:Hrest.
  assert (forall s, (r, EvSolve (Track.sort_cluster c0) alt alt_error s :: ev')
                    <> (Raise e, ev)) as Hgo.
  { intros s [= -> <-]. apply (IH ev'); [|done].
    intros d c Hin. apply (Hne d). by right. }
  destruct lrp as [p|].
  - destruct (solve _ _ _ _) as [[pos cov]|]; [|done].
    destruct (Qgtb _ _); [done|]. by destruct (_ && _).
  - destruct (Track.sort_cluster c0) as [|first l]; [done|].
    destruct (solve _ _ _ _) as [[pos cov]|]; [|done].
    destruct (Qgtb _ _); [done|]. by destruct (_ && _).
Qed.

(** A cluster kept by [_cluster_timestamps]: quorum, size, receivers. *)
Lemma kept_cluster_facts c min cl d m :
  Cluster.cluster_timestamps distance Cair c min = Ok cl -> In (d, m) cl ->
  min <= d /\ d <= length m /\ NoDup (map e_receiver m).
Proof.
  intros Hc Hin.
  destruct (cluster_timestamps_In _ _ _ _ _ _ _ Hc Hin)
    as (g0 & tail & g' & c' & Hf & -> & Hmin).
  split; [done|]. split.
  - rewrite length_rev. by apply form_cluster_count in Hf as [_ ?].
  - apply (pairwise_feasible_NoDup distance Cair).
    by apply form_cluster_pairwise in Hf.
Qed.

(** The clusters that reach the acceptance loop. *)
Lemma gathered_cluster_facts components min cls ev d c :
  gather_clusters components min = (Ok cls, ev) ->
  In (d, c) (Track.pop_order cls) ->
  min <= d /\ d <= length c /\ NoDup (map e_receiver c).
Proof.
  intros Hg Hin.
  apply list_elem_of_In in Hin. rewrite pop_order_perm in Hin.
  apply list_elem_of_In in Hin.
  destruct (gather_clusters_Ok _ _ _ _ Hg _ Hin) as (c0 & cl & _ & _ & Hc & Hin').
  by eapply kept_cluster_facts.
Qed.

(** Nothing is output before the commit. *)
Lemma before_commit_no_output (st : MlatTracker) now group decoded ac r ev1 :
  gathered st now group decoded ac = (r, ev1) ->
  Forall (fun e => Trace.is_output kalman e = false) (ev0 st group ++ ev1) /\
  forall clusters r2 ev2,
    looped now decoded ac clusters = (r2, ev2) ->
    Forall (fun e => Trace.is_output kalman e = false) ((ev0 st group ++ ev1) ++ ev2).
Proof.
  intros Hg.
  assert (Forall (fun e => Trace.is_output kalman e = false) (ev0 st group ++ ev1))
    as H01.
  { apply Forall_app. split; [by repeat constructor|].
    pose proof (gather_clusters_trace (normalize (tm st group))
                  (min_receivers now decoded ac)) as Ht.
    rewrite Hg in Ht. eapply Forall_impl; [exact Ht|].
    by intros e (c & m & ->). }
  split; [done|]. intros clusters r2 ev2 Hl. apply Forall_app. split; [done|].
  pose proof (accept_loop_trace (lrp now decoded ac) (lrv now decoded ac)
                (lrd now decoded ac) (elapsed now decoded ac) (alt now decoded ac)
                (alt_error now decoded ac) (Track.pop_order clusters)) as Ht.
  rewrite Hl in Ht. eapply Forall_impl; [exact Ht|].
  by intros e (cl & a & b & s & ->).
Qed.

Lemma no_output_In (l : list (Track.event kalman)) h first addr pos cov rcvs distinct k :
  Forall (fun e => Trace.is_output kalman e = false) l ->
  ~ In (EvOutput h first addr pos cov rcvs distinct k) l.
Proof.
  intros Hall Hin. rewrite Forall_forall in Hall.
  by specialize (Hall _ (proj2 (list_elem_of_In _ _) Hin)).
Qed.

(** What the handlers are told at a commit. *)
Lemma commit_outputs (st : MlatTracker) now group decoded (ac : Aircraft)
    alt_ alt_error_ min_ p c v d cl h first addr pos cov rcvs distinct k :
  In (EvOutput h first addr pos cov rcvs distinct k)
    (o_events (commit st now group decoded ac alt_ alt_error_ min_ (p, c, v, d, cl))) ->
  h < Track.output_handlers kalman st /\ first = first_seen group /\
  addr = address decoded /\ pos = p /\ cov = c /\
  rcvs = map e_receiver cl /\ distinct = d.
Proof.
  assert (forall l,
    In (EvOutput h first addr pos cov rcvs distinct k)
      (map (fun h0 => EvOutput h0 (first_seen group) (address decoded) p c
                        (map e_receiver cl) d
                        (kalman_update (Track.ac_kalman kalman ac) (first_seen group)
                           cl alt_ alt_error_ p c d)) l) ->
    In h l /\ first = first_seen group /\ addr = address decoded /\ pos = p /\
    cov = c /\ rcvs = map e_receiver cl /\ distinct = d) as Hmap.
  { intros l Hin. apply in_map_iff in Hin as (h0 & [= -> -> -> -> -> -> -> _] & Hin).
    done. }
  assert (forall l : list (Track.event kalman),
    In (EvOutput h first addr pos cov rcvs distinct k)
      ([EvKalman (first_seen group) cl alt_ alt_error_ p c d]
         ++ (if 3 <? min_ then [Track.EvLog kalman (address decoded) p alt_ alt_error_]
             else [])
         ++ l) ->
    In (EvOutput h first addr pos cov rcvs distinct k) l) as Hpre.
  { intros l Hin. destruct (3 <? min_); cbn [app In] in Hin;
      [by destruct Hin as [|[|]] | by destruct Hin as [|]]. }
  unfold Track.commit. cbn [Track.output_handlers Track.set_aircraft
                            Track.pseudorange_file].
  intros Hin.
  assert (In (EvOutput h first addr pos cov rcvs distinct k)
            (map (fun h0 => EvOutput h0 (first_seen group) (address decoded) p c
                              (map e_receiver cl) d
                              (kalman_update (Track.ac_kalman kalman ac)
                                 (first_seen group) cl alt_ alt_error_ p c d))
               (seq 0 (Track.output_handlers kalman st)))) as Hin'.
  { destruct (Track.pseudorange_file kalman st); [|by apply Hpre].
    destruct cl as [|first0 cl0]; [by apply Hpre|].
    destruct c as [c|]; [|by apply Hpre].
    cbn [Track.o_events] in Hin. rewrite in_app_iff in Hin.
    destruct Hin as [Hin|[Hin|[]]]; [by apply Hpre|done]. }
  apply Hmap in Hin' as (Hh & H'). split; [|done].
  apply in_seq in Hh. lia.
Qed.

(** X6.  Whatever else happens, a resolution of a pending group removes
    that group from the table and changes nothing else of the tracker
    but the aircraft of the decoded address: the other pending groups,
    the blacklist, the handlers, the log file and every other aircraft
    are as before. *)
Theorem resolve_frame (st : MlatTracker) now group g0 :
  pending st !! message group = Some g0 ->
  pending (o_state (resolve st now group)) = delete (message group) (pending st) /\
  blacklist (o_state (resolve st now group)) = blacklist st /\
  Track.output_handlers kalman (o_state (resolve st now group))
  = Track.output_handlers kalman st /\
  Track.pseudorange_file kalman (o_state (resolve st now group))
  = Track.pseudorange_file kalman st /\
  (forall a, (forall d, decode (message group) = Some d -> address d <> a) ->
             aircraft (o_state (resolve st now group)) !! a = aircraft st !! a).
Proof.
  intros Hp.
  apply (resolve_exits
           (fun o =>
              pending (o_state o) = delete (message group) (pending st) /\
              blacklist (o_state o) = blacklist st /\
              Track.output_handlers kalman (o_state o)
              = Track.output_handlers kalman st /\
              Track.pseudorange_file kalman (o_state o)
              = Track.pseudorange_file kalman st /\
              (forall a, (forall d, decode (message group) = Some d -> address d <> a) ->
                         aircraft (o_state o) !! a = aircraft st !! a))).
  - intros Hnone. by rewrite Hnone in Hp.
  - done.
  - done.
  - done.
  - intros g1 decoded ac _ _ Hd _ _. repeat split.
    intros a Hne. cbn [Track.o_state Track.aircraft Track.set_aircraft].
    apply lookup_insert_ne. by apply Hne.
  - intros g1 decoded ac e ev1 _ (_ & Hd & _) _. repeat split.
    intros a Hne. cbn [Track.o_state Track.aircraft Track.set_aircraft].
    apply lookup_insert_ne. by apply Hne.
  - intros g1 decoded ac ev1 _ (_ & Hd & _) _. repeat split.
    intros a Hne. cbn [Track.o_state Track.aircraft Track.set_aircraft].
    apply lookup_insert_ne. by apply Hne.
  - intros g1 decoded ac clusters ev1 e ev2 _ (_ & Hd & _) _ _ _. repeat split.
    intros a Hne. cbn [Track.o_state Track.aircraft Track.set_aircraft].
    apply lookup_insert_ne. by apply Hne.
  - intros g1 decoded ac clusters ev1 ev2 _ (_ & Hd & _) _ _ _. repeat split.
    intros a Hne. cbn [Track.o_state Track.aircraft Track.set_aircraft].
    apply lookup_insert_ne. by apply Hne.
  - intros g1 decoded ac clusters ev1 [[[[p c] v] d] cl] ev2 _ (_ & Hd & _) _ _ _.
    cbn [Track.o_state]. rewrite commit_state. repeat split.
    intros a Hne. cbn [Track.o_state Track.aircraft Track.set_aircraft].
    rewrite !lookup_insert_ne by by apply Hne. done.
Qed.

(** X7.  An output handler is only ever called for a cluster that meets
    the quorum: the distinct count handed over is at least 3 and at most
    the number of receivers handed over, these receivers are pairwise
    different, the time is the group's [first_seen], the address is the
    decoded one, and the handler is one of those registered. *)
Theorem outputs_have_quorum (st : MlatTracker) now group
    h first addr pos cov rcvs distinct k :
  In (EvOutput h first addr pos cov rcvs distinct k)
    (o_events (resolve st now group)) ->
  3 <= distinct /\ distinct <= length rcvs /\ NoDup rcvs /\
  first = first_seen group /\ h < Track.output_handlers kalman st /\
  exists decoded, decode (message group) = Some decoded /\ addr = address decoded.
Proof.
  apply (resolve_exits
           (fun o =>
              In (EvOutput h first addr pos cov rcvs distinct k) (o_events o) ->
              3 <= distinct /\ distinct <= length rcvs /\ NoDup rcvs /\
              first = first_seen group /\ h < Track.output_handlers kalman st /\
              exists decoded,
                decode (message group) = Some decoded /\ addr = address decoded));
    cbn [Track.o_events].
  - by intros _ [].
  - by intros g0 _ _ [].
  - by intros g0 _ _ _ [|[]].
  - by intros g0 decoded _ _ _ _ [|[]].
  - by intros g0 decoded ac _ _ _ _ _ [|[]].
  - intros g0 decoded ac e ev1 _ _ Hg Hin. exfalso.
    by eapply no_output_In; [apply (before_commit_no_output _ _ _ _ _ _ _ Hg)|].
  - intros g0 decoded ac ev1 _ _ Hg Hin. exfalso.
    by eapply no_output_In; [apply (before_commit_no_output _ _ _ _ _ _ _ Hg)|].
  - intros g0 decoded ac clusters ev1 e ev2 _ _ Hg _ Hl Hin. exfalso.
    eapply no_output_In; [|exact Hin].
    by eapply (proj2 (before_commit_no_output _ _ _ _ _ _ _ Hg)).
  - intros g0 decoded ac clusters ev1 ev2 _ _ Hg _ Hl Hin. exfalso.
    eapply no_output_In; [|exact Hin].
    by eapply (proj2 (before_commit_no_output _ _ _ _ _ _ _ Hg)).
  - intros g0 decoded ac clusters ev1 [[[[p c] v] d] cl] ev2 _ (_ & Hd & _)
      Hg _ Hl Hin.
    rewrite in_app_iff in Hin. destruct Hin as [Hin|Hin].
    { exfalso. eapply no_output_In; [|exact Hin].
      by eapply (proj2 (before_commit_no_output _ _ _ _ _ _ _ Hg)). }
    apply commit_outputs in Hin as (Hh & -> & -> & -> & -> & -> & ->).
    destruct (accept_loop_origin _ _ _ _ _ _ _ _ _ _ _ _ _ Hl)
      as (c0 & seed & Hin0 & -> & _).
    destruct (gathered_cluster_facts _ _ _ _ _ _ Hg Hin0) as (Hmin & Hlen & Hnd).
    pose proof (min_receivers_3_or_4 (refresh ac decoded now) now) as H34.
    pose proof (sort_cluster_perm c0) as Hperm.
    split; [lia|]. split; [by rewrite length_map, Hperm|].
    split; [by rewrite Hperm|]. split; [done|]. split; [done|]. by exists decoded.
Qed.

(** What a commit raises, and that it always reports to the Kalman
    filter first. *)
Lemma commit_raises (st : MlatTracker) now group decoded (ac : Aircraft)
    alt_ alt_error_ min_ p c v d cl e :
  o_raised (commit st now group decoded ac alt_ alt_error_ min_ (p, c, v, d, cl))
  = Some e ->
  Track.pseudorange_file kalman st = true /\
  ((cl = [] /\ e = IndexError) \/ (c = None /\ e = TypeError)).
Proof.
  unfold Track.commit. cbn [Track.pseudorange_file Track.set_aircraft].
  destruct (Track.pseudorange_file kalman st); [|done].
  destruct cl as [|first cl]; [intros [= <-]; auto|].
  destruct c as [c|]; [done|]. intros [= <-]. auto.
Qed.

Lemma commit_reports (st : MlatTracker) now group decoded (ac : Aircraft)
    alt_ alt_error_ min_ p c v d cl :
  In (EvKalman (first_seen group) cl alt_ alt_error_ p c d)
    (o_events (commit st now group decoded ac alt_ alt_error_ min_ (p, c, v, d, cl))).
Proof.
  unfold Track.commit.
  destruct (Track.pseudorange_file kalman _); [|by left].
  destruct cl as [|first cl]; [by left|]. destruct c; by left.
Qed.

(** The table after a resolution of a group that was in it. *)
Lemma resolve_pending (st : MlatTracker) now group g0 :
  pending st !! message group = Some g0 ->
  pending (o_state (resolve st now group)) = delete (message group) (pending st).
Proof.
  intros Hp.
  apply (resolve_exits
           (fun o => pending (o_state o) = delete (message group) (pending st)));
    try done.
  - intros Hnone. by rewrite Hnone in Hp.
  - intros g1 decoded ac clusters ev1 [[[[p c] v] d] cl] ev2 _ _ _ _ _.
    cbn [Track.o_state]. by rewrite commit_state.
Qed.

(** X8.  Where the exceptions of a resolution come from, the distance
    table and the externals left aside.  An AttributeError means that
    the decoder gave no message, and nothing but the decoding was done.
    An IndexError means that the normaliser returned a component that
    holds no timestamp (line 300): the lookups [cluster[0]] of lines 199
    and 251 always find a member.  A TypeError means that a result
    without covariance was committed while the pseudorange file is open,
    after the Kalman filter was updated. *)
Theorem resolve_exceptions (st : MlatTracker) now group e :
  o_raised (resolve st now group) = Some e ->
  (e = AttributeError ->
   decode (message group) = None /\
   o_events (resolve st now group) = [EvDecode (message group)]) /\
  (e = IndexError ->
   exists c, In c (normalize (tm st group)) /\
             forall r v ts, In (r, (v, ts)) c -> ts = []) /\
  (e = TypeError ->
   Track.pseudorange_file kalman st = true /\
   exists first cl a b pos d,
     In (EvKalman first cl a b pos None d) (o_events (resolve st now group))).
Proof.
  apply (resolve_exits
           (fun o =>
              o_raised o = Some e ->
              (e = AttributeError ->
               decode (message group) = None /\
               o_events o = [EvDecode (message group)]) /\
              (e = IndexError ->
               exists c, In c (normalize (tm st group)) /\
                         forall r v ts, In (r, (v, ts)) c -> ts = []) /\
              (e = TypeError ->
               Track.pseudorange_file kalman st = true /\
               exists first cl a b pos d,
                 In (EvKalman first cl a b pos None d) (o_events o))));
    cbn [Track.o_raised Track.o_events]; try done.
  - by intros Hp [= <-].
  - by intros g0 _ _ Hd [= <-].
  - intros g0 decoded ac e0 ev1 _ _ Hg [= <-].
    apply gather_clusters_Raise in Hg as (-> & c & Hc & _ & Hempty).
    split; [done|]. split; [|done]. intros _. by exists c.
  - intros g0 decoded ac clusters ev1 e0 ev2 _ _ Hg _ Hl _. exfalso.
    eapply accept_loop_no_raise; [|exact Hl].
    intros d c Hin.
    destruct (gathered_cluster_facts _ _ _ _ _ _ Hg Hin) as (Hmin & Hlen & _).
    pose proof (min_receivers_3_or_4 (refresh ac decoded now) now) as H34.
    intros ->. simpl in Hlen. lia.
  - intros g0 decoded ac clusters ev1 [[[[p c] v] d] cl] ev2 _ _ Hg _ Hl Hr.
    apply commit_raises in Hr as (Hfile & [[Hnil ->]|[-> ->]]).
    + exfalso.
      destruct (accept_loop_origin _ _ _ _ _ _ _ _ _ _ _ _ _ Hl)
        as (c0 & seed & Hin0 & -> & _).
      destruct (gathered_cluster_facts _ _ _ _ _ _ Hg Hin0) as (Hmin & Hlen & _).
      pose proof (min_receivers_3_or_4 (refresh ac decoded now) now) as H34.
      pose proof (sort_cluster_perm c0) as Hperm. rewrite Hnil in Hperm.
      apply Permutation_nil in Hperm. rewrite Hperm in Hlen. simpl in Hlen. lia.
    + split; [done|]. split; [done|]. intros _. split; [done|].
      eexists _, _, _, _, _, _. apply in_app_iff. right. apply commit_reports.
Qed.

(** X9.  A result accepted by the loop is the solver's answer for one of
    the candidate clusters, with a variance estimate of at most 100e6
    and, within 2 s of the prior result, at most 1.1 times the prior
    variance; within 10 s of the prior result it never has fewer
    distinct receivers, and within [MLAT_DELAY - 0.5] s never the same
    number; the solver has been called at most once per candidate. *)
Theorem accepted_respects_history lrp lrv lrd elapsed alt_ alt_error_ stack
    pos cov var_est d cl ev :
  accept_loop lrp lrv lrd elapsed alt_ alt_error_ stack
  = (Ok (Some (pos, cov, var_est, d, cl)), ev) ->
  (var_est <= 100e6)%Q /\
  ((elapsed < 2)%Q -> (var_est <= lrv * 1.1)%Q) /\
  ((elapsed < 10)%Q -> lrd <= d) /\
  ((elapsed < MLAT_DELAY - 0.5)%Q -> d <> lrd) /\
  (exists c seed,
     In (d, c) stack /\ cl = Track.sort_cluster c /\
     solve cl alt_ alt_error_ seed = Some (pos, cov) /\
     var_est = Track.var_estimate cov) /\
  0 < length ev <= length stack.
Proof.
  revert ev. induction stack as [|[d0 c0] rest IH]; intros ev;
    cbn [Track.accept_loop]; [done|].
  destruct (stops elapsed d0 lrd) eqn:Hstop; [done|].
  destruct (seed_position lrp (Track.sort_cluster c0)) as [seed|] eqn:Hseed; [|done].
  destruct (accept_loop lrp lrv lrd elapsed alt_ alt_error_ rest) as [r ev'] eqn:Hrest.
  assert ((r, EvSolve (Track.sort_cluster c0) alt_ alt_error_ seed :: ev')
          = (Ok (Some (pos, cov, var_est, d, cl)), ev) ->
          (var_est <= 100e6)%Q /\
          ((elapsed < 2)%Q -> (var_est <= lrv * 1.1)%Q) /\
          ((elapsed < 10)%Q -> lrd <= d) /\
          ((elapsed < MLAT_DELAY - 0.5)%Q -> d <> lrd) /\
          (exists c seed0,
             In (d, c) ((d0, c0) :: rest) /\ cl = Track.sort_cluster c /\
             solve cl alt_ alt_error_ seed0 = Some (pos, cov) /\
             var_est = Track.var_estimate cov) /\
          0 < length ev <= length ((d0, c0) :: rest)) as Hgo.
  { intros [= -> <-].
    destruct (IH ev' eq_refl) as (H1 & H2 & H3 & H4 & (c & s & Hin & H5) & H6).
    split; [done|]. split; [done|]. split; [done|]. split; [done|].
    split; [exists c, s; split; [by right|done]|]. clear - H6. unfold candidate in *. simpl. lia. }
  destruct (solve _ _ _ _) as [[pos0 cov0]|] eqn:Hsolve; [|done].
  destruct (Qgtb _ _) eqn:Hbig; [done|].
  destruct (_ && _) eqn:Hworse; [done|].
  intros [= <- <- <- <- <- <-].
  apply Qgtb_false in Hbig.
  assert (~ (((elapsed < 10)%Q /\ d0 < lrd) \/
             ((elapsed < MLAT_DELAY - 0.5)%Q /\ d0 = lrd))) as Hns.
  { intros H. apply stops_true in H. congruence. }
  split; [done|]. split.
  { intros Hrecent. apply Qltb_true in Hrecent. rewrite Hrecent in Hworse.
    by apply Qgtb_false in Hworse. }
  split.
  { intros H10. destruct (Nat.le_gt_cases lrd d0) as [|Hlt]; [done|].
    exfalso. apply Hns. left. by split. }
  split; [intros Hd ->; apply Hns; right; by split|].
  split; [|simpl; lia].
  exists c0, seed. split; [by left|done].
Qed.

(** *** The pseudorange record *)

(** Up to the commit a resolution only decodes, normalises, clusters and
    solves. *)
Local Abbreviation preparing e :=
  ((exists m, e = EvDecode m) \/ (exists t, e = EvNormalize t) \/
   (exists c m, e = EvCluster c m) \/ (exists cl a b s, e = EvSolve cl a b s)).

Lemma before_commit_trace (st : MlatTracker) now group decoded ac r ev1 :
  gathered st now group decoded ac = (r, ev1) ->
  Forall (fun e => preparing e) (ev0 st group ++ ev1) /\
  forall clusters r2 ev2,
    looped now decoded ac clusters = (r2, ev2) ->
    Forall (fun e => preparing e) ((ev0 st group ++ ev1) ++ ev2).
Proof.
  intros Hg.
  assert (Forall (fun e => preparing e) (ev0 st group ++ ev1)) as H01.
  { apply Forall_app. split.
    - constructor; [left; by eexists|]. constructor; [|constructor].
      right. left. by eexists.
    - pose proof (gather_clusters_trace (normalize (tm st group))
                    (min_receivers now decoded ac)) as Ht.
      rewrite Hg in Ht. eapply Forall_impl; [exact Ht|].
      intros e He. right. right. by left. }
  split; [done|]. intros clusters r2 ev2 Hl. apply Forall_app. split; [done|].
  pose proof (accept_loop_trace (lrp now decoded ac) (lrv now decoded ac)
                (lrd now decoded ac) (elapsed now decoded ac) (alt now decoded ac)
                (alt_error now decoded ac) (Track.pop_order clusters)) as Ht.
  rewrite Hl in Ht. eapply Forall_impl; [exact Ht|].
  intros e He. right. right. by right.
Qed.

Lemma preparing_no_pseudorange (l : list (Track.event kalman))
    addr first pos c distinct cs a b :
  Forall (fun e => preparing e) l ->
  ~ In (Track.EvPseudorange kalman addr first pos c distinct cs a b) l.
Proof.
  intros Hall Hin. rewrite Forall_forall in Hall.
  specialize (Hall _ (proj2 (list_elem_of_In _ _) Hin)).
  by destruct Hall as [[? ?]|[[? ?]|[(? & ? & ?)|(? & ? & ? & ? & ?)]]].
Qed.

(** What a commit writes to the pseudorange file. *)
Lemma commit_pseudorange (st : MlatTracker) now group decoded (ac : Aircraft)
    alt_ alt_error_ min_ p c v d cl addr first pos cov distinct cs a b :
  In (Track.EvPseudorange kalman addr first pos cov distinct cs a b)
    (o_events (commit st now group decoded ac alt_ alt_error_ min_ (p, c, v, d, cl))) ->
  Track.pseudorange_file kalman st = true /\ first = first_seen group /\
  addr = address decoded /\ pos = p /\ c = Some cov /\ distinct = d /\
  cs = Track.cluster_state position cl /\ a = alt_ /\ b = alt_error_ /\
  o_raised (commit st now group decoded ac alt_ alt_error_ min_ (p, c, v, d, cl))
  = None.
Proof.
  assert (forall l : list nat,
    In (Track.EvPseudorange kalman addr first pos cov distinct cs a b)
      ([EvKalman (first_seen group) cl alt_ alt_error_ p c d]
         ++ (if 3 <? min_ then [Track.EvLog kalman (address decoded) p alt_ alt_error_]
             else [])
         ++ map (fun h0 => EvOutput h0 (first_seen group) (address decoded) p c
                             (map e_receiver cl) d
                             (kalman_update (Track.ac_kalman kalman ac)
                                (first_seen group) cl alt_ alt_error_ p c d)) l) ->
    False) as Hpre.
  { intros l Hin. rewrite !in_app_iff in Hin.
    destruct Hin as [[|[]]|[Hin|Hin]]; [done| |].
    - destruct (3 <? min_); [by destruct Hin as [|[]]|by destruct Hin].
    - by apply in_map_iff in Hin as (h0 & ? & _). }
  unfold Track.commit. cbn [Track.output_handlers Track.set_aircraft
                            Track.pseudorange_file].
  destruct (Track.pseudorange_file kalman st);
    [|by intros Hin; destruct (Hpre _ Hin)].
  destruct cl as [|first0 cl0]; [by intros Hin; destruct (Hpre _ Hin)|].
  destruct c as [c|]; [|by intros Hin; destruct (Hpre _ Hin)].
  cbn [Track.o_events Track.o_raised]. intros Hin. rewrite in_app_iff in Hin.
  destruct Hin as [Hin|[Hin|[]]]; [by destruct (Hpre _ Hin)|].
  by injection Hin as <- <- <- <- <- <- <- <-.
Qed.

(** The rows of a pseudorange record: one per member, with the time
    since the first member in microseconds. *)
Lemma cluster_state_rows (cl : list entry) m rest :
  cl = m :: rest ->
  Track.cluster_state position cl
  = map (fun x => (position (e_receiver x),
                   (e_timestamp x - e_timestamp m) * 1e6,
                   e_variance x * 1e12)%Q) cl.
Proof.
  intros ->. unfold Track.cluster_state. apply map_ext. by intros [[r t] v].
Qed.

(** The offsets of a chronological cluster that spans at most 2 ms. *)
Lemma cluster_offsets (cl : list entry) m rest seed :
  cl = m :: rest ->
  Chrono.chronological cl -> last cl = Some seed ->
  Forall (fun x => (0 <= e_timestamp seed - e_timestamp x <= 2e-3)%Q) cl ->
  Forall (fun x => (0 <= (e_timestamp x - e_timestamp m) * 1e6 <= 2000)%Q) cl.
Proof.
  intros -> Hchr Hlast Hspan.
  assert (Forall (Chrono.not_after m) (m :: rest)) as Hfirst.
  { constructor; [apply Qle_refl|]. by destruct Hchr. }
  rewrite Forall_forall in Hfirst, Hspan. apply Forall_forall.
  intros x Hx.
  specialize (Hfirst x Hx). unfold Chrono.not_after in Hfirst.
  pose proof (Hspan x Hx) as [Hx0 _].
  assert (m ∈ m :: rest) as H0 by (apply elem_of_cons; by left).
  pose proof (Hspan m H0) as [_ H2].
  change (2e-3)%Q with (2 # 1000)%Q in *.
  change (1e6)%Q with (1000000 # 1)%Q. lra.
Qed.

(** The clusters that reach the acceptance loop are in order of time
    and span at most 2 ms. *)
Lemma gathered_cluster_order components min cls ev d c :
  gather_clusters components min = (Ok cls, ev) ->
  In (d, c) (Track.pop_order cls) ->
  Chrono.chronological c /\
  exists seed, last c = Some seed /\
    Forall (fun x => (0 <= e_timestamp seed - e_timestamp x <= 2e-3)%Q) c.
Proof.
  intros Hg Hin.
  apply list_elem_of_In in Hin. rewrite pop_order_perm in Hin.
  apply list_elem_of_In in Hin.
  destruct (gather_clusters_Ok _ _ _ _ Hg _ Hin) as (c0 & cl & _ & _ & Hc & Hin').
  split.
  - by apply (cluster_timestamps_chronological distance Cair c0 min cl d).
  - by apply (cluster_timestamps_span distance Cair c0 min cl d).
Qed.

(** X10.  A record is written to the pseudorange file only at a commit
    that raises nothing, with the file open and a covariance at hand:
    the Kalman filter has been updated with the same cluster, position,
    covariance and distinct count.  The record has exactly one row per
    member of that cluster, in order: the position of the member's
    receiver, the time since the first member in microseconds and the
    variance times 1e12 (all before rounding).  The cluster has at
    least 3 members from pairwise different receivers, and every offset
    lies between 0 and 2000. *)
Theorem pseudorange_offsets (st : MlatTracker) now group
    addr first pos cov distinct cs a b :
  In (Track.EvPseudorange kalman addr first pos cov distinct cs a b)
    (o_events (resolve st now group)) ->
  Track.pseudorange_file kalman st = true /\ first = first_seen group /\
  o_raised (resolve st now group) = None /\
  exists m rest,
    In (EvKalman (first_seen group) (m :: rest) a b pos (Some cov) distinct)
      (o_events (resolve st now group)) /\
    cs = map (fun x => (position (e_receiver x),
                        (e_timestamp x - e_timestamp m) * 1e6,
                        e_variance x * 1e12)%Q) (m :: rest) /\
    3 <= distinct /\ distinct <= length (m :: rest) /\
    NoDup (map e_receiver (m :: rest)) /\
    Forall (fun x => (0 <= (e_timestamp x - e_timestamp m) * 1e6 <= 2000)%Q)
      (m :: rest).
Proof.
  apply (resolve_exits
           (fun o =>
              In (Track.EvPseudorange kalman addr first pos cov distinct cs a b)
                (o_events o) ->
              Track.pseudorange_file kalman st = true /\ first = first_seen group /\
              o_raised o = None /\
              exists m rest,
                In (EvKalman (first_seen group) (m :: rest) a b pos (Some cov) distinct)
                  (o_events o) /\
                cs = map (fun x => (position (e_receiver x),
                                    (e_timestamp x - e_timestamp m) * 1e6,
                                    e_variance x * 1e12)%Q) (m :: rest) /\
                3 <= distinct /\ distinct <= length (m :: rest) /\
                NoDup (map e_receiver (m :: rest)) /\
                Forall (fun x =>
                          (0 <= (e_timestamp x - e_timestamp m) * 1e6 <= 2000)%Q)
                  (m :: rest)));
    cbn [Track.o_events Track.o_raised].
  - by intros _ [].
  - by intros g0 _ _ [].
  - by intros g0 _ _ _ [|[]].
  - by intros g0 decoded _ _ _ _ [|[]].
  - by intros g0 decoded ac _ _ _ _ _ [|[]].
  - intros g0 decoded ac e ev1 _ _ Hg Hin. exfalso.
    by eapply preparing_no_pseudorange;
      [apply (before_commit_trace _ _ _ _ _ _ _ Hg)|].
  - intros g0 decoded ac ev1 _ _ Hg Hin. exfalso.
    by eapply preparing_no_pseudorange;
      [apply (before_commit_trace _ _ _ _ _ _ _ Hg)|].
  - intros g0 decoded ac clusters ev1 e ev2 _ _ Hg _ Hl Hin. exfalso.
    eapply preparing_no_pseudorange; [|exact Hin].
    by eapply (proj2 (before_commit_trace _ _ _ _ _ _ _ Hg)).
  - intros g0 decoded ac clusters ev1 ev2 _ _ Hg _ Hl Hin. exfalso.
    eapply preparing_no_pseudorange; [|exact Hin].
    by eapply (proj2 (before_commit_trace _ _ _ _ _ _ _ Hg)).
  - intros g0 decoded ac clusters ev1 [[[[p c] v] d] cl] ev2 _ (_ & Hd & _)
      Hg _ Hl Hin.
    rewrite in_app_iff in Hin. destruct Hin as [Hin|Hin].
    { exfalso. eapply preparing_no_pseudorange; [|exact Hin].
      by eapply (proj2 (before_commit_trace _ _ _ _ _ _ _ Hg)). }
    apply commit_pseudorange
      in Hin as (Hfile & -> & -> & -> & -> & -> & -> & -> & -> & Hnone).
    destruct (accept_loop_origin _ _ _ _ _ _ _ _ _ _ _ _ _ Hl)
      as (c0 & seed & Hin0 & Hcl & _).
    destruct (gathered_cluster_facts _ _ _ _ _ _ Hg Hin0) as (Hmin & Hlen & Hnd).
    destruct (gathered_cluster_order _ _ _ _ _ _ Hg Hin0)
      as (Hchr & seed0 & Hlast & Hspan).
    pose proof (min_receivers_3_or_4 (refresh ac decoded now) now) as H34.
    assert (Track.sort_cluster c0 = c0) as Hsorted by by apply sort_chronological_id.
    rewrite Hsorted in Hcl. subst cl.
    destruct c0 as [|m rest]; [simpl in Hlen; lia|].
    split; [done|]. split; [done|]. split; [done|].
    exists m, rest.
    split; [apply in_app_iff; right; apply commit_reports|].
    split; [by apply (cluster_state_rows _ m rest)|].
    split; [lia|]. split; [lia|]. split; [done|].
    by apply (cluster_offsets _ m rest seed0).
Qed.


(** *** What the solver is given *)

(** Every call of the solver is for a cluster of the stack, sorted, with
    the altitude of the aircraft. *)
Lemma accept_loop_solves lrp lrv lrd elapsed alt alt_error stack :
  Forall (fun e => exists d c s, In (d, c) stack /\
                     e = EvSolve (Track.sort_cluster c) alt alt_error s)
    (accept_loop lrp lrv lrd elapsed alt alt_error stack).2.
Proof.
  induction stack as [|[d c] rest IH]; cbn [Track.accept_loop]; [by constructor|].
  destruct (stops elapsed d lrd); [by constructor|].
  destruct (seed_position lrp (Track.sort_cluster c)) as [seed|]; [|by constructor].
  destruct (accept_loop lrp lrv lrd elapsed alt alt_error rest) as [r ev].
  assert (exists d0 c0 s, In (d0, c0) ((d, c) :: rest) /\
            EvSolve (Track.sort_cluster c) alt alt_error seed
            = EvSolve (Track.sort_cluster c0) alt alt_error s) as Hhere.
  { exists d, c, seed. split; [by left|done]. }
  assert (Forall (fun e => exists d0 c0 s, In (d0, c0) ((d, c) :: rest) /\
                     e = EvSolve (Track.sort_cluster c0) alt alt_error s)
            (EvSolve (Track.sort_cluster c) alt alt_error seed :: ev)) as Hgo.
  { constructor; [done|]. cbn [snd] in IH. eapply Forall_impl; [exact IH|].
    intros e (d0 & c0 & s & Hin & ->). exists d0, c0, s. split; [by right|done]. }
  destruct (solve _ _ _ _) as [[pos cov]|]; [|done].
  destruct (Qgtb _ _); [done|]. destruct (_ && _); [done|].
  constructor; [done|constructor].
Qed.

Lemma before_loop_no_solve (st : MlatTracker) now group decoded ac r ev1 cl a b s :
  gathered st now group decoded ac = (r, ev1) ->
  ~ In (EvSolve cl a b s) (ev0 st group ++ ev1).
Proof.
  intros Hg Hin. apply in_app_iff in Hin as [[|[|[]]]|Hin]; [done|done|].
  pose proof (gather_clusters_trace (normalize (tm st group))
                (min_receivers now decoded ac)) as Ht.
  rewrite Hg in Ht. rewrite Forall_forall in Ht.
  by destruct (Ht _ (proj2 (list_elem_of_In _ _) Hin)) as (? & ? & ?).
Qed.

Lemma commit_no_solve (st : MlatTracker) now group decoded (ac : Aircraft)
    alt_ alt_error_ min_ acc cl a b s :
  ~ In (EvSolve cl a b s)
      (o_events (commit st now group decoded ac alt_ alt_error_ min_ acc)).
Proof.
  destruct acc as [[[[p c] v] d] cl0].
  assert (forall l : list nat,
    ~ In (EvSolve cl a b s)
      ([EvKalman (first_seen group) cl0 alt_ alt_error_ p c d]
         ++ (if 3 <? min_ then [Track.EvLog kalman (address decoded) p alt_ alt_error_]
             else [])
         ++ map (fun h0 => EvOutput h0 (first_seen group) (address decoded) p c
                             (map e_receiver cl0) d
                             (kalman_update (Track.ac_kalman kalman ac)
                                (first_seen group) cl0 alt_ alt_error_ p c d)) l))
    as Hpre.
  { intros l Hin. rewrite !in_app_iff in Hin.
    destruct Hin as [[|[]]|[Hin|Hin]]; [done| |].
    - destruct (3 <? min_); [by destruct Hin as [|[]]|by destruct Hin].
    - by apply in_map_iff in Hin as (h0 & ? & _). }
  unfold Track.commit. cbn [Track.output_handlers Track.set_aircraft
                            Track.pseudorange_file].
  destruct (Track.pseudorange_file kalman st); [|by apply Hpre].
  destruct cl0 as [|first0 cl1]; [by apply Hpre|].
  destruct c as [c|]; [|by apply Hpre].
  cbn [Track.o_events]. intros Hin. rewrite in_app_iff in Hin.
  destruct Hin as [Hin|[Hin|[]]]; [by apply Hpre in Hin|done].
Qed.

(** X15.  The solver is only ever called with a cluster of at least 3
    members, from pairwise different receivers, in ascending order of
    timestamp and spanning at most 2 ms, together with the altitude and
    altitude error of the refreshed aircraft; when the altitude is
    unknown both are [None] and the cluster has at least 4 members. *)
Theorem solver_inputs (st : MlatTracker) now group cl a b s :
  In (EvSolve cl a b s) (o_events (resolve st now group)) ->
  3 <= length cl /\ NoDup (map e_receiver cl) /\ Chrono.chronological cl /\
  (exists latest, last cl = Some latest /\
     Forall (fun x => (0 <= e_timestamp latest - e_timestamp x <= 2e-3)%Q) cl) /\
  (a = None -> b = None /\ 4 <= length cl) /\
  exists decoded ac,
    decode (message group) = Some decoded /\
    aircraft st !! address decoded = Some ac /\
    a = alt now decoded ac /\ b = alt_error now decoded ac /\
    min_receivers now decoded ac <= length cl.
Proof.
  assert (forall decoded ac clusters ev1 r2 ev2,
    decode (message group) = Some decoded ->
    aircraft st !! address decoded = Some ac ->
    gathered st now group decoded ac = (Ok clusters, ev1) ->
    looped now decoded ac clusters = (r2, ev2) ->
    In (EvSolve cl a b s) ev2 ->
    3 <= length cl /\ NoDup (map e_receiver cl) /\ Chrono.chronological cl /\
    (exists latest, last cl = Some latest /\
       Forall (fun x => (0 <= e_timestamp latest - e_timestamp x <= 2e-3)%Q) cl) /\
    (a = None -> b = None /\ 4 <= length cl) /\
    exists decoded ac,
      decode (message group) = Some decoded /\
      aircraft st !! address decoded = Some ac /\
      a = alt now decoded ac /\ b = alt_error now decoded ac /\
      min_receivers now decoded ac <= length cl) as Hloop.
  { intros decoded ac clusters ev1 r2 ev2 Hd Ha Hg Hl Hin.
    pose proof (accept_loop_solves (lrp now decoded ac) (lrv now decoded ac)
                  (lrd now decoded ac) (elapsed now decoded ac) (alt now decoded ac)
                  (alt_error now decoded ac) (Track.pop_order clusters)) as Hs.
    rewrite Hl in Hs. cbn [snd] in Hs. rewrite Forall_forall in Hs.
    destruct (Hs _ (proj2 (list_elem_of_In _ _) Hin))
      as (d0 & c0 & s0 & Hin0 & [= -> -> -> ->]).
    destruct (gathered_cluster_facts _ _ _ _ _ _ Hg Hin0) as (Hmin & Hlen & Hnd).
    destruct (gathered_cluster_order _ _ _ _ _ _ Hg Hin0)
      as (Hchr & latest & Hlast & Hspan).
    pose proof (min_receivers_3_or_4 (refresh ac decoded now) now) as H34.
    assert (Track.sort_cluster c0 = c0) as -> by by apply sort_chronological_id.
    split; [lia|]. split; [done|]. split; [done|].
    split; [by exists latest|]. split.
    - unfold Track.altitude_model in *.
      destruct (Track.ac_altitude kalman (refresh ac decoded now)); [done|].
      intros _. split; [done|]. cbn [snd] in Hmin. lia.
    - exists decoded, ac. split; [done|]. split; [done|]. split; [done|].
      split; [done|]. lia. }
  apply (resolve_exits
           (fun o =>
              In (EvSolve cl a b s) (o_events o) ->
              3 <= length cl /\ NoDup (map e_receiver cl) /\ Chrono.chronological cl /\
              (exists latest, last cl = Some latest /\
                 Forall (fun x => (0 <= e_timestamp latest - e_timestamp x <= 2e-3)%Q)
                   cl) /\
              (a = None -> b = None /\ 4 <= length cl) /\
              exists decoded ac,
                decode (message group) = Some decoded /\
                aircraft st !! address decoded = Some ac /\
                a = alt now decoded ac /\ b = alt_error now decoded ac /\
                min_receivers now decoded ac <= length cl));
    cbn [Track.o_events].
  - by intros _ [].
  - by intros g0 _ _ [].
  - by intros g0 _ _ _ [|[]].
  - by intros g0 decoded _ _ _ _ [|[]].
  - by intros g0 decoded ac _ _ _ _ _ [|[]].
  - intros g0 decoded ac e ev1 _ _ Hg Hin.
    by destruct (before_loop_no_solve _ _ _ _ _ _ _ _ _ _ _ Hg Hin).
  - intros g0 decoded ac ev1 _ _ Hg Hin.
    by destruct (before_loop_no_solve _ _ _ _ _ _ _ _ _ _ _ Hg Hin).
  - intros g0 decoded ac clusters ev1 e ev2 _ (_ & Hd & Ha & _) Hg _ Hl Hin.
    apply in_app_iff in Hin as [Hin|Hin];
      [by destruct (before_loop_no_solve _ _ _ _ _ _ _ _ _ _ _ Hg Hin)|].
    by apply (Hloop decoded ac clusters ev1 (Raise e) ev2).
  - intros g0 decoded ac clusters ev1 ev2 _ (_ & Hd & Ha & _) Hg _ Hl Hin.
    apply in_app_iff in Hin as [Hin|Hin];
      [by destruct (before_loop_no_solve _ _ _ _ _ _ _ _ _ _ _ Hg Hin)|].
    by apply (Hloop decoded ac clusters ev1 (Ok None) ev2).
  - intros g0 decoded ac clusters ev1 acc ev2 _ (_ & Hd & Ha & _) Hg _ Hl Hin.
    apply in_app_iff in Hin as [Hin|Hin];
      [|by destruct (commit_no_solve _ _ _ _ _ _ _ _ _ _ _ _ _ Hin)].
    apply in_app_iff in Hin as [Hin|Hin];
      [by destruct (before_loop_no_solve _ _ _ _ _ _ _ _ _ _ _ Hg Hin)|].
    by apply (Hloop decoded ac clusters ev1 (Ok (Some acc)) ev2).
Qed.


(** *** The blacklist *)

(** X16.  Provided the clock normaliser only returns receivers of the
    timestamp map it was given, a receiver reported to an output handler
    is never one of a blacklisted user, and it sent a copy of the
    message. *)
Theorem blacklisted_never_in_output (st : MlatTracker) now group
    h first addr pos cov rcvs distinct k :
  (forall m c r v ts, In c (normalize m) -> In (r, (v, ts)) c -> r ∈ m.*1) ->
  In (EvOutput h first addr pos cov rcvs distinct k)
    (o_events (resolve st now group)) ->
  forall r, In r rcvs ->
    (user r ∉ blacklist st) /\ exists t, In (r, t) (copies group).
Proof.
  intros Hnorm.
  apply (resolve_exits
           (fun o =>
              In (EvOutput h first addr pos cov rcvs distinct k) (o_events o) ->
              forall r, In r rcvs ->
                (user r ∉ blacklist st) /\ exists t, In (r, t) (copies group)));
    cbn [Track.o_events].
  - by intros _ [].
  - by intros g0 _ _ [].
  - by intros g0 _ _ _ [|[]].
  - by intros g0 decoded _ _ _ _ [|[]].
  - by intros g0 decoded ac _ _ _ _ _ [|[]].
  - intros g0 decoded ac e ev1 _ _ Hg Hin. exfalso.
    by eapply no_output_In; [apply (before_commit_no_output _ _ _ _ _ _ _ Hg)|].
  - intros g0 decoded ac ev1 _ _ Hg Hin. exfalso.
    by eapply no_output_In; [apply (before_commit_no_output _ _ _ _ _ _ _ Hg)|].
  - intros g0 decoded ac clusters ev1 e ev2 _ _ Hg _ Hl Hin. exfalso.
    eapply no_output_In; [|exact Hin].
    by eapply (proj2 (before_commit_no_output _ _ _ _ _ _ _ Hg)).
  - intros g0 decoded ac clusters ev1 ev2 _ _ Hg _ Hl Hin. exfalso.
    eapply no_output_In; [|exact Hin].
    by eapply (proj2 (before_commit_no_output _ _ _ _ _ _ _ Hg)).
  - intros g0 decoded ac clusters ev1 [[[[p c] v] d] cl] ev2 _ _ Hg _ Hl Hin r Hr.
    rewrite in_app_iff in Hin. destruct Hin as [Hin|Hin].
    { exfalso. eapply no_output_In; [|exact Hin].
      by eapply (proj2 (before_commit_no_output _ _ _ _ _ _ _ Hg)). }
    apply commit_outputs in Hin as (_ & _ & _ & _ & _ & -> & _).
    destruct (accept_loop_origin _ _ _ _ _ _ _ _ _ _ _ _ _ Hl)
      as (c0 & seed & Hin0 & -> & _).
    apply in_map_iff in Hr as (x & <- & Hx).
    apply list_elem_of_In in Hx. rewrite sort_cluster_perm in Hx.
    apply list_elem_of_In in Hx.
    apply list_elem_of_In in Hin0. rewrite pop_order_perm in Hin0.
    apply list_elem_of_In in Hin0.
    destruct (gather_clusters_Ok _ _ _ _ Hg _ Hin0) as (comp & cl' & Hcomp & _ & Hc & Hin').
    pose proof (cluster_timestamps_members distance Cair comp _ cl' d c0 x Hc Hin' Hx)
      as Hflat.
    apply flatten_In in Hflat as (ts & Hrow & _).
    apply (build_timestamp_map_keys user (blacklist st) (copies group)).
    by apply (Hnorm _ comp _ (e_variance x) ts).
Qed.


End TrackMore.

(** ** The tracker in the event loop *)

Section LoopFacts.
Variable kalman : Type.
Variable user : receiver -> string.
Variable position : receiver -> ecef.
Variable distance : receiver -> receiver -> Q.
Variable Cair : Q.
Variable FTOM : Q.
Variable MLAT_DELAY : Q.
Variable decode : string -> option DecodedMessage.
Variable normalize : timestamp_map -> list component.
Variable solve : list entry -> option Q -> option Q -> ecef -> option (ecef * option ecef_cov).
Variable kalman_update : kalman -> Q -> list entry -> option Q -> option Q ->
  ecef -> option ecef_cov -> nat -> kalman.

Local Abbreviation System := (Loop.System kalman).
Local Abbreviation mkSystem := (Loop.mkSystem kalman).
Local Abbreviation groups := (Loop.groups kalman).
Local Abbreviation pending := (Loop.pending kalman).
Local Abbreviation timers := (Loop.timers kalman).
Local Abbreviation tracker := (Loop.tracker kalman).
Local Abbreviation init := (Loop.init kalman).
Local Abbreviation receiver_mlat := (Loop.receiver_mlat kalman).
Local Abbreviation resolve :=
  (Track.resolve kalman user position distance Cair FTOM MLAT_DELAY decode
     normalize solve kalman_update).
Local Abbreviation fire :=
  (Loop.fire kalman user position distance Cair FTOM MLAT_DELAY decode
     normalize solve kalman_update).
Local Abbreviation step :=
  (Loop.step kalman user position distance Cair FTOM MLAT_DELAY decode
     normalize solve kalman_update).
Local Abbreviation run :=
  (Loop.run kalman user position distance Cair FTOM MLAT_DELAY decode
     normalize solve kalman_update).

(** Table and timers agree: every pending message leads to a group
    object with that message, at least one copy and a timer of its own;
    no group has two timers; every timer holds the group that the table
    has under the group's message. *)
Local Abbreviation consistent s :=
  ((forall msg l, pending s !! msg = Some l ->
      exists g, groups s !! l = Some g /\ message g = msg /\ copies g <> [] /\
                l ∈ timers s) /\
   NoDup (timers s) /\
   (forall l, l ∈ timers s ->
      exists g, groups s !! l = Some g /\ pending s !! message g = Some l)).

Lemma alter_snoc {A} (f : A -> A) (l : list A) x :
  alter f (length l) (l ++ [x]) = l ++ [f x].
Proof.
  rewrite <- (Nat.add_0_r (length l)) at 1. by rewrite alter_app_r.
Qed.

Lemma elem_of_delete_NoDup {A} (l : list A) i x :
  NoDup l -> l !! i = Some x ->
  forall y, y ∈ delete i l <-> y ∈ l /\ y <> x.
Proof.
  intros Hnd Hi y. rewrite delete_take_drop.
  rewrite <- (take_drop_middle l i x Hi) in Hnd.
  rewrite <- (take_drop_middle l i x Hi) at 3.
  apply NoDup_app in Hnd as (_ & Hl & Hr).
  apply NoDup_cons in Hr as (Hx & _).
  rewrite !elem_of_app, elem_of_cons. split.
  - intros [Hy|Hy].
    + split; [by left|]. intros ->. apply (Hl x Hy). apply elem_of_cons. by left.
    + split; [right; by right|]. by intros ->.
  - intros [[Hy|[Hy|Hy]] Hne]; [by left|done|by right].
Qed.

Lemma init_consistent bl ac handlers file : consistent (init bl ac handlers file).
Proof.
  split; [|split].
  - intros msg l H. cbn in H. by rewrite lookup_empty in H.
  - constructor.
  - intros l H. cbn in H. by apply elem_of_nil in H.
Qed.

Lemma receiver_mlat_consistent (s : System) wall rcv timestamp msg :
  consistent s -> consistent (receiver_mlat s wall rcv timestamp msg).
Proof.
  intros (H1 & H2 & H3). unfold Loop.receiver_mlat.
  destruct (pending s !! msg) as [l0|] eqn:Hm;
    cbn [Loop.groups Loop.pending Loop.timers].
  - split; [|split; [done|]].
    + intros m l Hl. destruct (H1 m l Hl) as (g & Hg & Hmsg & Hc & Ht).
      destruct (decide (l0 = l)) as [->|Hne].
      * exists (Loop.append_copy rcv timestamp g).
        rewrite list_lookup_alter_eq, Hg. split; [done|]. split; [done|].
        split; [|done]. cbn. by destruct (copies g).
      * exists g. by rewrite list_lookup_alter_ne.
    + intros l Hl. destruct (H3 l Hl) as (g & Hg & Hp).
      destruct (decide (l0 = l)) as [->|Hne].
      * exists (Loop.append_copy rcv timestamp g).
        by rewrite list_lookup_alter_eq, Hg.
      * exists g. by rewrite list_lookup_alter_ne.
  - rewrite alter_snoc. split; [|split].
    + intros m l Hl. destruct (decide (m = msg)) as [->|Hne].
      * rewrite lookup_insert_eq in Hl. injection Hl as <-.
        exists (Loop.append_copy rcv timestamp (mkGroup msg wall [])).
        split; [apply lookup_snoc_Some; by right|]. split; [done|].
        split; [done|]. apply elem_of_app. right. apply elem_of_cons. by left.
      * rewrite lookup_insert_ne in Hl by done.
        destruct (H1 m l Hl) as (g & Hg & Hmsg & Hc & Ht).
        exists g. split; [by apply lookup_app_l_Some|]. split; [done|].
        split; [done|]. apply elem_of_app. by left.
    + apply NoDup_app. split; [done|]. split; [|apply NoDup_singleton].
      intros x Hx Hx'. apply list_elem_of_singleton in Hx'. subst x.
      destruct (H3 _ Hx) as (g & Hg & _). apply lookup_lt_Some in Hg. lia.
    + intros l Hl. apply elem_of_app in Hl as [Hl|Hl].
      * destruct (H3 l Hl) as (g & Hg & Hp). exists g.
        split; [by apply lookup_app_l_Some|].
        rewrite lookup_insert_ne; [done|]. intros Heq. rewrite Heq in Hm. congruence.
      * apply list_elem_of_singleton in Hl. subst l.
        exists (Loop.append_copy rcv timestamp (mkGroup msg wall [])).
        split; [apply lookup_snoc_Some; by right|]. cbn. apply lookup_insert_eq.
Qed.

(** What running a timer does in a consistent system. *)
Lemma fire_consistent (s : System) now i l :
  consistent s -> timers s !! i = Some l ->
  exists g,
    groups s !! l = Some g /\ pending s !! message g = Some l /\
    copies g <> [] /\
    Track.pending kalman (tracker s) !! message g = Some g /\
    fire s now i
    = Some (mkSystem (groups s) (delete (message g) (pending s))
              (delete i (timers s))
              (Track.blacklist kalman (Track.o_state kalman (resolve (tracker s) now g)))
              (Track.aircraft kalman (Track.o_state kalman (resolve (tracker s) now g)))
              (Track.output_handlers kalman
                 (Track.o_state kalman (resolve (tracker s) now g)))
              (Track.pseudorange_file kalman
                 (Track.o_state kalman (resolve (tracker s) now g))),
            resolve (tracker s) now g).
Proof.
  intros (H1 & H2 & H3) Hi.
  destruct (H3 l (list_elem_of_lookup_2 _ _ _ Hi)) as (g & Hg & Hp).
  destruct (H1 _ _ Hp) as (g' & Hg' & _ & Hc & _).
  assert (g' = g) as -> by congruence.
  assert (Track.pending kalman (tracker s) !! message g = Some g) as Hview.
  { cbn [Loop.tracker Track.pending]. by rewrite lookup_omap, Hp. }
  exists g. split; [done|]. split; [done|]. split; [done|]. split; [done|].
  unfold Loop.fire. rewrite Hi, Hg. cbv zeta. do 2 f_equal.
  rewrite (resolve_pending kalman user position distance Cair FTOM MLAT_DELAY
             decode normalize solve kalman_update _ _ _ _ Hview).
  f_equal. apply map_eq. intros k. apply option_eq. intros v.
  rewrite map_lookup_filter_Some, lookup_delete_Some. cbn [fst]. split.
  - intros [Hk HP]. split; [|done]. intros <-.
    rewrite lookup_delete_eq in HP. by destruct HP.
  - intros [Hne Hk]. split; [done|].
    rewrite lookup_delete_ne by done. cbn [Loop.tracker Track.pending].
    rewrite lookup_omap, Hk. cbn.
    destruct (H1 _ _ Hk) as (gk & Hgk & _). by rewrite Hgk.
Qed.

Lemma step_consistent (s : System) a : consistent s -> consistent (step s a).
Proof.
  intros Hs.
  destruct a as [wall rcv timestamp msg|now i|bl ac handlers file];
    cbn [Loop.step].
  - by apply receiver_mlat_consistent.
  - destruct (timers s !! i) as [l|] eqn:Hi.
    + destruct (fire_consistent s now i l Hs Hi) as (g & Hg & Hp & _ & _ & ->).
      destruct Hs as (H1 & H2 & H3).
      pose proof (elem_of_delete_NoDup _ _ _ H2 Hi) as Hdel.
      cbn [Loop.groups Loop.pending Loop.timers]. split; [|split].
      * intros m l' Hl'. apply lookup_delete_Some in Hl' as [Hne Hl'].
        destruct (H1 _ _ Hl') as (g' & Hg' & Hm & Hc & Ht).
        exists g'. split; [done|]. split; [done|]. split; [done|].
        apply Hdel. split; [done|]. intros ->. congruence.
      * eapply sublist_NoDup; [exact H2|apply sublist_delete].
      * intros l' Hl'. apply Hdel in Hl' as [Hl' Hne].
        destruct (H3 _ Hl') as (g' & Hg' & Hp'). exists g'. split; [done|].
        rewrite lookup_delete_ne; [done|]. intros Heq. rewrite Heq in Hp.
        congruence.
    + unfold Loop.fire. by rewrite Hi.
  - done.
Qed.

Lemma run_consistent acts : forall s : System, consistent s -> consistent (run s acts).
Proof.
  induction acts as [|a acts IH]; intros s Hs; [done|].
  cbn [Loop.run fold_left]. apply IH. by apply step_consistent.
Qed.

(** X12.  In every state that the tracker can reach, a timer that runs
    resolves the very group that the table holds under the group's
    message: the [del] of line 96 finds its key and removes this group's
    own entry and no other, and the other timers and all group objects
    stay as they are.  The group has at least one copy. *)
Theorem timer_resolves_its_group bl ac handlers file acts now i l :
  timers (run (init bl ac handlers file) acts) !! i = Some l ->
  exists g s',
    groups (run (init bl ac handlers file) acts) !! l = Some g /\
    pending (run (init bl ac handlers file) acts) !! message g = Some l /\
    Track.pending kalman (tracker (run (init bl ac handlers file) acts)) !! message g
    = Some g /\
    copies g <> [] /\
    fire (run (init bl ac handlers file) acts) now i
    = Some (s', resolve (tracker (run (init bl ac handlers file) acts)) now g) /\
    pending s' = delete (message g) (pending (run (init bl ac handlers file) acts)) /\
    timers s' = delete i (timers (run (init bl ac handlers file) acts)) /\
    groups s' = groups (run (init bl ac handlers file) acts).
Proof.
  intros Hi.
  pose proof (run_consistent acts _ (init_consistent bl ac handlers file)) as Hs.
  destruct (fire_consistent _ now i l Hs Hi) as (g & Hg & Hp & Hc & Hv & Hf).
  exists g. eexists. split; [done|]. split; [done|]. split; [done|].
  split; [done|]. split; [exact Hf|]. done.
Qed.

(** X13.  In every state that the tracker can reach, each pending group
    has exactly one timer: the timers are distinct, there are as many
    as pending messages, and the table leads every pending message to a
    group object with that message, at least one copy and an
    outstanding timer. *)
Theorem pending_groups_have_timers bl ac handlers file acts :
  NoDup (timers (run (init bl ac handlers file) acts)) /\
  size (pending (run (init bl ac handlers file) acts))
  = length (timers (run (init bl ac handlers file) acts)) /\
  (forall msg l,
      pending (run (init bl ac handlers file) acts) !! msg = Some l ->
      l ∈ timers (run (init bl ac handlers file) acts) /\
      exists g, groups (run (init bl ac handlers file) acts) !! l = Some g /\
                message g = msg /\ copies g <> []).
Proof.
  pose proof (run_consistent acts _ (init_consistent bl ac handlers file))
    as (H1 & H2 & H3).
  split; [done|]. split.
  - rewrite <- length_map_to_list, <- (length_fmap snd).
    apply Permutation_length. apply NoDup_Permutation; [|done|].
    + apply NoDup_fmap_2_strong; [|apply NoDup_map_to_list].
      intros [m1 l1] [m2 l2] Hx Hy Heq. cbn in Heq. subst l2.
      apply elem_of_map_to_list in Hx, Hy.
      destruct (H1 _ _ Hx) as (g1 & Hg1 & Hm1 & _).
      destruct (H1 _ _ Hy) as (g2 & Hg2 & Hm2 & _). congruence.
    + intros l. rewrite list_elem_of_fmap. split.
      * intros ([m l'] & -> & Hin). apply elem_of_map_to_list in Hin.
        by destruct (H1 _ _ Hin) as (g & _ & _ & _ & Ht).
      * intros Hl. destruct (H3 _ Hl) as (g & Hg & Hp).
        exists (message g, l). split; [done|]. by apply elem_of_map_to_list.
  - intros msg l Hl. destruct (H1 _ _ Hl) as (g & Hg & Hm & Hc & Ht).
    split; [done|]. by exists g.
Qed.

(** X14.  A copy that arrives is appended to the group of its message and
    to no other: if the message is pending, its group keeps its time of
    first sight and its timer and gains the copy at the end; if not, a
    group first seen now is created with this single copy and one new
    timer.  The groups of all other pending messages are untouched. *)
Theorem received_copy_joins_its_group bl ac handlers file acts wall rcv timestamp msg :
  exists l g',
    pending (receiver_mlat (run (init bl ac handlers file) acts) wall rcv timestamp msg)
      !! msg = Some l /\
    groups (receiver_mlat (run (init bl ac handlers file) acts) wall rcv timestamp msg)
      !! l = Some g' /\
    message g' = msg /\
    match pending (run (init bl ac handlers file) acts) !! msg with
    | Some l0 =>
        l = l0 /\
        timers (receiver_mlat (run (init bl ac handlers file) acts) wall rcv
                  timestamp msg)
        = timers (run (init bl ac handlers file) acts) /\
        exists g, groups (run (init bl ac handlers file) acts) !! l0 = Some g /\
                  first_seen g' = first_seen g /\
                  copies g' = copies g ++ [(rcv, timestamp)]
    | None =>
        timers (receiver_mlat (run (init bl ac handlers file) acts) wall rcv
                  timestamp msg)
        = timers (run (init bl ac handlers file) acts) ++ [l] /\
        first_seen g' = wall /\ copies g' = [(rcv, timestamp)]
    end /\
    (forall msg' l',
        msg' <> msg ->
        pending (run (init bl ac handlers file) acts) !! msg' = Some l' ->
        pending (receiver_mlat (run (init bl ac handlers file) acts) wall rcv
                   timestamp msg) !! msg' = Some l' /\
        groups (receiver_mlat (run (init bl ac handlers file) acts) wall rcv
                  timestamp msg) !! l'
        = groups (run (init bl ac handlers file) acts) !! l').
Proof.
  pose proof (run_consistent acts _ (init_consistent bl ac handlers file))
    as (H1 & H2 & H3).
  generalize dependent (run (init bl ac handlers file) acts). intros s H1 H2 H3.
  unfold Loop.receiver_mlat.
  destruct (pending s !! msg) as [l0|] eqn:Hm;
    cbn [Loop.groups Loop.pending Loop.timers].
  - destruct (H1 _ _ Hm) as (g & Hg & Hmsg & _).
    exists l0, (Loop.append_copy rcv timestamp g).
    split; [done|]. split; [by rewrite list_lookup_alter_eq, Hg|].
    split; [done|]. split; [split; [done|]; split; [done|]; by exists g|].
    intros msg' l' Hne Hl'. split; [done|].
    apply list_lookup_alter_ne. intros <-.
    destruct (H1 _ _ Hl') as (g2 & Hg2 & Hmsg2 & _). congruence.
  - rewrite alter_snoc.
    exists (length (groups s)), (Loop.append_copy rcv timestamp (mkGroup msg wall [])).
    split; [apply lookup_insert_eq|].
    split; [apply lookup_snoc_Some; by right|].
    split; [done|]. split; [done|].
    intros msg' l' Hne Hl'. split; [by rewrite lookup_insert_ne|].
    destruct (H1 _ _ Hl') as (g2 & Hg2 & _).
    rewrite Hg2. by apply lookup_app_l_Some.
Qed.

End LoopFacts.

(** ** The blacklist file *)

Section BlacklistFacts.
Variable isspace : Ascii.ascii -> bool.

Local Abbreviation newline := Blacklist.newline.
Local Abbreviation readline := Blacklist.readline.
Local Abbreviation lstrip := (Blacklist.lstrip isspace).
Local Abbreviation rstrip := (Blacklist.rstrip isspace).
Local Abbreviation strip := (Blacklist.strip isspace).
Local Abbreviation read_blacklist := (Blacklist.read_blacklist isspace).

Lemma readline_line line rest :
  ~ In newline line -> readline (line ++ newline :: rest) = line ++ [newline].
Proof.
  induction line as [|c line IH]; intros Hno; cbn [app Blacklist.readline].
  - by rewrite Ascii.eqb_refl.
  - destruct (Ascii.eqb c newline) eqn:Hc.
    + apply Ascii.eqb_eq in Hc. exfalso. apply Hno. by left.
    + f_equal. apply IH. intros H. apply Hno. by right.
Qed.

Lemma readline_last_line line : ~ In newline line -> readline line = line.
Proof.
  induction line as [|c line IH]; intros Hno; cbn [Blacklist.readline]; [done|].
  destruct (Ascii.eqb c newline) eqn:Hc.
  - apply Ascii.eqb_eq in Hc. exfalso. apply Hno. by left.
  - f_equal. apply IH. intros H. apply Hno. by right.
Qed.

(** Every text starts with a line. *)
Lemma readline_cases text :
  exists line, ~ In newline line /\
    (readline text = line \/ readline text = line ++ [newline]).
Proof.
  induction text as [|c text (line & Hno & IH)]; cbn [Blacklist.readline].
  - exists []. split; [by intros []|by left].
  - destruct (Ascii.eqb c newline) eqn:Hc.
    + apply Ascii.eqb_eq in Hc. subst c. exists []. split; [by intros []|by right].
    + exists (c :: line). split.
      * intros [->|H]; [by rewrite Ascii.eqb_refl in Hc|done].
      * destruct IH as [->| ->]; [by left|by right].
Qed.

Lemma lstrip_spaces s : forallb isspace s = true -> lstrip s = [].
Proof.
  induction s as [|c s IH]; [done|]. cbn [forallb Blacklist.lstrip].
  intros [Hc Hs]%andb_prop. rewrite Hc. by apply IH.
Qed.

Lemma lstrip_app s t :
  lstrip (s ++ t) = if forallb isspace s then lstrip t else lstrip s ++ t.
Proof.
  induction s as [|c s IH]; cbn [app forallb Blacklist.lstrip].
  - done.
  - destruct (isspace c); [exact IH|done].
Qed.

Lemma lstrip_suffix s : exists spaces, s = spaces ++ lstrip s.
Proof.
  induction s as [|c s (sp & IH)]; cbn [Blacklist.lstrip]; [by exists []|].
  destruct (isspace c); [|by exists []].
  exists (c :: sp). cbn [app]. by f_equal.
Qed.

Lemma lstrip_head s c : head (lstrip s) = Some c -> isspace c = false.
Proof.
  induction s as [|c0 s IH]; cbn [Blacklist.lstrip]; [done|].
  destruct (isspace c0) eqn:Hc0; [exact IH|]. by intros [= <-].
Qed.

Lemma lstrip_In s x : In x (lstrip s) -> In x s.
Proof.
  destruct (lstrip_suffix s) as (sp & Hs). intros H. rewrite Hs.
  apply in_app_iff. by right.
Qed.

Lemma rstrip_snoc_space s c : isspace c = true -> rstrip (s ++ [c]) = rstrip s.
Proof.
  intros Hc. unfold Blacklist.rstrip. rewrite rev_app_distr. cbn [rev app].
  cbn [Blacklist.lstrip]. by rewrite Hc.
Qed.

Lemma rstrip_In s x : In x (rstrip s) -> In x s.
Proof.
  unfold Blacklist.rstrip. intros H. apply in_rev in H. apply lstrip_In in H.
  by apply in_rev.
Qed.

Lemma rstrip_last s c : last (rstrip s) = Some c -> isspace c = false.
Proof.
  unfold Blacklist.rstrip. intros H. apply (lstrip_head (rev s) c).
  destruct (lstrip (rev s)) as [|c0 l]; [done|].
  cbn [rev] in H. rewrite last_snoc in H. by injection H as ->.
Qed.

(** Stripping at the right keeps a non-blank head in place. *)
Lemma rstrip_head s c :
  head s = Some c -> isspace c = false -> head (rstrip s) = Some c.
Proof.
  intros Hs Hc. destruct s as [|c0 s]; [done|]. injection Hs as ->.
  unfold Blacklist.rstrip. cbn [rev].
  rewrite lstrip_app. destruct (forallb isspace (rev s)).
  - cbn [Blacklist.lstrip]. by rewrite Hc.
  - destruct (lstrip_suffix (rev s)) as (sp & Hsp).
    assert (rev (lstrip (rev s) ++ [c]) = c :: rev (lstrip (rev s))) as ->
      by by rewrite rev_app_distr.
    done.
Qed.

Lemma strip_snoc_space s c : isspace c = true -> strip (s ++ [c]) = strip s.
Proof.
  intros Hc. unfold Blacklist.strip. rewrite lstrip_app.
  destruct (forallb isspace s) eqn:Hs.
  - cbn [Blacklist.lstrip]. rewrite Hc. by rewrite (lstrip_spaces s Hs).
  - by apply rstrip_snoc_space.
Qed.

(** Every text is its first line alone, or its first line, a line feed
    and the rest. *)
Lemma readline_split text :
  exists line, ~ In newline line /\
    ((text = line /\ readline text = line) \/
     (exists rest, text = line ++ newline :: rest /\
                   readline text = line ++ [newline])).
Proof.
  induction text as [|c text (line & Hno & IH)]; cbn [Blacklist.readline].
  - exists []. split; [by intros []|by left].
  - destruct (Ascii.eqb c newline) eqn:Hc.
    + apply Ascii.eqb_eq in Hc. subst c. exists []. split; [by intros []|].
      right. by exists text.
    + exists (c :: line). split.
      * intros [->|H]; [by rewrite Ascii.eqb_refl in Hc|done].
      * destruct IH as [[-> ->]|(rest & -> & ->)]; [by left|].
        right. by exists rest.
Qed.

(** What is stripped on the left is white space. *)
Lemma lstrip_split s :
  exists spaces, s = spaces ++ lstrip s /\ forallb isspace spaces = true.
Proof.
  induction s as [|c s (sp & IH & Hsp)]; cbn [Blacklist.lstrip]; [by exists []|].
  destruct (isspace c) eqn:Hc; [|by exists []].
  exists (c :: sp). cbn [app forallb]. rewrite Hc, Hsp. split; [by f_equal|done].
Qed.

(** What is stripped on the right is white space. *)
Lemma rstrip_split s :
  exists spaces, s = rstrip s ++ spaces /\ forallb isspace spaces = true.
Proof.
  unfold Blacklist.rstrip. destruct (lstrip_split (rev s)) as (sp & Hs & Hsp).
  exists (rev sp). split.
  - rewrite <- rev_app_distr, <- Hs. by rewrite rev_involutive.
  - rewrite forallb_forall in *. intros x Hx. apply Hsp. by apply in_rev.
Qed.

(** [strip] takes the white space off both ends, and nothing else. *)
Lemma strip_split line :
  exists before after,
    line = before ++ strip line ++ after /\
    forallb isspace before = true /\ forallb isspace after = true /\
    (forall c, head (strip line) = Some c -> isspace c = false) /\
    (forall c, last (strip line) = Some c -> isspace c = false).
Proof.
  destruct (lstrip_split line) as (before & Hl & Hb).
  destruct (rstrip_split (lstrip line)) as (after & Hr & Ha).
  exists before, after. unfold Blacklist.strip.
  split; [by rewrite <- Hr|]. split; [done|]. split; [done|]. split.
  - intros c Hc. destruct (lstrip line) as [|c0 l0] eqn:Hs; [done|].
    assert (isspace c0 = false) as Hc0 by (apply (lstrip_head line); by rewrite Hs).
    pose proof (rstrip_head (c0 :: l0) c0 eq_refl Hc0) as Hh.
    rewrite Hc in Hh. by injection Hh as ->.
  - intros c. apply rstrip_last.
Qed.

(** X17.  Only the first line of the blacklist file counts: the user
    read is the first line without the white space at its two ends,
    nothing else is taken off, and whatever follows the first line feed
    is ignored.  The blacklist read has this one user, or none when the
    line is blank or the file is missing.  The user is not empty,
    neither starts nor ends with white space and holds no line feed. *)
Theorem read_blacklist_first_line (file : option (list Ascii.ascii)) :
  isspace newline = true ->
  size (read_blacklist file) <= 1 /\
  (forall u, u ∈ read_blacklist file ->
     exists l c1 c2, u = String.string_of_list_ascii l /\
       head l = Some c1 /\ isspace c1 = false /\
       last l = Some c2 /\ isspace c2 = false /\ ~ In newline l) /\
  (forall line rest, file = Some (line ++ newline :: rest) ->
     ~ In newline line -> read_blacklist file = read_blacklist (Some line)) /\
  match file with
  | None => read_blacklist file = ∅
  | Some text =>
      exists line before user after,
        ~ In newline line /\
        (text = line \/ exists rest, text = line ++ newline :: rest) /\
        line = before ++ user ++ after /\
        forallb isspace before = true /\ forallb isspace after = true /\
        (forall c, head user = Some c -> isspace c = false) /\
        (forall c, last user = Some c -> isspace c = false) /\
        read_blacklist file
        = match user with
          | [] => ∅
          | _ :: _ => {[ String.string_of_list_ascii user ]}
          end
  end.
Proof.
  intros Hnl. split; [|split; [|split]].
  - destruct file as [text|]; cbn [Blacklist.read_blacklist]; [|rewrite size_empty; lia].
    destruct (strip (readline text)); [rewrite size_empty; lia|].
    rewrite size_singleton. lia.
  - intros u Hu. destruct file as [text|]; cbn [Blacklist.read_blacklist] in Hu;
      [|by apply elem_of_empty in Hu].
    destruct (strip (readline text)) as [|c1 l] eqn:Hs;
      [by apply elem_of_empty in Hu|].
    apply elem_of_singleton in Hu. subst u.
    assert (strip (readline text) <> []) as Hne by by rewrite Hs.
    destruct (readline_cases text) as (line & Hno & Hline).
    assert (strip (readline text) = strip line) as Hstrip.
    { destruct Hline as [->| ->]; [done|]. by apply strip_snoc_space. }
    rewrite Hstrip in Hs.
    assert (isspace c1 = false) as Hc1.
    { unfold Blacklist.strip in Hs.
      destruct (lstrip line) as [|c0 l0] eqn:Hl; [done|].
      assert (isspace c0 = false) as Hc0 by (apply (lstrip_head line); by rewrite Hl).
      pose proof (rstrip_head (c0 :: l0) c0 eq_refl Hc0) as Hh.
      rewrite Hs in Hh. by injection Hh as ->. }
    assert (exists c2, last (c1 :: l) = Some c2) as [c2 Hc2].
    { destruct (last (c1 :: l)) as [c2|] eqn:Hlast; [by exists c2|].
      by apply last_None in Hlast. }
    exists (c1 :: l), c1, c2. split; [done|]. split; [done|]. split; [done|].
    split; [done|]. split.
    + apply (rstrip_last (lstrip line)). unfold Blacklist.strip in Hs. by rewrite Hs.
    + intros Hin. apply Hno. rewrite <- Hs in Hin. unfold Blacklist.strip in Hin.
      by apply rstrip_In, lstrip_In in Hin.
  - intros line rest -> Hno. cbn [Blacklist.read_blacklist].
    rewrite (readline_line line rest Hno), (readline_last_line line Hno).
    by rewrite (strip_snoc_space line newline Hnl).
  - destruct file as [text|]; [|done].
    destruct (readline_split text) as (line & Hno & Hline).
    destruct (strip_split line) as (before & after & Hparts & Hb & Ha & Hh & Hl).
    exists line, before, (strip line), after.
    split; [done|]. split.
    { destruct Hline as [[-> _]|(rest & -> & _)]; [by left|right; by exists rest]. }
    split; [done|]. split; [done|]. split; [done|]. split; [done|]. split; [done|].
    cbn [Blacklist.read_blacklist].
    assert (strip (readline text) = strip line) as ->; [|done].
    destruct Hline as [[_ ->]|(rest & _ & ->)]; [done|].
    by apply strip_snoc_space.
Qed.

End BlacklistFacts.

(** * Part V: the further properties on the sample data *)

Lemma clusters_disjoint_witness :
  concat (map snd [(3, Sample.cluster4)]) ⊆+ Cluster.flatten Sample.component4.
Proof.
  apply (clusters_disjoint Sample.distance Sample.Cair Sample.component4 3).
  vm_compute. reflexivity.
Defined.

Lemma clusters_chronological_witness :
  Chrono.chronological Sample.cluster4 /\
  Track.sort_cluster Sample.cluster4 = Sample.cluster4.
Proof.
  apply (clusters_chronological Sample.distance Sample.Cair Sample.component4 3
           [(3, Sample.cluster4)] 3).
  - vm_compute. reflexivity.
  - left. reflexivity.
Defined.

Lemma clusters_quorum_and_span_witness :
  3 <= 3 /\ 3 <= length Sample.cluster4 /\ 1 <= 3 /\
  exists seed, last Sample.cluster4 = Some seed /\
    Forall (fun x => (0 <= e_timestamp seed - e_timestamp x <= 2e-3)%Q)
      Sample.cluster4.
Proof.
  apply (clusters_quorum_and_span Sample.distance Sample.Cair Sample.component4 3
           [(3, Sample.cluster4)] 3).
  - vm_compute. reflexivity.
  - left. reflexivity.
Defined.

Lemma resolve_frame_witness :
  Track.pending nat
    (Track.o_state nat
       (Sample.resolve Sample.solve_nocov (Sample.tracker Sample.group4) 100
          Sample.group4))
  = delete "8d" (Track.pending nat (Sample.tracker Sample.group4)).
Proof.
  apply (resolve_frame nat Sample.user Sample.position Sample.distance Sample.Cair
           Sample.FTOM Sample.MLAT_DELAY Sample.decode Sample.normalize
           Sample.solve_nocov Sample.kalman_update
           (Sample.tracker Sample.group4) 100 Sample.group4 Sample.group4).
  apply lookup_singleton_eq.
Defined.

Lemma outputs_have_quorum_witness :
  3 <= 3 /\ 3 <= length [1; 2; 3; 4] /\ NoDup [1; 2; 3; 4].
Proof.
  destruct (outputs_have_quorum nat Sample.user Sample.position Sample.distance
              Sample.Cair Sample.FTOM Sample.MLAT_DELAY Sample.decode
              Sample.normalize Sample.solve_nocov Sample.kalman_update
              (Sample.tracker Sample.group4) 100 Sample.group4
              0 1000%Q 4321%Z (1%Q, 2%Q, 3%Q) None [1; 2; 3; 4] 3 1)
    as (H3 & Hlen & Hnd & _).
  - vm_compute. do 5 right. left. reflexivity.
  - by repeat split.
Defined.

Lemma resolve_exceptions_witness :
  Track.pseudorange_file nat (Sample2.tracker_logging Sample.group4) = true /\
  exists first cl a b pos d,
    In (Track.EvKalman nat first cl a b pos None d)
      (Track.o_events nat
         (Sample.resolve Sample.solve_nocov
            (Sample2.tracker_logging Sample.group4) 100 Sample.group4)).
Proof.
  destruct (resolve_exceptions nat Sample.user Sample.position Sample.distance
              Sample.Cair Sample.FTOM Sample.MLAT_DELAY Sample.decode
              Sample.normalize Sample.solve_nocov Sample.kalman_update
              (Sample2.tracker_logging Sample.group4) 100 Sample.group4 TypeError)
    as (_ & _ & H).
  - vm_compute. reflexivity.
  - by apply H.
Defined.

Lemma accepted_respects_history_witness :
  (100e6 <= 100e6)%Q /\ 0 < 1 <= 1.
Proof.
  destruct (accepted_respects_history nat Sample.position Sample.MLAT_DELAY
              Sample.solve_nocov None 1e9%Q 0 120%Q None None
              [(3, Sample.cluster3)]
              (1%Q, 2%Q, 3%Q) None 100e6%Q 3 (Track.sort_cluster Sample.cluster3)
              [Track.EvSolve nat (Track.sort_cluster Sample.cluster3) None None
                 (Sample.position 0)])
    as (Hvar & _ & _ & _ & _ & Hlen).
  - vm_compute. reflexivity.
  - split; [exact Hvar|exact Hlen].
Defined.

Lemma pseudorange_offsets_witness :
  Track.cluster_state Sample.position Sample.cluster4
  = map (fun x => (Sample.position (e_receiver x),
                   (e_timestamp x - 0.1e-3) * 1e6, e_variance x * 1e12)%Q)
      Sample.cluster4 /\
  Forall (fun x => (0 <= (e_timestamp x - 0.1e-3) * 1e6 <= 2000)%Q) Sample.cluster4.
Proof.
  destruct (pseudorange_offsets nat Sample.user Sample.position Sample.distance
              Sample.Cair Sample.FTOM Sample.MLAT_DELAY Sample.decode
              Sample.normalize Sample2.solve_cov Sample.kalman_update
              (Sample2.tracker_logging Sample.group4) 100 Sample.group4
              4321%Z 1000%Q (1%Q, 2%Q, 3%Q)
              ((100%Q, 0%Q, 0%Q), (0%Q, 100%Q, 0%Q), (0%Q, 0%Q, 100%Q)) 3
              (Track.cluster_state Sample.position Sample.cluster4)
              (Track.altitude_model nat Sample.FTOM
                 (Track.refresh nat Sample.ac0 Sample.decoded 100) 100).1.1
              (Track.altitude_model nat Sample.FTOM
                 (Track.refresh nat Sample.ac0 Sample.decoded 100) 100).1.2)
    as (_ & _ & _ & m & rest & Hk & Hrows & _ & _ & _ & Hall).
  - vm_compute. repeat (first [left; reflexivity | right]).
  - assert (m :: rest = Sample.cluster4) as Hcl.
    { vm_compute in Hk.
      repeat (destruct Hk as [Hk|Hk]; [try discriminate Hk|]); [|destruct Hk].
      by injection Hk as <- <-. }
    rewrite Hcl in Hrows, Hall. injection Hcl as -> _. by split.
Defined.

Lemma timer_resolves_its_group_witness :
  exists g s',
    Loop.groups nat (Sample2.run Sample2.arrivals) !! 0 = Some g /\
    Loop.pending nat (Sample2.run Sample2.arrivals) !! message g = Some 0 /\
    Track.pending nat (Loop.tracker nat (Sample2.run Sample2.arrivals)) !! message g
    = Some g /\
    copies g <> [] /\
    Loop.fire nat Sample.user Sample.position Sample.distance Sample.Cair
      Sample.FTOM Sample.MLAT_DELAY Sample.decode Sample.normalize
      Sample.solve_nocov Sample.kalman_update (Sample2.run Sample2.arrivals) 100 0
    = Some (s', Sample.resolve Sample.solve_nocov
                  (Loop.tracker nat (Sample2.run Sample2.arrivals)) 100 g) /\
    Loop.pending nat s'
    = delete (message g) (Loop.pending nat (Sample2.run Sample2.arrivals)) /\
    Loop.timers nat s' = delete 0 (Loop.timers nat (Sample2.run Sample2.arrivals)) /\
    Loop.groups nat s' = Loop.groups nat (Sample2.run Sample2.arrivals).
Proof.
  apply (timer_resolves_its_group nat Sample.user Sample.position Sample.distance
           Sample.Cair Sample.FTOM Sample.MLAT_DELAY Sample.decode Sample.normalize
           Sample.solve_nocov Sample.kalman_update
           {[ "blocked" ]} {[ 4321%Z := Sample.ac0 ]} 1 false Sample2.arrivals
           100 0 0).
  vm_compute. reflexivity.
Defined.

Lemma solver_inputs_witness :
  3 <= length Sample.cluster4 /\ NoDup (map e_receiver Sample.cluster4).
Proof.
  destruct (solver_inputs nat Sample.user Sample.position Sample.distance
              Sample.Cair Sample.FTOM Sample.MLAT_DELAY Sample.decode
              Sample.normalize Sample.solve_nocov Sample.kalman_update
              (Sample.tracker Sample.group4) 100 Sample.group4
              Sample.cluster4
              (Track.altitude_model nat Sample.FTOM
                 (Track.refresh nat Sample.ac0 Sample.decoded 100) 100).1.1
              (Track.altitude_model nat Sample.FTOM
                 (Track.refresh nat Sample.ac0 Sample.decoded 100) 100).1.2
              (Sample.position 1))
    as (Hlen & Hnd & _).
  - vm_compute. repeat (first [left; reflexivity | right]).
  - by split.
Defined.

Lemma blacklisted_never_in_output_witness :
  (Sample.user 3 ∉ Track.blacklist nat (Sample.tracker Sample.group4)) /\
  exists t, In (3, t) (copies Sample.group4).
Proof.
  apply (blacklisted_never_in_output nat Sample.user Sample.position Sample.distance
           Sample.Cair Sample.FTOM Sample.MLAT_DELAY Sample.decode Sample.normalize
           Sample.solve_nocov Sample.kalman_update
           (Sample.tracker Sample.group4) 100 Sample.group4
           0 1000%Q 4321%Z (1%Q, 2%Q, 3%Q) None [1; 2; 3; 4] 3 1).
  - intros m c r v ts [<-|[]] Hin.
    apply in_map_iff in Hin as ([r' ts'] & [= -> _ _] & Hin).
    apply list_elem_of_fmap. exists (r, ts'). split; [done|].
    by apply list_elem_of_In.
  - vm_compute. do 5 right. left. reflexivity.
  - right. right. by left.
Defined.

Lemma read_blacklist_first_line_witness :
  Blacklist.read_blacklist Sample2.isspace (Some Sample2.blacklist_text)
  = Blacklist.read_blacklist Sample2.isspace
      (Some (String.list_ascii_of_string " alice ")).
Proof.
  destruct (read_blacklist_first_line Sample2.isspace (Some Sample2.blacklist_text))
    as (_ & _ & H & _).
  - reflexivity.
  - apply (H (String.list_ascii_of_string " alice ")
             (String.list_ascii_of_string "bob")); [reflexivity|].
    vm_compute. intros Hin.
    repeat (destruct Hin as [Hin|Hin]; [discriminate Hin|]). exact Hin.
Defined.

(** The sample file blacklists its first user only. *)
Example read_blacklist_sample :
  Blacklist.read_blacklist Sample2.isspace (Some Sample2.blacklist_text)
  = {[ "alice" ]}.
Proof. reflexivity. Qed.
